(** * Dynamic Event Calendar: a shallow embedding of the calendar core

    The development follows the [Calendar] component (the month grid,
    [getDaysInMonth]) and the [App] component (the event store, the overlap
    check, drag relocation, export and persistence), both to be found in
    [src/components/Calendar.tsx].

    JavaScript values are modelled as follows.
    - A Number that the code only ever uses as an integer is a [num]:
      [Some z] for the integer [z], [None] for [NaN].
    - A [Date] object is its time value, a [num] of milliseconds since the
      epoch; [None] is the Invalid Date.
    - Strings are Rocq strings; a character stands for one code unit in the
      range 0..255.
    - [Record<string, Event[]>] is a finite map from day keys to lists. *)

From Stdlib Require Import ZArith Ascii String List Bool Lia.
From stdpp Require Import base option list gmap strings fin_maps.

Local Open Scope Z_scope.

(** ** The host environment

    What the browser decides and the program cannot see. *)
Class HostEnv := {
  (** Offset of local time from UTC in milliseconds, taken constant; it is
      less than a day either way. *)
  localTZA : Z;
  localTZA_bound : Z.abs localTZA < 86400000;
  (** What [Date.parse] answers on a string that is not of the shape
      [YYYY-MM-DDTHH:mm] (other ISO shapes and the engine's own formats). *)
  Date_parse_other : string → option Z;
  (** Whether [localStorage.setItem] accepts the value (it throws when the
      quota is exceeded or storage is disabled). *)
  setItem_accepts : string → bool;
}.

(** ** ECMAScript time values (ECMA-262, Date objects) *)
Module ES.

Definition msPerDay : Z := 86400000.

Definition Day (t : Z) : Z := t / msPerDay.
Definition TimeWithinDay (t : Z) : Z := t mod msPerDay.

Definition DaysInYear (y : Z) : Z :=
  if negb (y mod 4 =? 0) then 365
  else if negb (y mod 100 =? 0) then 366
  else if negb (y mod 400 =? 0) then 365
  else 366.

Definition DayFromYear (y : Z) : Z :=
  365 * (y - 1970) + (y - 1969) / 4 - (y - 1901) / 100 + (y - 1601) / 400.

Definition TimeFromYear (y : Z) : Z := msPerDay * DayFromYear y.

(** The largest year whose first day is not after day [d]: an estimate from
    the mean year length, corrected by at most one. *)
Definition YearFromDay (d : Z) : Z :=
  let y0 := 1970 + (400 * d) / 146097 in
  if d <? DayFromYear y0 then y0 - 1
  else if DayFromYear (y0 + 1) <=? d then y0 + 1
  else y0.

Definition YearFromTime (t : Z) : Z := YearFromDay (Day t).

Definition leap (y : Z) : Z := if DaysInYear y =? 366 then 1 else 0.
Definition InLeapYear (t : Z) : Z := leap (YearFromTime t).

Definition DayWithinYear (t : Z) : Z := Day t - DayFromYear (YearFromTime t).

Definition MonthFromTime (t : Z) : Z :=
  let d := DayWithinYear t in
  let L := InLeapYear t in
  if d <? 31 then 0
  else if d <? 59 + L then 1
  else if d <? 90 + L then 2
  else if d <? 120 + L then 3
  else if d <? 151 + L then 4
  else if d <? 181 + L then 5
  else if d <? 212 + L then 6
  else if d <? 243 + L then 7
  else if d <? 273 + L then 8
  else if d <? 304 + L then 9
  else if d <? 334 + L then 10
  else 11.

Definition DateFromTime (t : Z) : Z :=
  let d := DayWithinYear t in
  let L := InLeapYear t in
  match MonthFromTime t with
  | 0 => d + 1
  | 1 => d - 30
  | 2 => d - 58 - L
  | 3 => d - 89 - L
  | 4 => d - 119 - L
  | 5 => d - 150 - L
  | 6 => d - 180 - L
  | 7 => d - 211 - L
  | 8 => d - 242 - L
  | 9 => d - 272 - L
  | 10 => d - 303 - L
  | _ => d - 333 - L
  end.

Definition WeekDay (t : Z) : Z := (Day t + 4) mod 7.

Definition MakeTime (hour min sec ms : Z) : Z :=
  hour * 3600000 + min * 60000 + sec * 1000 + ms.

(** Day within the year on which month [mn] (0..11) starts. *)
Definition monthStart (L mn : Z) : Z :=
  match mn with
  | 0 => 0
  | 1 => 31
  | 2 => 59 + L
  | 3 => 90 + L
  | 4 => 120 + L
  | 5 => 151 + L
  | 6 => 181 + L
  | 7 => 212 + L
  | 8 => 243 + L
  | 9 => 273 + L
  | 10 => 304 + L
  | _ => 334 + L
  end.

Definition MakeDay (year month date : Z) : Z :=
  let ym := year + month / 12 in
  let mn := month mod 12 in
  DayFromYear ym + monthStart (leap ym) mn + date - 1.

Definition MakeDate (day time : Z) : Z := day * msPerDay + time.

Definition TimeClip (t : Z) : option Z :=
  if 8640000000000000 <? Z.abs t then None else Some t.

Section LocalZone.
Context `{HostEnv}.
Definition LocalTime (t : Z) : Z := t + localTZA.
Definition UTC (t : Z) : Z := t - localTZA.
End LocalZone.

End ES.

(** ** Numbers and Date objects *)

(** An integer-valued Number, or [NaN]. *)
Definition num : Type := option Z.

Definition num_add (a b : num) : num := x ← a; y ← b; Some (x + y).
Definition num_sub (a b : num) : num := x ← a; y ← b; Some (x - y).
Definition num_mul (a b : num) : num := x ← a; y ← b; Some (x * y).

(** Relational comparison: false as soon as one side is [NaN]. *)
Definition num_lt (a b : num) : bool :=
  match a, b with Some x, Some y => x <? y | _, _ => false end.
Definition num_le (a b : num) : bool :=
  match a, b with Some x, Some y => x <=? y | _, _ => false end.
Definition num_gt (a b : num) : bool := num_lt b a.

(** [Math.ceil(x / 7)]: on an integer [x] the quotient is exact enough for
    the ceiling to be the integer ceiling. *)
Definition Math_ceil_div7 (x : num) : num := z ← x; Some (- ((- z) / 7)).

Definition Date : Type := num.

Definition DQUOTE : ascii := "034"%char.
Definition BACKSLASH : ascii := "092"%char.
Definition LF : ascii := "010"%char.

Definition digit_char (n : Z) : ascii := ascii_of_N (Z.to_N (48 + n mod 10)).

(** The last [width] decimal digits of [n], zero padded. *)
Fixpoint pad_digits (width : nat) (n : Z) : string :=
  match width with
  | O => EmptyString
  | S w => pad_digits w (n / 10) +:+ String (digit_char n) EmptyString
  end.

(** [s.split(sep)[0]]: the text before the first [sep]. *)
Fixpoint split_head (sep : ascii) (s : string) : string :=
  match s with
  | EmptyString => EmptyString
  | String c r => if Ascii.eqb c sep then EmptyString else String c (split_head sep r)
  end.

Fixpoint join (sep : string) (l : list string) : string :=
  match l with
  | [] => EmptyString
  | [x] => x
  | x :: r => x +:+ sep +:+ join sep r
  end.

Section DateObjects.
Context `{HostEnv}.

(** [new Date(year, month, date)]: a year in 0..99 means 1900 + year. *)
Definition Date_ymd (year month date : num) : Date :=
  y ← year; m ← month; dt ← date;
  let yr := if (0 <=? y) && (y <=? 99) then 1900 + y else y in
  ES.TimeClip (ES.UTC (ES.MakeDate (ES.MakeDay yr m dt) (ES.MakeTime 0 0 0 0))).

Definition getFullYear (d : Date) : num := t ← d; Some (ES.YearFromTime (ES.LocalTime t)).
Definition getMonth (d : Date) : num := t ← d; Some (ES.MonthFromTime (ES.LocalTime t)).
Definition getDate (d : Date) : num := t ← d; Some (ES.DateFromTime (ES.LocalTime t)).
Definition getDay (d : Date) : num := t ← d; Some (ES.WeekDay (ES.LocalTime t)).

Definition setDate (d : Date) (date : num) : Date :=
  t ← d; dt ← date;
  let lt := ES.LocalTime t in
  ES.TimeClip (ES.UTC (ES.MakeDate
    (ES.MakeDay (ES.YearFromTime lt) (ES.MonthFromTime lt) dt) (ES.TimeWithinDay lt))).

Definition digit_val (c : ascii) : option Z :=
  let n := Z.of_N (N_of_ascii c) in
  if (48 <=? n) && (n <=? 57) then Some (n - 48) else None.

Definition two_digits (a b : ascii) : option Z :=
  x ← digit_val a; y ← digit_val b; Some (10 * x + y).

(** [new Date] of the text 2000-01-01T followed by [time]. A time of the
    shape [HH:mm] is read as local time; a field out of range gives the
    Invalid Date. *)
Definition Date_on_2000_01_01 (time : string) : Date :=
  let other := Date_parse_other ("2000-01-01T" +:+ time) in
  match time with
  | String h1 (String h2 (String ":" (String m1 (String m2 EmptyString)))) =>
      match two_digits h1 h2, two_digits m1 m2 with
      | Some h, Some m =>
          if ((h <=? 23) && (m <=? 59)) || ((h =? 24) && (m =? 0))
          then ES.TimeClip (ES.UTC (ES.MakeDate (ES.MakeDay 2000 0 1) (ES.MakeTime h m 0 0)))
          else None
      | _, _ => other
      end
  | _ => other
  end.
End DateObjects.

(** [d.toISOString()]: the UTC fields; [None] is the [RangeError] thrown on
    the Invalid Date. *)
Definition toISOString (d : Date) : option string :=
  t ← d;
  let y := ES.YearFromTime t in
  let year :=
    if (0 <=? y) && (y <=? 9999) then pad_digits 4 y
    else (if y <? 0 then "-" else "+") +:+ pad_digits 6 (Z.abs y) in
  Some (year +:+ "-" +:+ pad_digits 2 (ES.MonthFromTime t + 1)
        +:+ "-" +:+ pad_digits 2 (ES.DateFromTime t)
        +:+ "T" +:+ pad_digits 2 ((t / 3600000) mod 24)
        +:+ ":" +:+ pad_digits 2 ((t / 60000) mod 60)
        +:+ ":" +:+ pad_digits 2 ((t / 1000) mod 60)
        +:+ "." +:+ pad_digits 3 (t mod 1000) +:+ "Z").

(** [d.toISOString().split('T')[0]] *)
Definition dateKeyOf (d : Date) : option string := split_head "T" <$> toISOString d.

(** ** Events *)

Inductive Category := work | personal | other.

Definition Category_name (c : Category) : string :=
  match c with work => "work" | personal => "personal" | other => "other" end.

Record Event := mkEvent {
  id : string;
  title : string;
  startTime : string;
  endTime : string;
  description : option string;
  category : Category;
  color : option string;
}.

(** [Omit<Event, 'id'>], what the modal hands to [handleSaveEvent]. *)
Record EventData := mkEventData {
  data_title : string;
  data_startTime : string;
  data_endTime : string;
  data_description : option string;
  data_category : Category;
  data_color : option string;
}.

(** [{ ...eventData, id: i }] *)
Definition with_id (eventData : EventData) (i : string) : Event :=
  {| id := i;
     title := data_title eventData;
     startTime := data_startTime eventData;
     endTime := data_endTime eventData;
     description := data_description eventData;
     category := data_category eventData;
     color := data_color eventData |}.

Section Overlap.
Context `{HostEnv}.

Definition hasTimeOverlap (event1 event2 : Event) : bool :=
  let start1 := Date_on_2000_01_01 (startTime event1) in
  let end1 := Date_on_2000_01_01 (endTime event1) in
  let start2 := Date_on_2000_01_01 (startTime event2) in
  let end2 := Date_on_2000_01_01 (endTime event2) in
  num_lt start1 end2 && num_gt end1 start2.
End Overlap.

(** ** JSON

    The values [JSON.parse] builds and [JSON.stringify] walks. A number is
    kept as its literal: nothing here computes with one. The members of an
    object are listed in the order they were added. *)

#[warnings="-register-all"]
Inductive jsval :=
| JNull
| JBool (b : bool)
| JNum (literal : string)
| JStr (s : string)
| JArr (items : list jsval)
| JObj (props : list (string * jsval)).

Definition code (c : ascii) : Z := Z.of_N (N_of_ascii c).
Definition char_of (n : Z) : ascii := ascii_of_N (Z.to_N n).

Definition hex_char (n : Z) : ascii :=
  if n <? 10 then char_of (48 + n) else char_of (87 + n).

Definition esc (c : ascii) : string := String BACKSLASH (String c EmptyString).

(** What [QuoteJSONString] writes for one code unit. *)
Definition quote_char (c : ascii) : string :=
  let n := code c in
  if n =? 8 then esc "b"
  else if n =? 9 then esc "t"
  else if n =? 10 then esc "n"
  else if n =? 12 then esc "f"
  else if n =? 13 then esc "r"
  else if n =? 34 then esc DQUOTE
  else if n =? 92 then esc BACKSLASH
  else if n <? 32 then
    String BACKSLASH (String "u" (String "0" (String "0"
      (String (hex_char (n / 16)) (String (hex_char (n mod 16)) EmptyString)))))
  else String c EmptyString.

Fixpoint quote_chars (s : string) : string :=
  match s with
  | EmptyString => EmptyString
  | String c r => quote_char c +:+ quote_chars r
  end.

Definition QuoteJSONString (s : string) : string :=
  String DQUOTE (quote_chars s +:+ String DQUOTE EmptyString).

Fixpoint JSON_stringify (v : jsval) : string :=
  match v with
  | JNull => "null"
  | JBool true => "true"
  | JBool false => "false"
  | JNum literal => literal
  | JStr s => QuoteJSONString s
  | JArr items => "[" +:+ join "," (map JSON_stringify items) +:+ "]"
  | JObj props =>
      "{" +:+ join "," (map (λ kv, match kv with
                                   | (k, x) => QuoteJSONString k +:+ ":" +:+ JSON_stringify x
                                   end) props) +:+ "}"
  end.

Definition is_ws (c : ascii) : bool :=
  let n := code c in (n =? 32) || (n =? 9) || (n =? 10) || (n =? 13).

Fixpoint skip_ws (s : string) : string :=
  match s with
  | EmptyString => EmptyString
  | String c r => if is_ws c then skip_ws r else s
  end.

Definition hex_val (c : ascii) : option Z :=
  let n := code c in
  if (48 <=? n) && (n <=? 57) then Some (n - 48)
  else if (97 <=? n) && (n <=? 102) then Some (n - 87)
  else if (65 <=? n) && (n <=? 70) then Some (n - 55)
  else None.

Definition hex4 (a b c d : ascii) : option Z :=
  x ← hex_val a; y ← hex_val b; z ← hex_val c; w ← hex_val d;
  Some (((x * 16 + y) * 16 + z) * 16 + w).

Definition cons_char (c : ascii) (r : option (string * string)) : option (string * string) :=
  match r with Some (t, rest) => Some (String c t, rest) | None => None end.

(** The characters of a string literal, read after its opening quote, and
    the input left after its closing quote. An escape that denotes a code
    unit above 255 has no counterpart among the modelled strings and is
    refused. *)
Fixpoint scan_chars (s : string) : option (string * string) :=
  match s with
  | EmptyString => None
  | String c r =>
      if Ascii.eqb c DQUOTE then Some (EmptyString, r)
      else if Ascii.eqb c BACKSLASH then
        match r with
        | EmptyString => None
        | String e r1 =>
            if Ascii.eqb e DQUOTE then cons_char DQUOTE (scan_chars r1)
            else if Ascii.eqb e BACKSLASH then cons_char BACKSLASH (scan_chars r1)
            else if Ascii.eqb e "/" then cons_char "/" (scan_chars r1)
            else if Ascii.eqb e "b" then cons_char "008" (scan_chars r1)
            else if Ascii.eqb e "f" then cons_char "012" (scan_chars r1)
            else if Ascii.eqb e "n" then cons_char "010" (scan_chars r1)
            else if Ascii.eqb e "r" then cons_char "013" (scan_chars r1)
            else if Ascii.eqb e "t" then cons_char "009" (scan_chars r1)
            else if Ascii.eqb e "u" then
              match r1 with
              | String h1 (String h2 (String h3 (String h4 r2))) =>
                  match hex4 h1 h2 h3 h4 with
                  | Some n => if n <? 256 then cons_char (char_of n) (scan_chars r2) else None
                  | None => None
                  end
              | _ => None
              end
            else None
        end
      else if code c <? 32 then None
      else cons_char c (scan_chars r)
  end.

Definition is_digit (c : ascii) : bool := (48 <=? code c) && (code c <=? 57).

Fixpoint scan_digits (s : string) : string * string :=
  match s with
  | EmptyString => (EmptyString, EmptyString)
  | String c r =>
      if is_digit c then let '(ds, rest) := scan_digits r in (String c ds, rest)
      else (EmptyString, s)
  end.

(** A JSON number literal: an optional minus sign; a zero, or a non-zero
    digit and more digits; an optional fraction (a point and digits); an
    optional exponent (e or E, an optional sign and digits). *)
Definition scan_number (s : string) : option (string * string) :=
  let '(sign, s1) :=
    match s with String "-" r => ("-", r) | _ => (EmptyString, s) end in
  '(int, s2) ←
    match s1 with
    | String "0" r => Some ("0", r)
    | String c _ => if is_digit c then Some (scan_digits s1) else None
    | EmptyString => None
    end;
  '(frac, s3) ←
    match s2 with
    | String "." r =>
        let '(ds, rest) := scan_digits r in
        if String.eqb ds EmptyString then None else Some (String "." ds, rest)
    | _ => Some (EmptyString, s2)
    end;
  '(exp, s4) ←
    match s3 with
    | String e r =>
        if Ascii.eqb e "e" || Ascii.eqb e "E" then
          let '(sg, r1) :=
            match r with
            | String "+" r' => ("+", r')
            | String "-" r' => ("-", r')
            | _ => (EmptyString, r)
            end in
          let '(ds, rest) := scan_digits r1 in
          if String.eqb ds EmptyString then None else Some (String e (sg +:+ ds), rest)
        else Some (EmptyString, s3)
    | EmptyString => Some (EmptyString, s3)
    end;
  Some (sign +:+ int +:+ frac +:+ exp, s4).

(** [s] without the prefix [p], when it starts with it. *)
Fixpoint strip_prefix (p s : string) : option string :=
  match p, s with
  | EmptyString, _ => Some s
  | String a p', String b s' => if Ascii.eqb a b then strip_prefix p' s' else None
  | String _ _, EmptyString => None
  end.

(** Defining a member: a key that is already there keeps its place and
    takes the new value. *)
Fixpoint obj_set (k : string) (x : jsval) (props : list (string * jsval)) : list (string * jsval) :=
  match props with
  | [] => [(k, x)]
  | (k', x') :: r => if String.eqb k' k then (k', x) :: r else (k', x') :: obj_set k x r
  end.

Fixpoint parse_value (fuel : nat) (s : string) : option (jsval * string) :=
  match fuel with
  | O => None
  | S f =>
      match skip_ws s with
      | EmptyString => None
      | String c r =>
          if Ascii.eqb c "{" then
            match skip_ws r with
            | String "}" r' => Some (JObj [], r')
            | _ => parse_members f r []
            end
          else if Ascii.eqb c "[" then
            match skip_ws r with
            | String "]" r' => Some (JArr [], r')
            | _ => parse_elements f r []
            end
          else if Ascii.eqb c DQUOTE then
            match scan_chars r with
            | Some (t, rest) => Some (JStr t, rest)
            | None => None
            end
          else if Ascii.eqb c "t" then (λ rest, (JBool true, rest)) <$> strip_prefix "rue" r
          else if Ascii.eqb c "f" then (λ rest, (JBool false, rest)) <$> strip_prefix "alse" r
          else if Ascii.eqb c "n" then (λ rest, (JNull, rest)) <$> strip_prefix "ull" r
          else
            match scan_number (String c r) with
            | Some (literal, rest) => Some (JNum literal, rest)
            | None => None
            end
      end
  end
with parse_elements (fuel : nat) (s : string) (acc : list jsval) : option (jsval * string) :=
  match fuel with
  | O => None
  | S f =>
      match parse_value f s with
      | Some (x, r) =>
          match skip_ws r with
          | String "," r' => parse_elements f r' (acc ++ [x])
          | String "]" r' => Some (JArr (acc ++ [x]), r')
          | _ => None
          end
      | None => None
      end
  end
with parse_members (fuel : nat) (s : string) (acc : list (string * jsval)) : option (jsval * string) :=
  match fuel with
  | O => None
  | S f =>
      match skip_ws s with
      | String c r =>
          if Ascii.eqb c DQUOTE then
            match scan_chars r with
            | Some (k, r1) =>
                match skip_ws r1 with
                | String ":" r2 =>
                    match parse_value f r2 with
                    | Some (x, r3) =>
                        match skip_ws r3 with
                        | String "," r4 => parse_members f r4 (obj_set k x acc)
                        | String "}" r4 => Some (JObj (obj_set k x acc), r4)
                        | _ => None
                        end
                    | None => None
                    end
                | _ => None
                end
            | None => None
            end
          else None
      | EmptyString => None
      end
  end.

(** [JSON.parse(text)]; [None] is the [SyntaxError]. No call nests deeper
    than the text is long. *)
Definition JSON_parse (text : string) : option jsval :=
  match parse_value (S (String.length text)) text with
  | Some (v, rest) => if String.eqb (skip_ws rest) EmptyString then Some v else None
  | None => None
  end.

(** ** The event store and its JSON form *)

Abbreviation Store := (gmap string (list Event)).

Definition opt_prop (k : string) (o : option string) : list (string * jsval) :=
  match o with Some x => [(k, JStr x)] | None => [] end.

(** The object of an event; a missing optional member is left out, as
    [JSON.stringify] leaves out an [undefined] one. The order of the members
    is a convention here: nothing below depends on it. *)
Definition Event_to_js (e : Event) : jsval :=
  JObj ([("id", JStr (id e)); ("title", JStr (title e));
         ("startTime", JStr (startTime e)); ("endTime", JStr (endTime e))]
        ++ opt_prop "description" (description e)
        ++ [("category", JStr (Category_name (category e)))]
        ++ opt_prop "color" (color e)).

Definition day_to_js (kv : string * list Event) : string * jsval :=
  (kv.1, JArr (map Event_to_js kv.2)).

Definition store_to_js (m : Store) : jsval := JObj (map day_to_js (map_to_list m)).

(** [props[k]] on the members of an object. *)
Fixpoint js_get (k : string) (props : list (string * jsval)) : option jsval :=
  match props with
  | [] => None
  | (k', x) :: r => if String.eqb k' k then Some x else js_get k r
  end.

Definition js_string (o : option jsval) : option string :=
  match o with Some (JStr x) => Some x | _ => None end.

Definition js_opt_string (o : option jsval) : option (option string) :=
  match o with
  | None => Some None
  | Some (JStr x) => Some (Some x)
  | Some _ => None
  end.

Definition Category_of_name (x : string) : option Category :=
  if String.eqb x "work" then Some work
  else if String.eqb x "personal" then Some personal
  else if String.eqb x "other" then Some other
  else None.

Definition Event_of_js (v : jsval) : option Event :=
  match v with
  | JObj props =>
      i ← js_string (js_get "id" props);
      t ← js_string (js_get "title" props);
      st ← js_string (js_get "startTime" props);
      en ← js_string (js_get "endTime" props);
      d ← js_opt_string (js_get "description" props);
      c ← js_string (js_get "category" props) ≫= Category_of_name;
      col ← js_opt_string (js_get "color" props);
      Some (mkEvent i t st en d c col)
  | _ => None
  end.

Definition day_of_js (kv : string * jsval) : option (string * list Event) :=
  match kv.2 with
  | JArr items => es ← mapM Event_of_js items; Some (kv.1, es)
  | _ => None
  end.

(** Reading a JavaScript value at the type [Record<string, Event[]>], the
    type [loadEventsFromStorage] is declared to return; [None] when the
    value does not have that type. *)
Definition events_of_js (v : jsval) : option Store :=
  match v with
  | JObj props => list_to_map <$> mapM day_of_js props
  | _ => None
  end.

(** ** The application state and what the outside sees *)

Record AppState := mkApp {
  events : Store;
  selectedDate : option Date;
  selectedEvent : option Event;
  isEventModalOpen : bool;
  showAddEvent : bool;
  searchQuery : string;
  currentMonth : Date;
}.

Inductive Exn := TypeError | RangeError.

Inductive Obs :=
| ObsAlert (msg : string)
| ObsSetItem (value : string)
| ObsConsoleError (msg : string)
| ObsUncaught (e : Exn).

(** [item] is what [localStorage] holds under the key [calendar_events];
    [trace] lists the calls and uncaught exceptions so far. *)
Record World := mkWorld {
  app : AppState;
  item : option string;
  trace : list Obs;
}.

Definition with_app (a : AppState) (w : World) : World :=
  {| app := a; item := item w; trace := trace w |}.

Definition observe (o : list Obs) (w : World) : World :=
  {| app := app w; item := item w; trace := trace w ++ o |}.

(** An exception that leaves a handler: nothing was set before it. *)
Definition throw (e : Exn) (w : World) : World := observe [ObsUncaught e] w.

Definition overlap_message : string :=
  "This time slot overlaps with an existing event. Please choose a different time.".

(** [Array.prototype.splice(start, deleteCount, ...items)] for a start and a
    count that are non-negative integers: the array afterwards and the
    elements removed. *)
Definition splice {A} (start deleteCount : nat) (items l : list A) : list A * list A :=
  let actualStart := Nat.min start (length l) in
  let actualDeleteCount := Nat.min deleteCount (length l - actualStart) in
  (take actualStart l ++ items ++ drop (actualStart + actualDeleteCount) l,
   take actualDeleteCount (drop actualStart l)).

Record DraggableLocation := mkLocation {
  droppableId : string;
  index : nat;
}.

Record DropResult := mkDropResult {
  source : DraggableLocation;
  destination : option DraggableLocation;
}.

Section App.
Context `{HostEnv}.

Definition saveEventsToStorage (evs : Store) (w : World) : World :=
  let text := JSON_stringify (store_to_js evs) in
  if setItem_accepts text
  then {| app := app w; item := Some text; trace := trace w ++ [ObsSetItem text] |}
  else observe [ObsSetItem text; ObsConsoleError "Error saving events to localStorage:"] w.

Definition loadEventsFromStorage (w : World) : jsval * World :=
  match item w with
  | None => (JObj [], w)
  | Some storedEvents =>
      if String.eqb storedEvents EmptyString then (JObj [], w)
      else match JSON_parse storedEvents with
           | Some v => (v, w)
           | None =>
               (JObj [], observe [ObsConsoleError "Error loading events from localStorage:"] w)
           end
  end.

(** [setEvents(newEvents)] with a fresh object, and the effect that
    follows the render: [useEffect(() => saveEventsToStorage(events), [events])].
    The effect is taken on the store as the handler set it; the render in
    between sorts the list of the selected day in place by start time when
    nothing is searched, which can change the order within that list. *)
Definition setEvents (newEvents : Store) (a : AppState) : AppState :=
  {| events := newEvents; selectedDate := selectedDate a;
     selectedEvent := selectedEvent a; isEventModalOpen := isEventModalOpen a;
     showAddEvent := showAddEvent a; searchQuery := searchQuery a;
     currentMonth := currentMonth a |}.

Definition setSelectedDate (d : option Date) (a : AppState) : AppState :=
  {| events := events a; selectedDate := d;
     selectedEvent := selectedEvent a; isEventModalOpen := isEventModalOpen a;
     showAddEvent := showAddEvent a; searchQuery := searchQuery a;
     currentMonth := currentMonth a |}.

Definition setSelectedEvent (e : option Event) (a : AppState) : AppState :=
  {| events := events a; selectedDate := selectedDate a;
     selectedEvent := e; isEventModalOpen := isEventModalOpen a;
     showAddEvent := showAddEvent a; searchQuery := searchQuery a;
     currentMonth := currentMonth a |}.

Definition setIsEventModalOpen (b : bool) (a : AppState) : AppState :=
  {| events := events a; selectedDate := selectedDate a;
     selectedEvent := selectedEvent a; isEventModalOpen := b;
     showAddEvent := showAddEvent a; searchQuery := searchQuery a;
     currentMonth := currentMonth a |}.

Definition setShowAddEvent (b : bool) (a : AppState) : AppState :=
  {| events := events a; selectedDate := selectedDate a;
     selectedEvent := selectedEvent a; isEventModalOpen := isEventModalOpen a;
     showAddEvent := b; searchQuery := searchQuery a;
     currentMonth := currentMonth a |}.

Definition useEffect_events (w : World) : World :=
  saveEventsToStorage (events (app w)) w.

Definition handleDaySelect (date : Date) (w : World) : World :=
  with_app (setShowAddEvent true (setSelectedDate (Some date) (app w))) w.

Definition handleEventClick (event : Event) (date : Date) (w : World) : World :=
  with_app (setIsEventModalOpen true
             (setSelectedEvent (Some event) (setSelectedDate (Some date) (app w)))) w.

Definition handleCloseEventModal (w : World) : World :=
  with_app (setSelectedEvent None (setIsEventModalOpen false (app w))) w.

(** The Add Event button: [onClick={() => setIsEventModalOpen(true)}]. *)
Definition clickAddEvent (w : World) : World :=
  with_app (setIsEventModalOpen true (app w)) w.

(** [selectedEvent?.id || Math.random().toString(36).substr(2, 9)]; [rnd]
    is the string the right-hand side gives. The empty string is falsy. *)
Definition newEventId (sel : option Event) (rnd : string) : string :=
  match sel with
  | Some e => if String.eqb (id e) EmptyString then rnd else id e
  | None => rnd
  end.

Definition hasOverlap (existingEvents : list Event) (newEvent : Event) : bool :=
  existsb (λ event, negb (String.eqb (id event) (id newEvent)) && hasTimeOverlap event newEvent)
          existingEvents.

Definition handleSaveEvent (eventData : EventData) (rnd : string) (w : World) : World :=
  match selectedDate (app w) with
  | None => w
  | Some d =>
      match dateKeyOf d with
      | None => throw RangeError w
      | Some dateKey =>
          let existingEvents := default [] (events (app w) !! dateKey) in
          let newEvent := with_id eventData (newEventId (selectedEvent (app w)) rnd) in
          if hasOverlap existingEvents newEvent then observe [ObsAlert overlap_message] w
          else
            let dayEvents :=
              match selectedEvent (app w) with
              | Some sel =>
                  map (λ event, if String.eqb (id event) (id sel) then newEvent else event)
                      existingEvents
              | None => existingEvents ++ [newEvent]
              end in
            let newEvents := <[dateKey := dayEvents]> (events (app w)) in
            useEffect_events
              (with_app (setIsEventModalOpen false
                          (setSelectedEvent None (setEvents newEvents (app w)))) w)
      end
  end.

Definition handleDeleteEvent (event : option Event) (w : World) : World :=
  match event, selectedDate (app w) with
  | Some ev, Some d =>
      match dateKeyOf d with
      | None => throw RangeError w
      | Some dateKey =>
          match events (app w) !! dateKey with
          | None => throw TypeError w
          | Some dayEvents =>
              let kept := filter (λ e, id e ≠ id ev) dayEvents in
              let newEvents := <[dateKey := kept]> (events (app w)) in
              let newEvents :=
                if (length kept =? 0)%nat then delete dateKey newEvents else newEvents in
              useEffect_events
                (saveEventsToStorage newEvents
                  (with_app (setIsEventModalOpen false (setEvents newEvents (app w))) w))
          end
      end
  | _, _ => w
  end.

(** The two [splice] calls change the arrays of [events] in place; the
    lists of the state before are not read again, so that the lists after
    are all that matters. [None]: the source index is past the end of the
    source list, so that [movedEvent] is [undefined] and an [undefined] is
    stored among the events, which is no [Event[]] any more. *)
Definition handleEventDragEnd (result : DropResult) (w : World) : option World :=
  match destination result with
  | None => Some w
  | Some dest =>
      let sourceDate := droppableId (source result) in
      let destinationDate := droppableId dest in
      let eventIndex := index (source result) in
      if bool_decide (sourceDate = destinationDate)
         && (index (source result) =? index dest)%nat
      then Some w
      else
        match events (app w) !! sourceDate with
        | None => Some (throw TypeError w)
        | Some sourceEvents =>
            let '(remaining, removed) := splice eventIndex 1 [] sourceEvents in
            match removed with
            | [] => None
            | movedEvent :: _ =>
                let newEvents := <[sourceDate := remaining]> (events (app w)) in
                let newEvents :=
                  match newEvents !! destinationDate with
                  | None => <[destinationDate := []]> newEvents
                  | Some _ => newEvents
                  end in
                let destinationEvents := default [] (newEvents !! destinationDate) in
                let newEvents :=
                  <[destinationDate := (splice (index dest) 0 [movedEvent] destinationEvents).1]>
                    newEvents in
                Some (useEffect_events
                        (saveEventsToStorage newEvents
                          (with_app (setEvents newEvents (app w)) w)))
            end
        end
  end.
End App.

(** ** Export to CSV *)

Definition headers : list string :=
  ["id"; "title"; "startTime"; "endTime"; "description"; "category"].

(** [event[header]], or the empty string when that is missing or empty. *)
Definition Event_field (event : Event) (header : string) : string :=
  if String.eqb header "id" then id event
  else if String.eqb header "title" then title event
  else if String.eqb header "startTime" then startTime event
  else if String.eqb header "endTime" then endTime event
  else if String.eqb header "description" then default EmptyString (description event)
  else if String.eqb header "category" then Category_name (category event)
  else if String.eqb header "color" then default EmptyString (color event)
  else EmptyString.

(** [value.replace] that writes every double quote twice. *)
Fixpoint replace_quotes (value : string) : string :=
  match value with
  | EmptyString => EmptyString
  | String c r =>
      if Ascii.eqb c DQUOTE then String DQUOTE (String DQUOTE (replace_quotes r))
      else String c (replace_quotes r)
  end.

Definition csv_cell (value : string) : string :=
  String DQUOTE (replace_quotes value +:+ String DQUOTE EmptyString).

Definition csv_row (event : Event) : string :=
  join "," (map (λ header, csv_cell (Event_field event header)) headers).

Definition csvContent (currentMonthEvents : list Event) : string :=
  join (String LF EmptyString) (join "," headers :: map csv_row currentMonthEvents).

Inductive ExportResult :=
| Downloaded (filename content : string)
| Threw (e : Exn)
| Unfinished.

Section CsvExport.
Context `{HostEnv}.

(** The loop [for (d = new Date(firstDay); d <= lastDay; d.setDate(d.getDate() + 1))],
    run for at most [fuel] rounds; [None] when the rounds do not suffice. *)
Fixpoint collect_month (fuel : nat) (evs : Store) (d lastDay : Date)
    (currentMonthEvents : list Event) : option (Exn + list Event) :=
  match fuel with
  | O => None
  | S f =>
      if num_le d lastDay then
        match dateKeyOf d with
        | None => Some (inl RangeError)
        | Some dateKey =>
            collect_month f evs (setDate d (num_add (getDate d) (Some 1))) lastDay
              (match evs !! dateKey with
               | Some dayEvents => currentMonthEvents ++ dayEvents
               | None => currentMonthEvents
               end)
        end
      else Some (inr currentMonthEvents)
  end.

(** [handleExportEvents] for the csv format: the name and the text of the file
    offered for download. A month has at most 31 days. *)
Definition handleExportEvents_csv (w : World) : ExportResult :=
  let month := currentMonth (app w) in
  let firstDay := Date_ymd (getFullYear month) (getMonth month) (Some 1) in
  let lastDay := Date_ymd (getFullYear month) (num_add (getMonth month) (Some 1)) (Some 0) in
  match collect_month 32 (events (app w)) firstDay lastDay [] with
  | None => Unfinished
  | Some (inl e) => Threw e
  | Some (inr currentMonthEvents) =>
      match toISOString month with
      | None => Threw RangeError
      | Some iso =>
          Downloaded ("events-" +:+ String.substring 0 7 iso +:+ ".csv")
                     (csvContent currentMonthEvents)
      end
  end.
End CsvExport.

(** ** The month grid ([Calendar.tsx]) *)

Section Grid.
Context `{HostEnv}.

(** The loop [for (i = 0; i < daysToShow; i++)] with [n] rounds to go. *)
Fixpoint push_days (n : nat) (firstDay : Date) : list Date :=
  match n with
  | O => []
  | S k => firstDay :: push_days k (setDate firstDay (num_add (getDate firstDay) (Some 1)))
  end.

(** How often [i < daysToShow] holds for [i = 0, 1, ...]. *)
Definition rounds (daysToShow : num) : nat :=
  match daysToShow with Some z => Z.to_nat z | None => O end.

Definition getDaysInMonth (date : Date) : list Date :=
  let firstDayOfMonth := Date_ymd (getFullYear date) (getMonth date) (Some 1) in
  let lastDayOfMonth :=
    Date_ymd (getFullYear date) (num_add (getMonth date) (Some 1)) (Some 0) in
  let startingDayIndex := getDay firstDayOfMonth in
  let daysInMonth := getDate lastDayOfMonth in
  let firstDay := setDate firstDayOfMonth (num_sub (Some 1) startingDayIndex) in
  let totalDays := num_add startingDayIndex daysInMonth in
  let numberOfWeeks := Math_ceil_div7 totalDays in
  let daysToShow := num_mul numberOfWeeks (Some 7) in
  push_days (rounds daysToShow) firstDay.
End Grid.

(** ** Notions of the specification *)

(** The specification's time of day: a well-formed one is two digits, a
    colon and two digits, the hour below 24 and the minute below 60; it is
    compared as the minute of the day. *)
Definition clock_minutes (s : string) : option Z :=
  match s with
  | String a (String b (String ":" (String c (String d EmptyString)))) =>
      match Ascii.is_nat a, Ascii.is_nat b, Ascii.is_nat c, Ascii.is_nat d with
      | Some h1, Some h2, Some m1, Some m2 =>
          let h := (10 * h1 + h2)%nat in
          let m := (10 * m1 + m2)%nat in
          if bool_decide (h < 24)%nat && bool_decide (m < 60)%nat
          then Some (Z.of_nat (60 * h + m))
          else None
      | _, _, _, _ => None
      end
  | _ => None
  end.

(** The number of days of month [m] (0 for January to 11 for December) of
    year [y], from the calendar rather than from [Date] arithmetic. *)
Definition DaysInMonth (y m : Z) : Z :=
  match m with
  | 1 => 28 + ES.leap y
  | 3 | 5 | 8 | 10 => 30
  | _ => 31
  end.

(** The time value of local midnight on day [D] (days since the epoch). *)
Definition local_midnight `{HostEnv} (D : Z) : Z := D * ES.msPerDay - localTZA.

(** The specification's invariant of the store: no day key maps to an
    empty list. *)
Definition no_empty_day (m : Store) : Prop := ∀ k l, m !! k = Some l → l ≠ [].

(** How many events of a list carry the identifier [i]. *)
Definition count_id (i : string) (l : list Event) : nat :=
  length (filter (λ e, id e = i) l).

(** The events stored under the key of [d], which is the date of [d] in
    UTC: for a local midnight ahead of UTC, the date of the day before. *)
Definition events_on (evs : Store) (d : Date) : list Event :=
  default [] (dateKeyOf d ≫= λ k, evs !! k).

(** The dates that the export loop walks through on a host with one
    offset, in closed form: from [new Date(y, m, 1)] to [new Date(y, m + 1, 0)],
    one day apart, with the year and the month of [month] (a year 0..99 is
    read by the constructor as the year 1900 later). *)
Definition month_days `{HostEnv} (month : Date) : list Date :=
  match Date_ymd (getFullYear month) (getMonth month) (Some 1),
        Date_ymd (getFullYear month) (num_add (getMonth month) (Some 1)) (Some 0) with
  | Some a, Some b =>
      map (λ i : nat, Some (a + Z.of_nat i * ES.msPerDay))
          (seq 0 (Z.to_nat ((b - a) / ES.msPerDay + 1)))
  | _, _ => []
  end.

Fixpoint has_char (c : ascii) (s : string) : bool :=
  match s with
  | EmptyString => false
  | String x r => Ascii.eqb x c || has_char c r
  end.

(** [s.split(sep)] for a separator of one character. *)
Fixpoint split_on (sep : ascii) (s : string) : list string :=
  match s with
  | EmptyString => [EmptyString]
  | String c r =>
      if Ascii.eqb c sep then EmptyString :: split_on sep r
      else match split_on sep r with
           | x :: xs => String c x :: xs
           | [] => [String c EmptyString]
           end
  end.




(** The values whose text [JSON.parse] reads back: no number inside, and no
    object with a key twice (no JavaScript object has one). *)
Fixpoint plain_json (v : jsval) : Prop :=
  match v with
  | JNull | JBool _ | JStr _ => True
  | JNum _ => False
  | JArr items => (fix all (l : list jsval) : Prop :=
                     match l with [] => True | x :: r => plain_json x ∧ all r end) items
  | JObj props => NoDup (map fst props) ∧
                  (fix all (l : list (string * jsval)) : Prop :=
                     match l with [] => True | kv :: r => plain_json kv.2 ∧ all r end) props
  end.

(** A bound on the nesting of calls that parsing the text of [v] takes. *)
Fixpoint weight (v : jsval) : nat :=
  match v with
  | JArr items => S (list_sum (map (λ x, S (weight x)) items))
  | JObj props => S (list_sum (map (λ kv : string * jsval, S (weight kv.2)) props))
  | _ => 1
  end.

(** The text of [v] followed by anything is read back as [v], by a parser
    with [weight v] rounds or more. *)
Definition parses_back (v : jsval) : Prop :=
  plain_json v → ∀ (fuel : nat) (rest : string), (weight v ≤ fuel)%nat →
  parse_value fuel (JSON_stringify v +:+ rest) = Some (v, rest).

(** ** The rest of the calendar component *)

(** Strict equality and inequality of Numbers: [NaN] equals nothing, not
    even itself. *)
Definition num_eq (a b : num) : bool :=
  match a, b with Some x, Some y => x =? y | _, _ => false end.
Definition num_neq (a b : num) : bool := negb (num_eq a b).

(** [c.toLowerCase()] on a code unit below 256: the letters A to Z and the
    capital letters of Latin-1 (192 to 222, the multiplication sign 215
    apart) move up by 32. *)
Definition lower_char (c : ascii) : ascii :=
  let n := code c in
  if ((65 <=? n) && (n <=? 90)) || ((192 <=? n) && (n <=? 222) && negb (n =? 215))
  then char_of (n + 32) else c.

Fixpoint toLowerCase (s : string) : string :=
  match s with
  | EmptyString => EmptyString
  | String c r => String (lower_char c) (toLowerCase r)
  end.

(** [s.includes(q)]: [q] occurs in [s]. *)
Fixpoint includes (s q : string) : bool :=
  match strip_prefix q s with
  | Some _ => true
  | None => match s with
            | EmptyString => false
            | String _ r => includes r q
            end
  end.

(** [getFilteredEvents], the same in both components; the empty query is
    falsy. *)
Definition getFilteredEvents (searchQuery : string) (dateEvents : list Event) : list Event :=
  if String.eqb searchQuery EmptyString then dateEvents
  else
    let query := toLowerCase searchQuery in
    List.filter (λ event, includes (toLowerCase (title event)) query
                          || includes (toLowerCase (default EmptyString (description event))) query)
                dateEvents.

(** What a day cell offers for dragging: [dayEvents.slice(0, 2)], each event
    with its position there as the index of its [Draggable]. *)
Definition draggables (searchQuery : string) (dateEvents : list Event) : list Event :=
  take 2 (getFilteredEvents searchQuery dateEvents).

Definition setCurrentMonth (d : Date) (a : AppState) : AppState :=
  {| events := events a; selectedDate := selectedDate a;
     selectedEvent := selectedEvent a; isEventModalOpen := isEventModalOpen a;
     showAddEvent := showAddEvent a; searchQuery := searchQuery a;
     currentMonth := d |}.

Section Navigation.
Context `{HostEnv}.

Definition isCurrentMonth (currentMonth date : Date) : bool :=
  num_eq (getMonth date) (getMonth currentMonth).

(** [isToday], with [today] for the [new Date()] it takes. *)
Definition isToday (today date : Date) : bool :=
  num_eq (getDate date) (getDate today)
  && num_eq (getMonth date) (getMonth today)
  && num_eq (getFullYear date) (getFullYear today).


(** [isSelected]: [null] without a selection, which is falsy. *)
Definition isSelected (selectedDate : option Date) (date : Date) : bool :=
  match selectedDate with
  | None => false
  | Some sel =>
      num_eq (getDate date) (getDate sel)
      && num_eq (getMonth date) (getMonth sel)
      && num_eq (getFullYear date) (getFullYear sel)
  end.

Definition handleMonthChange (date : Date) (w : World) : World :=
  let a := setCurrentMonth date (app w) in
  match selectedDate (app w) with
  | Some sel =>
      if num_neq (getMonth sel) (getMonth date)
         || num_neq (getFullYear sel) (getFullYear date)
      then with_app (setShowAddEvent false (setSelectedDate None a)) w
      else with_app a w
  | None => with_app a w
  end.

(** The component gets [currentMonth] and [handleMonthChange] from the
    application. *)
Definition handlePrevMonth (w : World) : World :=
  let month := currentMonth (app w) in
  handleMonthChange (Date_ymd (getFullYear month) (num_sub (getMonth month) (Some 1)) (Some 1)) w.

Definition handleNextMonth (w : World) : World :=
  let month := currentMonth (app w) in
  handleMonthChange (Date_ymd (getFullYear month) (num_add (getMonth month) (Some 1)) (Some 1)) w.
End Navigation.

(** ** Export to JSON *)

Definition gap : string := "  ".

(** [JSON.stringify(v, null, 2)] below the indentation [indent]: an empty
    array or object stays closed; otherwise every member goes on a line of
    its own, two spaces further in, and a colon is followed by a space. *)
Fixpoint stringify_indent (indent : string) (v : jsval) : string :=
  let stepin := indent +:+ gap in
  let nl := String LF stepin in
  match v with
  | JArr [] => "[]"
  | JArr items =>
      "[" +:+ nl +:+ join ("," +:+ nl) (map (stringify_indent stepin) items)
      +:+ String LF indent +:+ "]"
  | JObj [] => "{}"
  | JObj props =>
      "{" +:+ nl
      +:+ join ("," +:+ nl)
            (map (λ kv, match kv with
                        | (k, x) => QuoteJSONString k +:+ ": " +:+ stringify_indent stepin x
                        end) props)
      +:+ String LF indent +:+ "}"
  | _ => JSON_stringify v
  end.

Section JsonExport.
Context `{HostEnv}.

(** [handleExportEvents] for the json format. *)
Definition handleExportEvents_json (w : World) : ExportResult :=
  let month := currentMonth (app w) in
  let firstDay := Date_ymd (getFullYear month) (getMonth month) (Some 1) in
  let lastDay := Date_ymd (getFullYear month) (num_add (getMonth month) (Some 1)) (Some 0) in
  match collect_month 32 (events (app w)) firstDay lastDay [] with
  | None => Unfinished
  | Some (inl e) => Threw e
  | Some (inr currentMonthEvents) =>
      match toISOString month with
      | None => Threw RangeError
      | Some iso =>
          Downloaded ("events-" +:+ String.substring 0 7 iso +:+ ".json")
                     (stringify_indent EmptyString (JArr (map Event_to_js currentMonthEvents)))
      end
  end.
End JsonExport.

(** ** Invariants of the store *)

(** No two events of a list with different identifiers overlap, as
    [hasTimeOverlap] sees it. *)
Definition overlap_free `{HostEnv} (l : list Event) : Prop :=
  ∀ a b, a ∈ l → b ∈ l → id a ≠ id b → hasTimeOverlap a b = false.

(** What is stored reads back as the events of the state. *)
Definition in_sync `{HostEnv} (w : World) : Prop :=
  events_of_js (loadEventsFromStorage w).1 = Some (events (app w)).

(** How many events of the whole store carry the identifier [i]. *)
Definition store_count (i : string) (m : Store) : nat :=
  list_sum (map (λ kv : string * list Event, count_id i kv.2) (map_to_list m)).

(** [q] occurs in [s] as a run of consecutive characters. *)
Definition occurs (q s : string) : Prop := ∃ a b, s = a +:+ q +:+ b.

(** The text of a day key: the year as [toISOString] writes it, the month
    counted from 1 and the day of the month. *)
Definition iso_year (y : Z) : string :=
  if (0 <=? y) && (y <=? 9999) then pad_digits 4 y
  else (if y <? 0 then "-" else "+") +:+ pad_digits 6 (Z.abs y).

Definition key_text (y m dt : Z) : string :=
  iso_year y +:+ "-" +:+ pad_digits 2 (m + 1) +:+ "-" +:+ pad_digits 2 dt.

(** ** Hosts whose clocks change

    [HostEnv] has one offset from UTC for all times. Where clocks are put
    forward and back the offset depends on the time: ECMA-262 has it as
    [LocalTZA(t, isUTC)], the offset in force at the UTC time [t] when
    [isUTC] holds, and the offset by which the local time [t] is read
    otherwise (a local time that a change of clocks skips or repeats is read
    with the offset before the change). The grid and the export are given
    here once more over such a host; the events, the state and the texts are
    those above. *)
Class ZoneEnv := {
  LocalTZA : Z → bool → Z;
  LocalTZA_bound : ∀ t isUTC, Z.abs (LocalTZA t isUTC) < 86400000;
}.

Module Zoned.
Section Dates.
Context `{ZoneEnv}.

Definition LocalTime (t : Z) : Z := t + LocalTZA t true.
Definition UTC (t : Z) : Z := t - LocalTZA t false.

(** [new Date(year, month, date)]: a year in 0..99 means 1900 + year. *)
Definition Date_ymd (year month date : num) : Date :=
  y ← year; m ← month; dt ← date;
  let yr := if (0 <=? y) && (y <=? 99) then 1900 + y else y in
  ES.TimeClip (UTC (ES.MakeDate (ES.MakeDay yr m dt) (ES.MakeTime 0 0 0 0))).

Definition getFullYear (d : Date) : num := t ← d; Some (ES.YearFromTime (LocalTime t)).
Definition getMonth (d : Date) : num := t ← d; Some (ES.MonthFromTime (LocalTime t)).
Definition getDate (d : Date) : num := t ← d; Some (ES.DateFromTime (LocalTime t)).
Definition getDay (d : Date) : num := t ← d; Some (ES.WeekDay (LocalTime t)).

Definition setDate (d : Date) (date : num) : Date :=
  t ← d; dt ← date;
  let lt := LocalTime t in
  ES.TimeClip (UTC (ES.MakeDate
    (ES.MakeDay (ES.YearFromTime lt) (ES.MonthFromTime lt) dt) (ES.TimeWithinDay lt))).

(** The loop [for (i = 0; i < daysToShow; i++)] with [n] rounds to go. *)
Fixpoint push_days (n : nat) (firstDay : Date) : list Date :=
  match n with
  | O => []
  | S k => firstDay :: push_days k (setDate firstDay (num_add (getDate firstDay) (Some 1)))
  end.

Definition getDaysInMonth (date : Date) : list Date :=
  let firstDayOfMonth := Date_ymd (getFullYear date) (getMonth date) (Some 1) in
  let lastDayOfMonth :=
    Date_ymd (getFullYear date) (num_add (getMonth date) (Some 1)) (Some 0) in
  let startingDayIndex := getDay firstDayOfMonth in
  let daysInMonth := getDate lastDayOfMonth in
  let firstDay := setDate firstDayOfMonth (num_sub (Some 1) startingDayIndex) in
  let totalDays := num_add startingDayIndex daysInMonth in
  let numberOfWeeks := Math_ceil_div7 totalDays in
  let daysToShow := num_mul numberOfWeeks (Some 7) in
  push_days (rounds daysToShow) firstDay.

Definition isCurrentMonth (currentMonth date : Date) : bool :=
  num_eq (getMonth date) (getMonth currentMonth).

(** The loop [for (d = new Date(firstDay); d <= lastDay; d.setDate(d.getDate() + 1))],
    run for at most [fuel] rounds; [None] when the rounds do not suffice. *)
Fixpoint collect_month (fuel : nat) (evs : Store) (d lastDay : Date)
    (currentMonthEvents : list Event) : option (Exn + list Event) :=
  match fuel with
  | O => None
  | S f =>
      if num_le d lastDay then
        match dateKeyOf d with
        | None => Some (inl RangeError)
        | Some dateKey =>
            collect_month f evs (setDate d (num_add (getDate d) (Some 1))) lastDay
              (match evs !! dateKey with
               | Some dayEvents => currentMonthEvents ++ dayEvents
               | None => currentMonthEvents
               end)
        end
      else Some (inr currentMonthEvents)
  end.

(** [handleExportEvents]: the name and the text of the file offered for
    download, for the csv and for the json format. *)
Definition handleExportEvents_csv (w : World) : ExportResult :=
  let month := currentMonth (app w) in
  let firstDay := Date_ymd (getFullYear month) (getMonth month) (Some 1) in
  let lastDay := Date_ymd (getFullYear month) (num_add (getMonth month) (Some 1)) (Some 0) in
  match collect_month 32 (events (app w)) firstDay lastDay [] with
  | None => Unfinished
  | Some (inl e) => Threw e
  | Some (inr currentMonthEvents) =>
      match toISOString month with
      | None => Threw RangeError
      | Some iso =>
          Downloaded ("events-" +:+ String.substring 0 7 iso +:+ ".csv")
                     (csvContent currentMonthEvents)
      end
  end.

Definition handleExportEvents_json (w : World) : ExportResult :=
  let month := currentMonth (app w) in
  let firstDay := Date_ymd (getFullYear month) (getMonth month) (Some 1) in
  let lastDay := Date_ymd (getFullYear month) (num_add (getMonth month) (Some 1)) (Some 0) in
  match collect_month 32 (events (app w)) firstDay lastDay [] with
  | None => Unfinished
  | Some (inl e) => Threw e
  | Some (inr currentMonthEvents) =>
      match toISOString month with
      | None => Threw RangeError
      | Some iso =>
          Downloaded ("events-" +:+ String.substring 0 7 iso +:+ ".json")
                     (stringify_indent EmptyString (JArr (map Event_to_js currentMonthEvents)))
      end
  end.
End Dates.
End Zoned.

(** The host with the offset [c] at all times, as a [HostEnv]. *)
Definition host_of_offset (c : Z) (Hc : Z.abs c < 86400000) : HostEnv :=
  {| localTZA := c;
     localTZA_bound := Hc;
     Date_parse_other := λ _, None;
     setItem_accepts := λ _, true |}.

(** The events stored under the keys of [len] days of month [m] (0 for
    January) of year [y], from day [a] on, day after day. *)
Definition events_of_days (evs : Store) (y m : Z) (a len : nat) : list Event :=
  flat_map (λ d : nat, default [] (evs !! key_text y m (Z.of_nat d))) (seq a len).

(** What the export of month [m] of year [y] holds on a host whose offset
    from UTC is [c] at all times. At or behind UTC: the events under the keys
    of the days of the month. Ahead of UTC every key is the date of the day
    before: the events under the key of the last day of the month before,
    then those under the keys of the days of the month but the last. *)
Definition exported_events (c : Z) (evs : Store) (y m : Z) : list Event :=
  if 0 <? c
  then events_of_days evs (y + (m - 1) / 12) ((m - 1) mod 12)
         (Z.to_nat (DaysInMonth (y + (m - 1) / 12) ((m - 1) mod 12))) 1
       ++ events_of_days evs y m 1 (Z.to_nat (DaysInMonth y m) - 1)
  else events_of_days evs y m 1 (Z.to_nat (DaysInMonth y m)).

(** ** Sample hosts and data *)

(** A host on UTC whose storage takes every write. *)
Definition utc_host : HostEnv :=
  {| localTZA := 0;
     localTZA_bound := eq_refl;
     Date_parse_other := λ _, None;
     setItem_accepts := λ _, true |}.

(** A host five and a half hours ahead of UTC whose storage refuses every
    write (no quota left, or storage switched off). *)
Definition full_host : HostEnv :=
  {| localTZA := 19800000;
     localTZA_bound := eq_refl;
     Date_parse_other := λ _, None;
     setItem_accepts := λ _, false |}.

Definition sample_event (i st en : string) : Event :=
  {| id := i; title := "Meeting"; startTime := st; endTime := en;
     description := None; category := work; color := None |}.

Definition sample_data (st en : string) : EventData :=
  {| data_title := "Review"; data_startTime := st; data_endTime := en;
     data_description := None; data_category := work; data_color := None |}.

(** Local midnight of 10 March 2024 on [utc_host]. *)
Definition march_10 : Date := Some 1710028800000.

Definition sample_app (m : Store) (sel : option Event) : AppState :=
  {| events := m; selectedDate := Some march_10; selectedEvent := sel;
     isEventModalOpen := true; showAddEvent := true;
     searchQuery := EmptyString; currentMonth := march_10 |}.

Definition sample_world (m : Store) (sel : option Event) : World :=
  {| app := sample_app m sel; item := None; trace := [] |}.

(** The day of the specification's example: one event from 08:00 to 09:00. *)
Definition morning_store : Store := {[ "2024-03-10" := [sample_event "ev1" "08:00" "09:00"] ]}.

(** Two days whose events overlap in time: 08:00-09:00 and 08:30-09:30. *)
Definition two_day_store : Store :=
  {[ "2024-03-10" := [sample_event "ev1" "08:00" "09:00"];
     "2024-03-11" := [sample_event "ev2" "08:30" "09:30"] ]}.

(** An event that is selected although it is on no day any more. *)
Definition gone_event : Event := sample_event "gone" "07:00" "07:30".

(** 15 December of the year 99, at midnight UTC. *)
Definition december_99 : Date := Some (ES.MakeDay 99 11 15 * ES.msPerDay).

(** An event whose description has two lines. *)
Definition multiline_event : Event :=
  {| id := "ev3"; title := "Notes"; startTime := "10:00"; endTime := "11:00";
     description := Some ("first line" +:+ String LF "second line");
     category := personal; color := None |}.

Definition multiline_store : Store :=
  {[ "2024-03-10" := [sample_event "ev1" "08:00" "09:00"; multiline_event] ]}.

(** A host on UTC at all times, and one five and a half hours ahead. *)
Definition utc_zone : ZoneEnv :=
  {| LocalTZA := λ _ _, 0; LocalTZA_bound := λ _ _, eq_refl |}.

Definition ahead_zone : ZoneEnv :=
  {| LocalTZA := λ _ _, 19800000; LocalTZA_bound := λ _ _, eq_refl |}.

(** Clocks as in Havana in March 2024: five hours behind UTC until local
    midnight of 10 March (05:00 UTC), when they are put forward to 01:00,
    four hours behind from then on. *)
Definition LocalTZA_havana (t : Z) (isUTC : bool) : Z :=
  if isUTC
  then if t <? 1710046800000 then -18000000 else -14400000
  else if t <? 1710032400000 then -18000000 else -14400000.

Lemma LocalTZA_havana_bound (t : Z) (isUTC : bool) :
  Z.abs (LocalTZA_havana t isUTC) < 86400000.
Proof. unfold LocalTZA_havana. by repeat case_match. Qed.

Definition havana_zone : ZoneEnv :=
  {| LocalTZA := LocalTZA_havana; LocalTZA_bound := LocalTZA_havana_bound |}.

(** Clocks as in London in March 2024: on UTC until 01:00 of 31 March, when
    they are put forward to 02:00, one hour ahead from then on. *)
Definition LocalTZA_london (t : Z) (isUTC : bool) : Z :=
  if isUTC
  then if t <? 1711846800000 then 0 else 3600000
  else if t <? 1711850400000 then 0 else 3600000.

Lemma LocalTZA_london_bound (t : Z) (isUTC : bool) :
  Z.abs (LocalTZA_london t isUTC) < 86400000.
Proof. unfold LocalTZA_london. by repeat case_match. Qed.

Definition london_zone : ZoneEnv :=
  {| LocalTZA := LocalTZA_london; LocalTZA_bound := LocalTZA_london_bound |}.

(** Events on the last two days of March 2024. *)
Definition end_of_march_store : Store :=
  {[ "2024-03-30" := [sample_event "ev1" "08:00" "09:00"];
     "2024-03-31" := [sample_event "ev2" "08:30" "09:30"] ]}.

(** * Proofs *)

(** Linear arithmetic with floor division and remainder by constants. *)
Ltac div_lia := Z.to_euclidean_division_equations; lia.

Ltac case_bool_tests :=
  repeat match goal with
         | |- context [Z.eqb ?a ?b] => destruct (Z.eqb_spec a b)
         | |- context [Z.ltb ?a ?b] => destruct (Z.ltb_spec a b)
         | |- context [Z.leb ?a ?b] => destruct (Z.leb_spec a b)
         end.

Lemma DayFromYear_succ y : ES.DayFromYear (y + 1) = ES.DayFromYear y + ES.DaysInYear y.
Proof.
  unfold ES.DayFromYear, ES.DaysInYear.
  case_bool_tests; simpl negb; cbv iota; div_lia.
Qed.

Lemma YearFromDay_spec d :
  ES.DayFromYear (ES.YearFromDay d) <= d < ES.DayFromYear (ES.YearFromDay d + 1).
Proof.
  unfold ES.YearFromDay, ES.DayFromYear.
  cbv zeta. case_bool_tests; div_lia.
Qed.

(** ** Days, months and years *)

Lemma DayFromYear_mono y1 y2 : y1 <= y2 → ES.DayFromYear y1 <= ES.DayFromYear y2.
Proof. unfold ES.DayFromYear. intros. div_lia. Qed.

Lemma DayFromYear_lt y1 y2 : y1 < y2 → ES.DayFromYear y1 + 365 <= ES.DayFromYear y2.
Proof. unfold ES.DayFromYear. intros. div_lia. Qed.

Lemma YearFromDay_unique D y :
  ES.DayFromYear y <= D < ES.DayFromYear (y + 1) → ES.YearFromDay D = y.
Proof.
  intros Hy. pose proof (YearFromDay_spec D) as Hs.
  destruct (Z.lt_trichotomy (ES.YearFromDay D) y) as [Hlt|[Heq|Hgt]]; [|done|].
  - assert (ES.DayFromYear (ES.YearFromDay D + 1) <= ES.DayFromYear y)
      by (apply DayFromYear_mono; lia). lia.
  - assert (ES.DayFromYear (y + 1) <= ES.DayFromYear (ES.YearFromDay D))
      by (apply DayFromYear_mono; lia). lia.
Qed.

Lemma DaysInYear_cases y : ES.DaysInYear y = 365 + ES.leap y ∧ (ES.leap y = 0 ∨ ES.leap y = 1).
Proof.
  unfold ES.leap, ES.DaysInYear.
  destruct (y mod 4 =? 0), (y mod 100 =? 0), (y mod 400 =? 0); simpl; lia.
Qed.

Ltac month_cases m :=
  assert (m = 0 ∨ m = 1 ∨ m = 2 ∨ m = 3 ∨ m = 4 ∨ m = 5 ∨ m = 6 ∨ m = 7 ∨ m = 8
          ∨ m = 9 ∨ m = 10 ∨ m = 11)
    as [->|[->|[->|[->|[->|[->|[->|[->|[->|[->|[->| ->]]]]]]]]]]] by lia.

Lemma MakeDay_in_year y m dt :
  0 <= m <= 11 →
  ES.MakeDay y m dt = ES.DayFromYear y + ES.monthStart (ES.leap y) m + dt - 1.
Proof.
  intros Hm. unfold ES.MakeDay. cbv zeta.
  rewrite Z.div_small, Z.mod_small, Z.add_0_r by lia. done.
Qed.

Lemma MonthFromTime_range t : 0 <= ES.MonthFromTime t <= 11.
Proof. unfold ES.MonthFromTime. cbv zeta. case_bool_tests; lia. Qed.

Lemma MakeDay_fields t dt :
  ES.MakeDay (ES.YearFromTime t) (ES.MonthFromTime t) dt = ES.Day t + dt - ES.DateFromTime t.
Proof.
  rewrite MakeDay_in_year by apply MonthFromTime_range.
  unfold ES.DateFromTime, ES.MonthFromTime, ES.InLeapYear, ES.DayWithinYear.
  cbv zeta. case_bool_tests; cbn [ES.monthStart]; lia.
Qed.

Lemma YearFromDay_in_year y k :
  0 <= k < ES.DaysInYear y → ES.YearFromDay (ES.DayFromYear y + k) = y.
Proof.
  intros Hk. apply YearFromDay_unique. rewrite DayFromYear_succ. lia.
Qed.

Lemma monthStart_bounds y m dt :
  0 <= m <= 11 → 1 <= dt <= DaysInMonth y m →
  0 <= ES.monthStart (ES.leap y) m + dt - 1 < ES.DaysInYear y.
Proof.
  intros Hm Hdt. destruct (DaysInYear_cases y) as [-> HL].
  month_cases m; cbn [ES.monthStart DaysInMonth] in *; lia.
Qed.

Lemma fields_of_MakeDay y m dt tw :
  0 <= m <= 11 → 1 <= dt <= DaysInMonth y m → 0 <= tw < ES.msPerDay →
  let t := ES.MakeDate (ES.MakeDay y m dt) tw in
  ES.Day t = ES.MakeDay y m dt ∧ ES.TimeWithinDay t = tw ∧
  ES.YearFromTime t = y ∧ ES.MonthFromTime t = m ∧ ES.DateFromTime t = dt.
Proof.
  intros Hm Hdt Htw t.
  assert (ES.Day t = ES.MakeDay y m dt) as HD.
  { unfold t, ES.Day, ES.MakeDate, ES.msPerDay in *. div_lia. }
  assert (ES.TimeWithinDay t = tw) as HT.
  { unfold t, ES.TimeWithinDay, ES.MakeDate, ES.msPerDay in *. div_lia. }
  pose proof (monthStart_bounds y m dt Hm Hdt) as Hb.
  assert (ES.YearFromTime t = y) as HY.
  { unfold ES.YearFromTime. rewrite HD, MakeDay_in_year by done.
    replace (ES.DayFromYear y + ES.monthStart (ES.leap y) m + dt - 1)
      with (ES.DayFromYear y + (ES.monthStart (ES.leap y) m + dt - 1)) by lia.
    by apply YearFromDay_in_year. }
  assert (ES.DayWithinYear t = ES.monthStart (ES.leap y) m + dt - 1) as HW.
  { unfold ES.DayWithinYear. rewrite HY, HD, MakeDay_in_year by done. lia. }
  assert (ES.MonthFromTime t = m) as HM.
  { unfold ES.MonthFromTime, ES.InLeapYear. rewrite HW, HY. cbv zeta.
    destruct (DaysInYear_cases y) as [_ HL].
    month_cases m;
      cbn [ES.monthStart DaysInMonth] in *; case_bool_tests; lia. }
  split_and!; try done.
  unfold ES.DateFromTime, ES.InLeapYear. rewrite HM, HW, HY. cbv zeta.
  month_cases m; cbn [ES.monthStart]; lia.
Qed.

Lemma MakeDay_next_month y m :
  0 ≤ m ≤ 11 → ES.MakeDay y (m + 1) 0 = ES.MakeDay y m (DaysInMonth y m).
Proof.
  intros Hm. rewrite (MakeDay_in_year y m) by done.
  destruct (decide (m = 11)) as [->|Hne].
  - unfold ES.MakeDay. change ((11 + 1) / 12) with 1. change ((11 + 1) mod 12) with 0.
    cbv zeta. rewrite DayFromYear_succ. destruct (DaysInYear_cases y) as [-> _].
    cbn [ES.monthStart DaysInMonth]. lia.
  - rewrite MakeDay_in_year by lia.
    destruct (DaysInYear_cases y) as [_ HL].
    month_cases m; try lia;
      match goal with
      | |- context [ES.monthStart _ (?a + 1)] =>
          let v := eval vm_compute in (a + 1) in change (a + 1) with v
      end; cbn [ES.monthStart DaysInMonth]; lia.
Qed.

Lemma DaysInMonth_range y m : 28 ≤ DaysInMonth y m ≤ 31.
Proof.
  destruct (DaysInYear_cases y) as [_ HL]. unfold DaysInMonth.
  repeat case_match; lia.
Qed.

Lemma Day_whole D : ES.Day (D * ES.msPerDay) = D ∧ ES.TimeWithinDay (D * ES.msPerDay) = 0.
Proof. unfold ES.Day, ES.TimeWithinDay, ES.msPerDay. split; div_lia. Qed.

Lemma DayFromYear_range y :
  -271820 ≤ y ≤ 275759 → -99999744 ≤ ES.DayFromYear y ∧ ES.DayFromYear (y + 1) ≤ 99999744.
Proof.
  intros Hy. split.
  - change (-99999744) with (ES.DayFromYear (-271820)). apply DayFromYear_mono. lia.
  - change 99999744 with (ES.DayFromYear 275760). apply DayFromYear_mono. lia.
Qed.

Section DateProofs.
Context `{HostEnv}.

Lemma LocalTime_local_midnight D : ES.LocalTime (local_midnight D) = D * ES.msPerDay.
Proof. unfold ES.LocalTime, local_midnight. lia. Qed.

Lemma TimeClip_local_midnight D :
  -99999999 ≤ D ≤ 99999999 → ES.TimeClip (local_midnight D) = Some (local_midnight D).
Proof.
  intros HD. unfold ES.TimeClip, local_midnight, ES.msPerDay.
  pose proof localTZA_bound. case_bool_tests; [lia|done].
Qed.

Lemma Date_ymd_local_midnight y m dt :
  Date_ymd (Some y) (Some m) (Some dt)
  = ES.TimeClip (local_midnight
      (ES.MakeDay (if (0 <=? y) && (y <=? 99) then 1900 + y else y) m dt)).
Proof.
  unfold Date_ymd. cbn [mbind option_bind]. f_equal.
  unfold ES.UTC, ES.MakeDate, ES.MakeTime, local_midnight. lia.
Qed.

Lemma setDate_local_midnight D x :
  setDate (Some (local_midnight D)) (Some x)
  = ES.TimeClip (local_midnight (D + x - ES.DateFromTime (D * ES.msPerDay))).
Proof.
  unfold setDate. cbn [mbind option_bind]. cbv zeta.
  rewrite LocalTime_local_midnight, MakeDay_fields.
  destruct (Day_whole D) as [-> ->]. f_equal.
  unfold ES.UTC, ES.MakeDate, local_midnight. lia.
Qed.

Lemma next_day_local_midnight D :
  setDate (Some (local_midnight D)) (num_add (getDate (Some (local_midnight D))) (Some 1))
  = ES.TimeClip (local_midnight (D + 1)).
Proof.
  unfold getDate, num_add. cbn [mbind option_bind].
  rewrite setDate_local_midnight, LocalTime_local_midnight. do 2 f_equal. lia.
Qed.

Lemma push_days_local_midnight (n : nat) (D : Z) :
  -99999999 ≤ D → D + Z.of_nat n ≤ 99999999 →
  push_days n (Some (local_midnight D))
  = map (λ i : nat, Some (local_midnight (D + Z.of_nat i))) (seq 0 n).
Proof.
  revert D. induction n as [|n IH]; intros D Hlo Hhi; [done|].
  cbn [push_days seq map]. rewrite Z.add_0_r. f_equal.
  rewrite next_day_local_midnight, TimeClip_local_midnight by lia.
  rewrite IH by lia. rewrite <- seq_shift, map_map. apply map_ext. intros i. do 2 f_equal. lia.
Qed.
End DateProofs.

(** ** The month grid *)

Section GridProofs.
Context `{HostEnv}.

Lemma MakeDay_shift y m dt k : ES.MakeDay y m (dt + k) = ES.MakeDay y m dt + k.
Proof. unfold ES.MakeDay. lia. Qed.

Lemma MakeDay_first_range y m :
  0 ≤ m ≤ 11 → -271820 ≤ y ≤ 275759 →
  -99999744 ≤ ES.MakeDay y m 1 ∧ ES.MakeDay y m 1 + DaysInMonth y m ≤ 99999744.
Proof.
  intros Hm Hy. destruct (DayFromYear_range y Hy) as [Hlo Hhi].
  rewrite DayFromYear_succ in Hhi. rewrite MakeDay_in_year by done.
  destruct (DaysInYear_cases y) as [Hdiy HL]. rewrite Hdiy in Hhi.
  month_cases m; cbn [ES.monthStart DaysInMonth]; lia.
Qed.

Lemma fields_local_midnight y m dt :
  0 ≤ m ≤ 11 → 1 ≤ dt ≤ DaysInMonth y m →
  let d := Some (local_midnight (ES.MakeDay y m dt)) in
  getFullYear d = Some y ∧ getMonth d = Some m ∧ getDate d = Some dt.
Proof.
  intros Hm Hdt d. unfold d, getFullYear, getMonth, getDate. cbn [mbind option_bind].
  rewrite LocalTime_local_midnight.
  destruct (fields_of_MakeDay y m dt 0 Hm Hdt) as (_ & _ & HY & HM & HD);
    [unfold ES.msPerDay; lia|].
  unfold ES.MakeDate in *. rewrite Z.add_0_r in *. by rewrite HY, HM, HD.
Qed.

(** The grid of a reference date whose year is not one of 0..99 and lies
    between -271820 and 275759: consecutive local midnights that start
    [w] days before the first of the month, on a Sunday, in whole weeks,
    as many as [w] and the days of the month need, and among them every
    day of the month. *)
Theorem getDaysInMonth_covers_month (t : Z) :
  let y := ES.YearFromTime (ES.LocalTime t) in
  let m := ES.MonthFromTime (ES.LocalTime t) in
  ¬ (0 ≤ y ≤ 99) → -271820 ≤ y ≤ 275759 →
  let first := ES.MakeDay y m 1 in
  let w := ES.WeekDay (first * ES.msPerDay) in
  let n := DaysInMonth y m in
  let weeks := (w + n + 6) / 7 in
  let grid := getDaysInMonth (Some t) in
  grid = map (λ i : nat, Some (local_midnight (first - w + Z.of_nat i)))
             (seq 0 (Z.to_nat (weeks * 7)))
  ∧ Z.of_nat (length grid) = weeks * 7
  ∧ 7 * (weeks - 1) < w + n ≤ 7 * weeks
  ∧ Z.of_nat (length grid) mod 7 = 0
  ∧ 0 ≤ w ≤ 6
  ∧ grid !! 0%nat = Some (Some (local_midnight (first - w)))
  ∧ getDay (Some (local_midnight (first - w))) = Some 0
  ∧ ∀ dd, 1 ≤ dd ≤ n →
      ∃ d, grid !! Z.to_nat (w + dd - 1) = Some d ∧ d = Some (local_midnight (first + dd - 1)) ∧
           getFullYear d = Some y ∧ getMonth d = Some m ∧ getDate d = Some dd.
Proof.
  intros y m Hquirk Hy first w n weeks grid.
  pose proof (MonthFromTime_range (ES.LocalTime t)) as Hm. fold m in Hm.
  pose proof (DaysInMonth_range y m) as Hn. fold n in Hn.
  destruct (MakeDay_first_range y m Hm Hy) as [Hlo Hhi]. fold first n in Hlo, Hhi.
  assert (0 ≤ w ≤ 6) as Hw by (unfold w, ES.WeekDay; div_lia).
  assert (7 * (weeks - 1) < w + n ≤ 7 * weeks) as Hweeks by (unfold weeks; div_lia).
  assert (grid = map (λ i : nat, Some (local_midnight (first - w + Z.of_nat i)))
                     (seq 0 (Z.to_nat (weeks * 7)))) as Hgrid.
  { unfold grid, getDaysInMonth.
    change (getFullYear (Some t)) with (Some y). change (getMonth (Some t)) with (Some m).
    change (num_add (Some m) (Some 1)) with (Some (m + 1)).
    rewrite !Date_ymd_local_midnight.
    replace ((0 <=? y) && (y <=? 99)) with false
      by (symmetry; apply andb_false_iff; rewrite Z.leb_gt, Z.leb_gt; lia).
    fold first. rewrite MakeDay_next_month by done. fold n.
    replace (ES.MakeDay y m n) with (first + (n - 1))
      by (unfold first, ES.MakeDay; lia).
    rewrite !TimeClip_local_midnight by lia.
    assert (getDay (Some (local_midnight first)) = Some w) as ->.
    { unfold getDay. cbn [mbind option_bind]. by rewrite LocalTime_local_midnight. }
    assert (getDate (Some (local_midnight (first + (n - 1)))) = Some n) as ->.
    { replace (first + (n - 1)) with (ES.MakeDay y m n)
        by (unfold first, ES.MakeDay; lia).
      apply fields_local_midnight; [done|lia]. }
    change (num_sub (Some 1) (Some w)) with (Some (1 - w)).
    change (num_add (Some w) (Some n)) with (Some (w + n)).
    rewrite setDate_local_midnight.
    assert (ES.DateFromTime (first * ES.msPerDay) = 1) as ->.
    { destruct (fields_of_MakeDay y m 1 0 Hm) as (_ & _ & _ & _ & HD);
        [lia|unfold ES.msPerDay; lia|].
      unfold ES.MakeDate in HD. by rewrite Z.add_0_r in HD. }
    rewrite TimeClip_local_midnight by lia.
    assert (num_mul (Math_ceil_div7 (Some (w + n))) (Some 7) = Some (weeks * 7)) as ->.
    { unfold Math_ceil_div7, num_mul. cbn [mbind option_bind]. f_equal. unfold weeks. div_lia. }
    cbn [rounds]. rewrite push_days_local_midnight by lia.
    apply map_ext. intros i. do 2 f_equal. lia. }
  assert (Z.of_nat (length grid) = weeks * 7) as Hlen.
  { rewrite Hgrid, length_map, length_seq. lia. }
  split; [exact Hgrid|]. split; [exact Hlen|]. split; [exact Hweeks|].
  split; [rewrite Hlen; apply Z.mod_mul; lia|]. split; [exact Hw|].
  split; [|split].
  - rewrite Hgrid. rewrite list_lookup_fmap, lookup_seq_lt by lia. simpl.
    do 3 f_equal. lia.
  - unfold getDay. cbn [mbind option_bind]. rewrite LocalTime_local_midnight.
    f_equal. unfold ES.WeekDay. destruct (Day_whole (first - w)) as [-> _].
    unfold w, ES.WeekDay. destruct (Day_whole first) as [-> _]. div_lia.
  - intros dd Hdd. exists (Some (local_midnight (first + dd - 1))).
    split; [|split; [done|]].
    + rewrite Hgrid, list_lookup_fmap, lookup_seq_lt by lia. simpl. do 3 f_equal. lia.
    + replace (first + dd - 1) with (ES.MakeDay y m dd)
        by (unfold first, ES.MakeDay; lia).
      by apply fields_local_midnight.
Qed.
End GridProofs.

(** ** The overlap check *)

Lemma is_nat_digit_val c n :
  Ascii.is_nat c = Some n → digit_val c = Some (Z.of_nat n) ∧ (n < 10)%nat.
Proof.
  destruct c as [[] [] [] [] [] [] [] []]; cbn; intros [= <-]; split; (reflexivity || lia).
Qed.

Section OverlapProofs.
Context `{HostEnv}.

Lemma Date_on_2000_01_01_clock s n :
  clock_minutes s = Some n →
  Date_on_2000_01_01 s = Some (946684800000 + 60000 * n - localTZA).
Proof.
  unfold clock_minutes.
  destruct s as [|a [|b [|k [|c [|d [|? ?]]]]]]; try discriminate;
    try (destruct k as [[] [] [] [] [] [] [] []]; discriminate).
  destruct (Ascii.eqb_spec k ":") as [->|Hk].
  2: { destruct k as [[] [] [] [] [] [] [] []]; try discriminate; congruence. }
  destruct (Ascii.is_nat a) as [h1|] eqn:Ea; [|discriminate].
  destruct (Ascii.is_nat b) as [h2|] eqn:Eb; [|discriminate].
  destruct (Ascii.is_nat c) as [m1|] eqn:Ec; [|discriminate].
  destruct (Ascii.is_nat d) as [m2|] eqn:Ed; [|discriminate].
  apply is_nat_digit_val in Ea as [Ea ?], Eb as [Eb ?], Ec as [Ec ?], Ed as [Ed ?].
  cbv zeta. repeat case_bool_decide; cbn [andb]; try discriminate. intros [= <-].
  unfold Date_on_2000_01_01, two_digits. rewrite Ea, Eb, Ec, Ed. cbn [mbind option_bind].
  pose proof localTZA_bound.
  replace ((10 * Z.of_nat h1 + Z.of_nat h2 <=? 23) && (10 * Z.of_nat m1 + Z.of_nat m2 <=? 59))
    with true by (symmetry; apply andb_true_intro; split; apply Z.leb_le; lia).
  cbn [orb]. unfold ES.TimeClip, ES.UTC, ES.MakeDate, ES.MakeTime.
  change (ES.MakeDay 2000 0 1) with 10957. unfold ES.msPerDay.
  case_bool_tests; [lia|]. f_equal. lia.
Qed.
End OverlapProofs.

Section OverlapTheorems.
Context `{HostEnv}.

Lemma hasTimeOverlap_sym (a b : Event) : hasTimeOverlap a b = hasTimeOverlap b a.
Proof. unfold hasTimeOverlap, num_gt. apply andb_comm. Qed.

Lemma hasTimeOverlap_clock (a b : Event) (sa ea sb eb : Z) :
  clock_minutes (startTime a) = Some sa → clock_minutes (endTime a) = Some ea →
  clock_minutes (startTime b) = Some sb → clock_minutes (endTime b) = Some eb →
  hasTimeOverlap a b = (sa <? eb) && (sb <? ea).
Proof.
  intros Hsa Hea Hsb Heb. unfold hasTimeOverlap, num_gt.
  rewrite (Date_on_2000_01_01_clock _ _ Hsa), (Date_on_2000_01_01_clock _ _ Hea),
    (Date_on_2000_01_01_clock _ _ Hsb), (Date_on_2000_01_01_clock _ _ Heb).
  unfold num_lt. f_equal; apply eq_iff_eq_true; rewrite !Z.ltb_lt; lia.
Qed.
End OverlapTheorems.

(** C1. For two events whose start and end times are well-formed times of
    day, [hasTimeOverlap a b] is true exactly when the start of [a] is
    before the end of [b] and the end of [a] is after the start of [b],
    compared as times of day; and when [a] ends at the time [b] starts the
    two do not conflict. *)
Theorem hasTimeOverlap_half_open `{HostEnv} (a b : Event) (sa ea sb eb : Z) :
  clock_minutes (startTime a) = Some sa → clock_minutes (endTime a) = Some ea →
  clock_minutes (startTime b) = Some sb → clock_minutes (endTime b) = Some eb →
  (hasTimeOverlap a b = true ↔ sa < eb ∧ ea > sb) ∧
  (endTime a = startTime b → hasTimeOverlap a b = false).
Proof.
  intros Hsa Hea Hsb Heb.
  rewrite (hasTimeOverlap_clock a b sa ea sb eb) by assumption. split.
  - rewrite andb_true_iff, !Z.ltb_lt. lia.
  - intros Heq. rewrite Heq, Hsb in Hea. injection Hea as ->.
    rewrite (proj2 (Z.ltb_ge ea ea)) by lia. apply andb_false_r.
Qed.

Lemma hasTimeOverlap_half_open_witness :
  (@hasTimeOverlap utc_host (sample_event "ev1" "08:00" "09:00")
                            (sample_event "ev2" "08:30" "09:30") = true ↔ 480 < 570 ∧ 540 > 510) ∧
  @hasTimeOverlap utc_host (sample_event "ev1" "08:00" "09:00")
                           (sample_event "ev2" "09:00" "10:00") = false.
Proof.
  split.
  - apply (@hasTimeOverlap_half_open utc_host (sample_event "ev1" "08:00" "09:00")
             (sample_event "ev2" "08:30" "09:30") 480 540 510 570); reflexivity.
  - apply (@hasTimeOverlap_half_open utc_host (sample_event "ev1" "08:00" "09:00")
             (sample_event "ev2" "09:00" "10:00") 480 540 540 600); reflexivity.
Defined.

(** ** Saving an event *)

Section SaveProofs.
Context `{HostEnv}.

Lemma hasOverlap_true (existingEvents : list Event) (e : Event) :
  hasOverlap existingEvents e = true ↔
  ∃ other, other ∈ existingEvents ∧ id other ≠ id e ∧ hasTimeOverlap e other = true.
Proof.
  unfold hasOverlap. rewrite existsb_exists. split.
  - intros (other & Hin & Hb). apply andb_true_iff in Hb as [Hid Hov].
    exists other. rewrite list_elem_of_In, (hasTimeOverlap_sym e other).
    split_and!; [done| |done].
    intros Heq. rewrite Heq, String.eqb_refl in Hid. discriminate.
  - intros (other & Hin & Hid & Hov). exists other.
    rewrite <- list_elem_of_In, (hasTimeOverlap_sym other e), Hov, andb_true_r.
    split; [done|]. apply negb_true_iff, String.eqb_neq. done.
Qed.

Lemma hasOverlap_false (existingEvents : list Event) (e : Event) :
  hasOverlap existingEvents e = false ↔
  ∀ other, other ∈ existingEvents → id other ≠ id e → hasTimeOverlap e other = false.
Proof.
  rewrite <- not_true_iff_false, hasOverlap_true. split.
  - intros Hno other Hin Hid. apply not_true_iff_false. intros Hov. apply Hno. eauto.
  - intros Hall (other & Hin & Hid & Hov). rewrite (Hall other) in Hov by done. discriminate.
Qed.
End SaveProofs.

(** C2. When the event to save conflicts with an event already on the
    selected day that carries another identifier, [handleSaveEvent] rejects
    it: it raises the alert and changes nothing else, so that the store is
    what it was (nothing added, replaced or removed) and nothing is written
    to storage. *)
Theorem handleSaveEvent_rejects_overlap `{HostEnv} (w : World) (eventData : EventData)
    (rnd : string) (d : Date) (dayKey : string) (other : Event) :
  selectedDate (app w) = Some d →
  dateKeyOf d = Some dayKey →
  other ∈ default [] (events (app w) !! dayKey) →
  id other ≠ id (with_id eventData (newEventId (selectedEvent (app w)) rnd)) →
  hasTimeOverlap (with_id eventData (newEventId (selectedEvent (app w)) rnd)) other = true →
  app (handleSaveEvent eventData rnd w) = app w ∧
  events (app (handleSaveEvent eventData rnd w)) = events (app w) ∧
  item (handleSaveEvent eventData rnd w) = item w ∧
  trace (handleSaveEvent eventData rnd w) = trace w ++ [ObsAlert overlap_message].
Proof.
  intros Hd Hkey Hin Hid Hov. unfold handleSaveEvent. rewrite Hd, Hkey.
  rewrite (proj2 (hasOverlap_true _ _)) by eauto. done.
Qed.

(** The specification's example: with 08:00-09:00 on the day, saving
    08:30-09:30 is rejected. *)
Lemma handleSaveEvent_rejects_overlap_witness :
  events (app (@handleSaveEvent utc_host (sample_data "08:30" "09:30") "ev2"
                 (sample_world morning_store None))) = morning_store.
Proof.
  apply (@handleSaveEvent_rejects_overlap utc_host (sample_world morning_store None)
           (sample_data "08:30" "09:30") "ev2" march_10 "2024-03-10"
           (sample_event "ev1" "08:00" "09:00")).
  - reflexivity.
  - reflexivity.
  - vm_compute. apply list_elem_of_here.
  - discriminate.
  - reflexivity.
Defined.

(** The other half of the example: 09:00-10:00 is adjacent and is saved. *)
Lemma handleSaveEvent_adjacent_accepted :
  events (app (@handleSaveEvent utc_host (sample_data "09:00" "10:00") "ev2"
                 (sample_world morning_store None))) !! "2024-03-10"
  = Some [sample_event "ev1" "08:00" "09:00";
          with_id (sample_data "09:00" "10:00") "ev2"].
Proof. vm_compute. reflexivity. Qed.

(** ** Drag relocation *)

(** C9. A drop on the day and at the position the event came from changes
    nothing: every day key, every list, the rest of the state and the
    storage are what they were. *)
Theorem handleEventDragEnd_same_place `{HostEnv} (w : World) (result : DropResult)
    (dest : DraggableLocation) :
  destination result = Some dest →
  droppableId (source result) = droppableId dest →
  index (source result) = index dest →
  handleEventDragEnd result w = Some w.
Proof.
  intros Hdest Hday Hidx. unfold handleEventDragEnd. rewrite Hdest.
  rewrite bool_decide_eq_true_2 by done. rewrite Hidx, Nat.eqb_refl. done.
Qed.

Lemma handleEventDragEnd_same_place_witness :
  @handleEventDragEnd utc_host
    (mkDropResult (mkLocation "2024-03-10" 0) (Some (mkLocation "2024-03-10" 0)))
    (sample_world morning_store None)
  = Some (sample_world morning_store None).
Proof.
  apply (@handleEventDragEnd_same_place utc_host (sample_world morning_store None)
           (mkDropResult (mkLocation "2024-03-10" 0) (Some (mkLocation "2024-03-10" 0)))
           (mkLocation "2024-03-10" 0)); reflexivity.
Defined.

(** C10. A drop outside every day cell (no destination) leaves the whole
    world as it was: the events, the rest of the state, the stored item and
    the trace, so that no write to storage is made. *)
Theorem handleEventDragEnd_no_destination `{HostEnv} (w : World) (result : DropResult) :
  destination result = None →
  handleEventDragEnd result w = Some w ∧
  ∀ w', handleEventDragEnd result w = Some w' →
        events (app w') = events (app w) ∧ item w' = item w ∧ trace w' = trace w.
Proof.
  intros Hdest. unfold handleEventDragEnd. rewrite Hdest. split; [done|].
  by intros w' [= <-].
Qed.

Lemma handleEventDragEnd_no_destination_witness :
  @handleEventDragEnd utc_host (mkDropResult (mkLocation "2024-03-10" 0) None)
    (sample_world morning_store None)
  = Some (sample_world morning_store None).
Proof.
  apply (@handleEventDragEnd_no_destination utc_host (sample_world morning_store None)
           (mkDropResult (mkLocation "2024-03-10" 0) None)). reflexivity.
Defined.

Lemma splice_remove_one {A} (l : list A) (i : nat) (x : A) :
  l !! i = Some x → splice i 1 [] l = (delete i l, [x]).
Proof.
  intros Hi. pose proof (lookup_lt_Some _ _ _ Hi) as Hlt. unfold splice.
  rewrite (Nat.min_l i) by lia. rewrite (Nat.min_l 1) by lia. f_equal.
  - rewrite delete_take_drop. simpl. do 2 f_equal. lia.
  - rewrite (drop_S _ _ _ Hi). done.
Qed.

Lemma splice_insert_one {A} (l : list A) (j : nat) (x : A) :
  (splice j 0 [x] l).1 = take j l ++ x :: drop j l.
Proof.
  unfold splice. simpl. rewrite Nat.add_0_r.
  destruct (decide (j ≤ length l)%nat) as [Hle|Hgt].
  - by rewrite Nat.min_l by lia.
  - rewrite Nat.min_r by lia. rewrite firstn_all, (take_ge l j) by lia.
    rewrite !drop_ge by lia. done.
Qed.

Lemma insert_at_lookup {A} (l : list A) (j : nat) (x : A) :
  (take j l ++ x :: drop j l) !! (Nat.min j (length l)) = Some x
  ∧ delete (Nat.min j (length l)) (take j l ++ x :: drop j l) = l.
Proof.
  assert (length (take j l) = Nat.min j (length l)) as Hlen by apply length_take.
  split.
  - rewrite lookup_app_r by lia. rewrite Hlen, Nat.sub_diag. done.
  - rewrite delete_take_drop.
    rewrite take_app_length' by done.
    rewrite cons_middle, app_assoc.
    rewrite drop_app_length' by (rewrite length_app; simpl; lia).
    apply take_drop.
Qed.

Lemma app_saveEventsToStorage `{HostEnv} (m : Store) (w : World) :
  app (saveEventsToStorage m w) = app w.
Proof. unfold saveEventsToStorage. by case_match. Qed.

Lemma app_useEffect_events `{HostEnv} (w : World) : app (useEffect_events w) = app w.
Proof. apply app_saveEventsToStorage. Qed.

(** C5. A drag from index [i] of day [s] to index [j] of day [d], other
    than a drop in place, takes the event at index [i] out of the list of
    [s] and puts that same event into the list of [d] at index [j] (at the
    end when [j] is past it), making the list of [d] when there was none,
    and keeps the other entries of both lists in their order. No overlap is
    looked for: this holds whatever the times of the events are. *)
Theorem handleEventDragEnd_relocates `{HostEnv} (w : World) (s d : string) (i j : nat)
    (ls : list Event) (ev : Event) :
  events (app w) !! s = Some ls →
  ls !! i = Some ev →
  ¬ (s = d ∧ i = j) →
  ∃ w', handleEventDragEnd (mkDropResult (mkLocation s i) (Some (mkLocation d j))) w = Some w' ∧
    let before := if decide (s = d) then delete i ls else default [] (events (app w) !! d) in
    let after := take j before ++ ev :: drop j before in
    events (app w') !! d = Some after ∧
    after !! (Nat.min j (length before)) = Some ev ∧
    delete (Nat.min j (length before)) after = before ∧
    ((j ≤ length before)%nat → after !! j = Some ev) ∧
    (s ≠ d → events (app w') !! s = Some (delete i ls)) ∧
    (∀ k, k ≠ s → k ≠ d → events (app w') !! k = events (app w) !! k).
Proof.
  intros Hs Hi Hne. unfold handleEventDragEnd. cbn [destination source droppableId index].
  replace (bool_decide (s = d) && (i =? j)%nat) with false.
  2: { symmetry. apply andb_false_iff. destruct (decide (s = d)) as [->|Hsd].
       - right. apply Nat.eqb_neq. naive_solver.
       - left. by apply bool_decide_eq_false_2. }
  rewrite Hs, (splice_remove_one _ _ _ Hi). eexists. split; [reflexivity|].
  rewrite app_useEffect_events, app_saveEventsToStorage.
  cbn [app events with_app setEvents].
  set (before := if decide (s = d) then delete i ls else default [] (events (app w) !! d)).
  assert (default [] (match <[s := delete i ls]> (events (app w)) !! d with
                      | None => <[d := []]> (<[s := delete i ls]> (events (app w)))
                      | Some _ => <[s := delete i ls]> (events (app w))
                      end !! d) = before) as Hbefore.
  { subst before. destruct (decide (s = d)) as [->|Hsd].
    - by rewrite !lookup_insert_eq.
    - rewrite lookup_insert_ne by done.
      destruct (events (app w) !! d) eqn:Hd.
      + by rewrite lookup_insert_ne, Hd by done.
      + by rewrite lookup_insert_eq. }
  rewrite splice_insert_one, Hbefore.
  destruct (insert_at_lookup before j ev) as [Hat Hdel].
  split_and!.
  - by rewrite lookup_insert_eq.
  - done.
  - done.
  - intros Hle. by rewrite Nat.min_l in Hat by done.
  - intros Hsd. rewrite lookup_insert_ne by done.
    destruct (<[s := delete i ls]> (events (app w)) !! d);
      [|rewrite lookup_insert_ne by done]; by rewrite lookup_insert_eq.
  - intros k Hks Hkd. rewrite lookup_insert_ne by done.
    destruct (<[s := delete i ls]> (events (app w)) !! d);
      [|rewrite lookup_insert_ne by done]; by rewrite lookup_insert_ne.
Qed.

Lemma handleEventDragEnd_relocates_witness :
  ∃ w', @handleEventDragEnd utc_host
          (mkDropResult (mkLocation "2024-03-10" 0) (Some (mkLocation "2024-03-11" 1)))
          (sample_world two_day_store None) = Some w'
        ∧ events (app w') !! "2024-03-11"
          = Some [sample_event "ev2" "08:30" "09:30"; sample_event "ev1" "08:00" "09:00"]
        ∧ @hasTimeOverlap utc_host (sample_event "ev1" "08:00" "09:00")
                                   (sample_event "ev2" "08:30" "09:30") = true.
Proof.
  destruct (@handleEventDragEnd_relocates utc_host (sample_world two_day_store None)
              "2024-03-10" "2024-03-11" 0 1
              [sample_event "ev1" "08:00" "09:00"] (sample_event "ev1" "08:00" "09:00"))
    as (w' & Hrun & Hdest & _).
  - reflexivity.
  - reflexivity.
  - intros [Heq _]. discriminate Heq.
  - exists w'. split; [exact Hrun|]. split; [exact Hdest|reflexivity].
Defined.

(** ** No empty day *)

Lemma no_empty_day_morning_store : no_empty_day morning_store.
Proof.
  intros k l Hk. unfold morning_store in Hk.
  apply lookup_singleton_Some in Hk as [_ <-]. done.
Qed.

(** Deleting keeps the store free of empty days, and the day of the last
    event goes away with it. *)
Lemma handleDeleteEvent_no_empty_day `{HostEnv} (event : option Event) (w : World) :
  no_empty_day (events (app w)) → no_empty_day (events (app (handleDeleteEvent event w))).
Proof.
  intros Hinv. unfold handleDeleteEvent.
  destruct event as [ev|]; [|done]. destruct (selectedDate (app w)) as [d|]; [|done].
  destruct (dateKeyOf d) as [dateKey|]; [|done].
  destruct (events (app w) !! dateKey) as [dayEvents|] eqn:Hday; [|done].
  rewrite app_useEffect_events, app_saveEventsToStorage.
  cbn [app with_app events setEvents setIsEventModalOpen].
  intros k l. destruct (Nat.eqb_spec (length (filter (λ e, id e ≠ id ev) dayEvents)) 0) as [Hz|Hnz].
  - rewrite delete_insert_eq. intros Hk. apply lookup_delete_Some in Hk as [_ Hk]. eauto.
  - destruct (decide (k = dateKey)) as [->|Hne].
    + rewrite lookup_insert_eq. intros [= <-] Hnil. by rewrite Hnil in Hnz.
    + rewrite lookup_insert_ne by done. eauto.
Qed.

Lemma handleDeleteEvent_last `{HostEnv} (ev : Event) (w : World) (d : Date) (dayKey : string) :
  selectedDate (app w) = Some d → dateKeyOf d = Some dayKey →
  events (app w) !! dayKey = Some [ev] →
  events (app (handleDeleteEvent (Some ev) w)) !! dayKey = None.
Proof.
  intros Hd Hkey Hday. unfold handleDeleteEvent. rewrite Hd, Hkey, Hday.
  rewrite app_useEffect_events, app_saveEventsToStorage.
  cbn [app with_app events setEvents setIsEventModalOpen].
  rewrite filter_cons_False by (intros Hne; by apply Hne). rewrite filter_nil. simpl.
  apply lookup_delete_eq.
Qed.

(** C4, what the code does. Dragging the only event of 10 March to 11 March
    leaves the key of 10 March in the store with an empty list: the store
    had no empty day before and has one afterwards. *)
Theorem handleEventDragEnd_leaves_empty_day :
  no_empty_day (events (app (sample_world morning_store None))) ∧
  ∃ w', @handleEventDragEnd utc_host
          (mkDropResult (mkLocation "2024-03-10" 0) (Some (mkLocation "2024-03-11" 0)))
          (sample_world morning_store None) = Some w'
        ∧ events (app w') !! "2024-03-10" = Some []
        ∧ ¬ no_empty_day (events (app w')).
Proof.
  split; [apply no_empty_day_morning_store|].
  eexists. split; [reflexivity|].
  assert (events (app (useEffect_events (H:=utc_host) (saveEventsToStorage (H:=utc_host)
            (<["2024-03-11" := [sample_event "ev1" "08:00" "09:00"]]>
               (<["2024-03-11" := []]> (<["2024-03-10" := []]> morning_store)))
            (with_app (setEvents
               (<["2024-03-11" := [sample_event "ev1" "08:00" "09:00"]]>
                  (<["2024-03-11" := []]> (<["2024-03-10" := []]> morning_store)))
               (app (sample_world morning_store None))) (sample_world morning_store None)))))
          !! "2024-03-10" = Some []) as Hlook.
  { rewrite app_useEffect_events, app_saveEventsToStorage. cbn [app with_app events setEvents].
    rewrite !lookup_insert_ne by done. apply lookup_insert_eq. }
  split; [exact Hlook|]. intros Hinv. by apply (Hinv _ _ Hlook).
Qed.

(** ** Saving: replace or append *)

Lemma count_id_app (i : string) (l1 l2 : list Event) :
  count_id i (l1 ++ l2) = (count_id i l1 + count_id i l2)%nat.
Proof. unfold count_id. by rewrite filter_app, length_app. Qed.

Lemma count_id_cons (i : string) (e : Event) (l : list Event) :
  count_id i (e :: l) = ((if decide (id e = i) then 1 else 0) + count_id i l)%nat.
Proof.
  unfold count_id. destruct (decide (id e = i)).
  - by rewrite filter_cons_True.
  - by rewrite filter_cons_False.
Qed.

(** The edit branch keeps every identifier where it is. *)
Lemma count_id_replace (sel e : Event) (i : string) (l : list Event) :
  id e = id sel →
  count_id i (map (λ event, if String.eqb (id event) (id sel) then e else event) l)
  = count_id i l.
Proof.
  intros He. induction l as [|x l IH]; [done|]. simpl. rewrite !count_id_cons, IH.
  destruct (String.eqb_spec (id x) (id sel)) as [Hx|Hx]; [|done].
  by rewrite He, Hx.
Qed.

Lemma count_id_zero_replace (sel e : Event) (l : list Event) :
  count_id (id sel) l = 0%nat →
  map (λ event, if String.eqb (id event) (id sel) then e else event) l = l.
Proof.
  induction l as [|x l IH]; [done|]. rewrite count_id_cons. simpl.
  destruct (decide (id x = id sel)) as [Hx|Hx]; [lia|]. intros Hz.
  rewrite (proj2 (String.eqb_neq _ _) Hx), IH by done. done.
Qed.

(** With the identifier once in the list, the edit branch is an update of
    one position. *)
Lemma replace_in_place (sel e : Event) (l : list Event) :
  count_id (id sel) l = 1%nat →
  ∃ i old, l !! i = Some old ∧ id old = id sel ∧
    map (λ event, if String.eqb (id event) (id sel) then e else event) l = <[i := e]> l.
Proof.
  induction l as [|x l IH]; [done|]. rewrite count_id_cons. simpl.
  destruct (decide (id x = id sel)) as [Hx|Hx]; intros Hc.
  - exists 0%nat, x. rewrite (proj2 (String.eqb_eq _ _) Hx).
    rewrite count_id_zero_replace by lia. done.
  - destruct IH as (i & old & Hi & Hold & Hmap); [lia|].
    exists (S i), old. rewrite (proj2 (String.eqb_neq _ _) Hx), Hmap. done.
Qed.

(** C3, as the code has it. When the event to save conflicts with no other
    event of the selected day: if an event is selected for editing, its
    identifier is not empty and occurs once on that day, the new event
    takes its place in the list, the other entries stay, and the
    identifier occurs once afterwards; if no event is selected, the new
    event carries the fresh identifier and is appended to the list, and
    the identifier occurs once afterwards when it was not on the day
    before. *)
Theorem handleSaveEvent_upserts `{HostEnv} (w : World) (eventData : EventData)
    (rnd : string) (d : Date) (dayKey : string) :
  selectedDate (app w) = Some d →
  dateKeyOf d = Some dayKey →
  let existing := default [] (events (app w) !! dayKey) in
  let e := with_id eventData (newEventId (selectedEvent (app w)) rnd) in
  (∀ other, other ∈ existing → id other ≠ id e → hasTimeOverlap e other = false) →
  let after := default [] (events (app (handleSaveEvent eventData rnd w)) !! dayKey) in
  (∀ sel, selectedEvent (app w) = Some sel → id sel ≠ EmptyString →
     count_id (id sel) existing = 1%nat →
     id e = id sel ∧ count_id (id e) after = 1%nat ∧
     ∃ i old, existing !! i = Some old ∧ id old = id sel ∧ after = <[i := e]> existing) ∧
  (selectedEvent (app w) = None →
     id e = rnd ∧ after = existing ++ [e] ∧
     (count_id rnd existing = 0%nat → count_id (id e) after = 1%nat)).
Proof.
  intros Hd Hkey existing e Hfree after.
  assert (after =
          match selectedEvent (app w) with
          | Some sel => map (λ event, if String.eqb (id event) (id sel) then e else event) existing
          | None => existing ++ [e]
          end) as Hafter.
  { subst after. unfold handleSaveEvent. rewrite Hd, Hkey.
    fold existing. fold e. rewrite (proj2 (hasOverlap_false existing e)) by done.
    rewrite app_useEffect_events.
    cbn [app with_app events setEvents setIsEventModalOpen setSelectedEvent].
    by rewrite lookup_insert_eq. }
  split.
  - intros sel Hsel Hid Hone. rewrite Hsel in Hafter.
    assert (id e = id sel) as He.
    { subst e. rewrite Hsel. simpl. by rewrite (proj2 (String.eqb_neq _ _) Hid). }
    split; [done|]. rewrite Hafter. split.
    + by rewrite count_id_replace, He.
    + by apply replace_in_place.
  - intros Hnone. rewrite Hnone in Hafter.
    assert (id e = rnd) as He by (subst e; by rewrite Hnone).
    split_and!; [done|done|]. intros Hz.
    rewrite Hafter, count_id_app, He, Hz, count_id_cons, He.
    by rewrite decide_True.
Qed.

(** The day of the specification's example, edited and appended to. *)
Lemma handleSaveEvent_upserts_witness :
  default [] (events (app (@handleSaveEvent utc_host (sample_data "09:00" "10:00") "ev2"
                             (sample_world morning_store None))) !! "2024-03-10")
  = [sample_event "ev1" "08:00" "09:00"; with_id (sample_data "09:00" "10:00") "ev2"].
Proof.
  apply (@handleSaveEvent_upserts utc_host (sample_world morning_store None)
           (sample_data "09:00" "10:00") "ev2" march_10 "2024-03-10").
  - reflexivity.
  - reflexivity.
  - intros other Hin _. apply list_elem_of_singleton in Hin as ->. reflexivity.
  - reflexivity.
Defined.

(** C3 as stated fails: with an event selected that is not on the day, the
    save conflicts with nothing, and yet the day's list holds no event with
    the identifier of the saved event afterwards; it was not appended. *)
Lemma handleSaveEvent_stale_selection :
  selectedDate (app (sample_world morning_store (Some gone_event))) = Some march_10 ∧
  dateKeyOf march_10 = Some "2024-03-10" ∧
  id (with_id (sample_data "10:00" "11:00")
        (@newEventId (Some gone_event) "ev2")) = "gone" ∧
  @hasOverlap utc_host [sample_event "ev1" "08:00" "09:00"]
     (with_id (sample_data "10:00" "11:00") "gone") = false ∧
  default [] (events (app (@handleSaveEvent utc_host (sample_data "10:00" "11:00") "ev2"
                             (sample_world morning_store (Some gone_event)))) !! "2024-03-10")
  = [sample_event "ev1" "08:00" "09:00"] ∧
  count_id "gone"
    (default [] (events (app (@handleSaveEvent utc_host (sample_data "10:00" "11:00") "ev2"
                                (sample_world morning_store (Some gone_event)))) !! "2024-03-10"))
  ≠ 1%nat.
Proof. split_and!; try reflexivity. vm_compute. discriminate. Qed.

(** The same on a day without events: the save leaves an empty list under
    the day's key. *)
Lemma handleSaveEvent_stale_selection_empty_day :
  events (app (@handleSaveEvent utc_host (sample_data "10:00" "11:00") "ev2"
                 (sample_world ∅ (Some gone_event)))) !! "2024-03-10" = Some [].
Proof. reflexivity. Qed.

(** Without a selection the new event is appended even when the fresh
    identifier is on the day already: the identifier then occurs twice. *)
Lemma handleSaveEvent_identifier_collision :
  count_id "ev1"
    (default [] (events (app (@handleSaveEvent utc_host (sample_data "10:00" "11:00") "ev1"
                                (sample_world morning_store None))) !! "2024-03-10"))
  = 2%nat.
Proof. reflexivity. Qed.

(** How the selection gets stale: [handleDeleteEvent] closes the modal but
    keeps [selectedEvent]. After a click on an event, its deletion and a
    click on Add Event, the save runs as an edit of the deleted event and
    the day's list stays as it was. *)
Lemma delete_then_add_loses_event :
  let w0 := {| app := {| events := two_day_store; selectedDate := None; selectedEvent := None;
                         isEventModalOpen := false; showAddEvent := false;
                         searchQuery := EmptyString; currentMonth := march_10 |};
               item := None; trace := [] |} in
  let w1 := handleEventClick (sample_event "ev1" "08:00" "09:00") march_10 w0 in
  let w2 := @handleDeleteEvent utc_host (Some (sample_event "ev1" "08:00" "09:00")) w1 in
  let w3 := handleDaySelect (Some 1710115200000) w2 in
  let w4 := clickAddEvent w3 in
  let w5 := @handleSaveEvent utc_host (sample_data "10:00" "11:00") "ev3" w4 in
  selectedEvent (app w4) = Some (sample_event "ev1" "08:00" "09:00") ∧
  events (app w4) !! "2024-03-11" = Some [sample_event "ev2" "08:30" "09:30"] ∧
  events (app w5) !! "2024-03-11" = Some [sample_event "ev2" "08:30" "09:30"].
Proof. split_and!; reflexivity. Qed.

(** C6, what the code does. For a reference date in December of the year
    99 the constructor [new Date(99, 11, 1)] builds 1 December 1999: the
    grid is the one of December 1999 and holds no day of the reference
    month. *)
Theorem getDaysInMonth_year_99 :
  @getFullYear utc_host december_99 = Some 99 ∧
  @getMonth utc_host december_99 = Some 11 ∧
  dateKeyOf december_99 = Some "0099-12-15" ∧
  length (@getDaysInMonth utc_host december_99) = 35%nat ∧
  (dateKeyOf <$> @getDaysInMonth utc_host december_99 !! 0%nat) = Some (Some "1999-11-28") ∧
  (dateKeyOf <$> @getDaysInMonth utc_host december_99 !! 34%nat) = Some (Some "2000-01-01") ∧
  forallb (λ d, bool_decide (@getFullYear utc_host d ≠ Some 99))
          (@getDaysInMonth utc_host december_99) = true.
Proof. split_and!; vm_compute; reflexivity. Qed.

(** The grid of March 2024 on a host ahead of UTC, by the theorem above. *)
Lemma getDaysInMonth_covers_month_example :
  Z.of_nat (length (@getDaysInMonth full_host march_10)) = 42 ∧
  @getDay full_host (Some (@local_midnight full_host (19783 - 5))) = Some 0.
Proof.
  destruct (@getDaysInMonth_covers_month full_host 1710028800000)
    as (_ & Hlen & _ & _ & _ & _ & Hsun & _).
  - vm_compute. intros [_ Hle]. by apply Hle.
  - vm_compute. split; discriminate.
  - split; [exact Hlen|exact Hsun].
Qed.

(** ** Export to CSV *)

Lemma app_String c s t : String c s +:+ t = String c (s +:+ t).
Proof. reflexivity. Qed.
Lemma app_empty_l t : EmptyString +:+ t = t.
Proof. reflexivity. Qed.

Lemma string_app_assoc (a b c : string) : (a +:+ b) +:+ c = a +:+ (b +:+ c).
Proof. induction a as [|x a IH]; [done|]. by rewrite !app_String, IH. Qed.



Lemma has_char_app c s t : has_char c (s +:+ t) = has_char c s || has_char c t.
Proof.
  induction s as [|x s IH]; [done|]. rewrite app_String. cbn [has_char].
  by rewrite IH, orb_assoc.
Qed.







Lemma TimeClip_cases t : ES.TimeClip t = None ∨ ES.TimeClip t = Some t.
Proof. unfold ES.TimeClip. case_match; auto. Qed.

Lemma TimeClip_between a b c :
  ES.TimeClip a = Some a → ES.TimeClip c = Some c → a ≤ b ≤ c → ES.TimeClip b = Some b.
Proof.
  unfold ES.TimeClip. intros Ha Hc Hb.
  destruct (Z.ltb_spec 8640000000000000 (Z.abs a)); [discriminate|].
  destruct (Z.ltb_spec 8640000000000000 (Z.abs c)); [discriminate|].
  destruct (Z.ltb_spec 8640000000000000 (Z.abs b)); [lia|done].
Qed.

Lemma dateKeyOf_Some t : ∃ k, dateKeyOf (Some t) = Some k.
Proof.
  unfold dateKeyOf. destruct (toISOString (Some t)) as [iso|] eqn:E.
  - by exists (split_head "T" iso).
  - unfold toISOString in E. cbn [mbind option_bind] in E. discriminate E.
Qed.

Lemma flat_map_seq_shift {A} (f : nat → list A) (a n : nat) :
  flat_map f (seq (S a) n) = flat_map (λ i, f (S i)) (seq a n).
Proof.
  revert a. induction n as [|n IH]; intros a; [done|]. cbn [seq flat_map]. by rewrite IH.
Qed.

Section ExportProofs.
Context `{HostEnv}.

Lemma local_midnight_mono D1 D2 : D1 ≤ D2 → local_midnight D1 ≤ local_midnight D2.
Proof. unfold local_midnight, ES.msPerDay. lia. Qed.

Lemma collect_month_days (evs : Store) (n : nat) :
  ∀ (fuel : nat) (D : Z) (acc : list Event),
    (n < fuel)%nat →
    (n ≠ 0%nat →
       ES.TimeClip (local_midnight D) = Some (local_midnight D) ∧
       ES.TimeClip (local_midnight (D + Z.of_nat n - 1)) = Some (local_midnight (D + Z.of_nat n - 1))) →
    collect_month fuel evs (ES.TimeClip (local_midnight D))
      (Some (local_midnight (D + Z.of_nat n - 1))) acc
    = Some (inr (acc ++ flat_map (λ i : nat, events_on evs (Some (local_midnight (D + Z.of_nat i))))
                                 (seq 0 n))).
Proof.
  induction n as [|n IH]; intros fuel D acc Hfuel Hclip; (destruct fuel as [|fuel]; [lia|]).
  - cbn [collect_month seq flat_map]. rewrite app_nil_r.
    replace (num_le _ _) with false; [done|]. symmetry.
    destruct (TimeClip_cases (local_midnight D)) as [->| ->]; [done|].
    cbn [num_le]. apply Z.leb_gt. unfold local_midnight, ES.msPerDay. lia.
  - destruct Hclip as [HD Hlast]; [done|]. rewrite HD. cbn [collect_month].
    replace (num_le _ _) with true
      by (symmetry; cbn [num_le]; apply Z.leb_le, local_midnight_mono; lia).
    destruct (dateKeyOf_Some (local_midnight D)) as [key Hkey]. rewrite Hkey.
    rewrite next_day_local_midnight.
    replace (D + Z.of_nat (S n) - 1) with (D + 1 + Z.of_nat n - 1) in * by lia.
    rewrite IH; [|lia|].
    + do 2 f_equal. cbn [seq flat_map]. rewrite flat_map_seq_shift.
      rewrite Z.add_0_r, app_assoc. f_equal.
      * unfold events_on. rewrite Hkey. cbn [mbind option_bind].
        destruct (evs !! key); [done|by rewrite app_nil_r].
      * apply flat_map_ext. intros i. do 3 f_equal. lia.
    + intros Hn. split; [|done].
      apply (TimeClip_between (local_midnight D) _ (local_midnight (D + 1 + Z.of_nat n - 1)));
        [done|done|]. split; apply local_midnight_mono; lia.
Qed.

Lemma month_days_local_midnight (y m F n : Z) (month : Date) :
  getFullYear month = Some y → getMonth month = Some m →
  Date_ymd (Some y) (Some m) (Some 1) = Some (local_midnight F) →
  Date_ymd (Some y) (Some (m + 1)) (Some 0) = Some (local_midnight (F + n - 1)) →
  0 ≤ n →
  month_days month = map (λ i : nat, Some (local_midnight (F + Z.of_nat i))) (seq 0 (Z.to_nat n)).
Proof.
  intros Hy Hm Hfirst Hlast Hn. unfold month_days. rewrite Hy, Hm.
  change (num_add (Some m) (Some 1)) with (Some (m + 1)). rewrite Hfirst, Hlast.
  replace ((local_midnight (F + n - 1) - local_midnight F) / ES.msPerDay + 1) with n
    by (unfold local_midnight, ES.msPerDay; div_lia).
  apply map_ext. intros i. f_equal. unfold local_midnight. lia.
Qed.
End ExportProofs.

Lemma toISOString_Some t : ∃ iso, toISOString (Some t) = Some iso.
Proof.
  destruct (toISOString (Some t)) as [iso|] eqn:E; [by exists iso|].
  unfold toISOString in E. cbn [mbind option_bind] in E. discriminate E.
Qed.

Lemma flat_map_map {A B C} (f : B → list C) (g : A → B) (l : list A) :
  flat_map f (map g l) = flat_map (λ x, f (g x)) l.
Proof. induction l as [|x l IH]; [done|]. cbn [map flat_map]. by rewrite IH. Qed.

(** The export loop ends within its 32 rounds and gathers the events of the
    days of the month, day after day. *)
Lemma collect_month_of_month `{HostEnv} (evs : Store) (t : Z) :
  collect_month 32 evs
    (Date_ymd (getFullYear (Some t)) (getMonth (Some t)) (Some 1))
    (Date_ymd (getFullYear (Some t)) (num_add (getMonth (Some t)) (Some 1)) (Some 0)) []
  = Some (inr (flat_map (events_on evs) (month_days (Some t)))).
Proof.
  set (month := Some t).
  set (y := ES.YearFromTime (ES.LocalTime t)). set (m := ES.MonthFromTime (ES.LocalTime t)).
  assert (getFullYear month = Some y) as Hy by done.
  assert (getMonth month = Some m) as Hm by done.
  pose proof (MonthFromTime_range (ES.LocalTime t)) as Hmr. fold m in Hmr.
  set (yr := if (0 <=? y) && (y <=? 99) then 1900 + y else y).
  pose proof (DaysInMonth_range yr m) as Hn.
  set (F := ES.MakeDay yr m 1).
  assert (Date_ymd (Some y) (Some m) (Some 1) = ES.TimeClip (local_midnight F)) as Hfirst
    by apply Date_ymd_local_midnight.
  assert (Date_ymd (Some y) (Some (m + 1)) (Some 0)
          = ES.TimeClip (local_midnight (F + DaysInMonth yr m - 1))) as Hlast.
  { rewrite Date_ymd_local_midnight. fold yr. rewrite MakeDay_next_month by done.
    do 2 f_equal. unfold F, ES.MakeDay. lia. }
  unfold month_days. rewrite Hy, Hm. change (num_add (Some m) (Some 1)) with (Some (m + 1)).
  rewrite Hlast.
  destruct (TimeClip_cases (local_midnight (F + DaysInMonth yr m - 1))) as [Hl|Hl]; rewrite Hl.
  { destruct (Date_ymd (Some y) (Some m) (Some 1)); done. }
  rewrite Hfirst.
  destruct (TimeClip_cases (local_midnight F)) as [Hf|Hf].
  { rewrite Hf. done. }
  replace (F + DaysInMonth yr m - 1) with (F + Z.of_nat (Z.to_nat (DaysInMonth yr m)) - 1) in * by lia.
  rewrite collect_month_days; [|lia|done].
  rewrite Hf. do 2 f_equal. cbn [app].
  replace ((local_midnight (F + Z.of_nat (Z.to_nat (DaysInMonth yr m)) - 1) - local_midnight F)
           / ES.msPerDay + 1) with (DaysInMonth yr m)
    by (unfold local_midnight, ES.msPerDay; div_lia).
  rewrite flat_map_map. apply flat_map_ext. intros i. do 2 f_equal.
  unfold local_midnight. lia.
Qed.





(** The specification's example: a month with two events, none of them with
    a line feed in a field, gives three lines. *)
Lemma handleExportEvents_csv_two_events :
  match @handleExportEvents_csv utc_host (sample_world two_day_store None) with
  | Downloaded filename content =>
      filename = "events-2024-03.csv" ∧
      split_on LF content
      = ["id,title,startTime,endTime,description,category";
         csv_row (sample_event "ev1" "08:00" "09:00");
         csv_row (sample_event "ev2" "08:30" "09:30")]
  | _ => False
  end.
Proof. vm_compute. split; reflexivity. Qed.

(** ** JSON: what is written is read back *)

Lemma app_empty_r (s : string) : s +:+ EmptyString = s.
Proof. induction s as [|c s IH]; [done|]. by rewrite app_String, IH. Qed.
Lemma length_string_app (a b : string) :
  String.length (a +:+ b) = (String.length a + String.length b)%nat.
Proof. induction a as [|x a IH]; [done|]. rewrite app_String. simpl. by rewrite IH. Qed.

Lemma jsval_nested_ind (P : jsval → Prop) :
  P JNull → (∀ b, P (JBool b)) → (∀ n, P (JNum n)) → (∀ s, P (JStr s)) →
  (∀ items, Forall P items → P (JArr items)) →
  (∀ props, Forall (λ kv, P kv.2) props → P (JObj props)) →
  ∀ v, P v.
Proof.
  intros Hnull Hbool Hnum Hstr Harr Hobj. fix IH 1. intros [| b | n | s | items | props].
  - exact Hnull.
  - apply Hbool.
  - apply Hnum.
  - apply Hstr.
  - apply Harr. induction items as [|x items IHitems]; constructor; [apply IH|exact IHitems].
  - apply Hobj. induction props as [|[k x] props IHprops]; constructor; [apply IH|exact IHprops].
Qed.

Lemma scan_quote_char (c : ascii) (rest : string) :
  scan_chars (quote_char c +:+ rest) = cons_char c (scan_chars rest).
Proof. destruct c as [[] [] [] [] [] [] [] []]; reflexivity. Qed.

Lemma scan_quote_chars (s rest : string) :
  scan_chars (quote_chars s +:+ String DQUOTE rest) = Some (s, rest).
Proof.
  induction s as [|c s IH]; [done|]. cbn [quote_chars].
  by rewrite string_app_assoc, scan_quote_char, IH.
Qed.

Lemma parse_elements_S (f : nat) (s : string) (acc : list jsval) :
  parse_elements (S f) s acc =
  match parse_value f s with
  | Some (x, r) =>
      match skip_ws r with
      | String "," r' => parse_elements f r' (acc ++ [x])
      | String "]" r' => Some (JArr (acc ++ [x]), r')
      | _ => None
      end
  | None => None
  end.
Proof. reflexivity. Qed.

Lemma parse_members_quote (f : nat) (k r : string) (acc : list (string * jsval)) :
  parse_members (S f) (QuoteJSONString k +:+ r) acc =
  match skip_ws r with
  | String ":" r2 =>
      match parse_value f r2 with
      | Some (x, r3) =>
          match skip_ws r3 with
          | String "," r4 => parse_members f r4 (obj_set k x acc)
          | String "}" r4 => Some (JObj (obj_set k x acc), r4)
          | _ => None
          end
      | None => None
      end
  | _ => None
  end.
Proof.
  unfold QuoteJSONString. rewrite app_String, string_app_assoc, app_String, app_empty_l.
  cbn [parse_members skip_ws is_ws]. change (is_ws DQUOTE) with false. cbv iota.
  rewrite Ascii.eqb_refl, scan_quote_chars. reflexivity.
Qed.

Lemma stringify_head (v : jsval) :
  plain_json v →
  ∃ c s, JSON_stringify v = String c s ∧
         (c = "n" ∨ c = "t" ∨ c = "f" ∨ c = DQUOTE ∨ c = "[" ∨ c = "{")%char.
Proof.
  destruct v as [| [] | n | s | items | props]; intros Hv; try done; cbn [JSON_stringify];
    eexists _, _; (split; [reflexivity|]); tauto.
Qed.

Lemma skip_ws_head (v : jsval) (rest : string) :
  plain_json v → skip_ws (JSON_stringify v +:+ rest) = JSON_stringify v +:+ rest.
Proof.
  intros Hv. destruct (stringify_head v Hv) as (c & s & -> & Hc). rewrite app_String.
  destruct Hc as [->|[->|[->|[->|[->| ->]]]]]; reflexivity.
Qed.

Lemma obj_set_fresh (k : string) (x : jsval) (acc : list (string * jsval)) :
  k ∉ map fst acc → obj_set k x acc = acc ++ [(k, x)].
Proof.
  induction acc as [|[k' x'] acc IH]; [done|]. cbn [map fst obj_set]. intros Hk.
  apply not_elem_of_cons in Hk as [Hne Hk].
  rewrite (proj2 (String.eqb_neq k' k)) by done. by rewrite IH.
Qed.

Lemma parse_elements_items (items : list jsval) :
  Forall parses_back items → Forall plain_json items → items ≠ [] →
  ∀ (acc : list jsval) (fuel : nat) (rest : string),
    (list_sum (map (λ x, S (weight x)) items) ≤ fuel)%nat →
    parse_elements fuel (join "," (map JSON_stringify items) +:+ String "]" rest) acc
    = Some (JArr (acc ++ items), rest).
Proof.
  induction 1 as [|x items Hx Hitems IH]; [done|]. intros Hplain _ acc fuel rest Hfuel.
  inversion Hplain as [|? ? Hpx Hpitems]; subst.
  change (S (weight x) + list_sum (map (λ x, S (weight x)) items) ≤ fuel)%nat in Hfuel.
  destruct fuel as [|f]; [lia|]. rewrite parse_elements_S.
  destruct items as [|y items].
  - cbn [map join]. rewrite (Hx Hpx) by lia. reflexivity.
  - change (join "," (map JSON_stringify (x :: y :: items)))
      with (JSON_stringify x +:+ "," +:+ join "," (map JSON_stringify (y :: items))).
    rewrite !string_app_assoc, app_String, app_empty_l. rewrite (Hx Hpx) by lia.
    cbn [skip_ws is_ws]. change (is_ws ",") with false. cbv iota.
    rewrite IH; [|done|done|lia]. by rewrite <- app_assoc.
Qed.

Lemma parse_members_props (props : list (string * jsval)) :
  Forall (λ kv, parses_back kv.2) props → Forall (λ kv, plain_json kv.2) props → props ≠ [] →
  ∀ (acc : list (string * jsval)) (fuel : nat) (rest : string),
    NoDup (map fst (acc ++ props)) →
    (list_sum (map (λ kv : string * jsval, S (weight kv.2)) props) ≤ fuel)%nat →
    parse_members fuel
      (join "," (map (λ kv, match kv with
                            | (k, x) => QuoteJSONString k +:+ ":" +:+ JSON_stringify x
                            end) props) +:+ String "}" rest) acc
    = Some (JObj (acc ++ props), rest).
Proof.
  induction 1 as [|[k x] props Hx Hprops IH]; [done|]. intros Hplain _ acc fuel rest Hnd Hfuel.
  inversion Hplain as [|? ? Hpx Hpprops]; subst.
  change (parses_back x) in Hx. change (plain_json x) in Hpx.
  change (S (weight x) + list_sum (map (λ kv : string * jsval, S (weight kv.2)) props) ≤ fuel)%nat
    in Hfuel.
  destruct fuel as [|f]; [lia|].
  assert (obj_set k x acc = acc ++ [(k, x)]) as Hset.
  { apply obj_set_fresh. rewrite map_app in Hnd. apply NoDup_app in Hnd as (_ & Hdisj & _).
    intros Hin. apply (Hdisj k Hin). cbn. apply list_elem_of_here. }
  destruct props as [|kv props].
  - cbn [map join]. rewrite !string_app_assoc, parse_members_quote.
    rewrite app_String, app_empty_l. cbn [skip_ws is_ws]. change (is_ws ":") with false. cbv iota.
    rewrite (Hx Hpx) by lia. cbn [skip_ws is_ws]. change (is_ws "}") with false. cbv iota.
    by rewrite Hset.
  - set (member := λ kv : string * jsval,
                     match kv with (k, x) => QuoteJSONString k +:+ ":" +:+ JSON_stringify x end).
    change (join "," (map member ((k, x) :: kv :: props)))
      with ((QuoteJSONString k +:+ ":" +:+ JSON_stringify x)
            +:+ "," +:+ join "," (map member (kv :: props))).
    rewrite !string_app_assoc, parse_members_quote.
    rewrite app_String, app_empty_l. cbn [skip_ws is_ws]. change (is_ws ":") with false. cbv iota.
    rewrite (Hx Hpx) by lia. rewrite app_String, app_empty_l.
    cbn [skip_ws is_ws]. change (is_ws ",") with false. cbv iota.
    rewrite Hset, IH; [|done|done| |lia].
    + by rewrite <- app_assoc.
    + by rewrite <- app_assoc.
Qed.

Ltac norm_app := repeat (rewrite string_app_assoc || rewrite app_String || rewrite app_empty_l).

Lemma plain_json_arr (items : list jsval) :
  plain_json (JArr items) ↔ Forall plain_json items.
Proof.
  cbn [plain_json]. induction items as [|x items IH].
  - split; [constructor|done].
  - rewrite Forall_cons, <- IH. done.
Qed.

Lemma plain_json_obj (props : list (string * jsval)) :
  plain_json (JObj props) ↔ NoDup (map fst props) ∧ Forall (λ kv, plain_json kv.2) props.
Proof.
  cbn [plain_json]. apply and_iff_compat_l. induction props as [|kv props IH].
  - split; [constructor|done].
  - rewrite Forall_cons, <- IH. done.
Qed.

Lemma parse_value_open_bracket (f : nat) (c : ascii) (r : string) :
  is_ws c = false → c ≠ "]"%char →
  parse_value (S f) (String "[" (String c r)) = parse_elements f (String c r) [].
Proof.
  intros Hws Hc. cbn [parse_value skip_ws is_ws]. change (is_ws "[") with false. cbv iota.
  change (Ascii.eqb "[" "{") with false. rewrite Ascii.eqb_refl. cbv iota.
  cbn [skip_ws]. rewrite Hws.
  destruct c as [[] [] [] [] [] [] [] []]; try reflexivity. done.
Qed.

Lemma parse_value_open_brace (f : nat) (r : string) :
  parse_value (S f) (String "{" (String DQUOTE r)) = parse_members f (String DQUOTE r) [].
Proof. reflexivity. Qed.

Lemma parse_value_stringify (v : jsval) :
  plain_json v → ∀ (fuel : nat) (rest : string), (weight v ≤ fuel)%nat →
  parse_value fuel (JSON_stringify v +:+ rest) = Some (v, rest).
Proof.
  induction v as [| b | n | s | items IH | props IH] using jsval_nested_ind;
    intros Hv fuel rest Hfuel; (destruct fuel as [|f]; [cbn [weight] in Hfuel; lia|]).
  - reflexivity.
  - destruct b; reflexivity.
  - destruct Hv.
  - cbn [JSON_stringify]. unfold QuoteJSONString.
    norm_app.
    cbn [parse_value skip_ws is_ws]. change (is_ws DQUOTE) with false. cbv iota.
    change (Ascii.eqb DQUOTE "{") with false. change (Ascii.eqb DQUOTE "[") with false.
    rewrite Ascii.eqb_refl. cbv iota. by rewrite scan_quote_chars.
  - apply plain_json_arr in Hv. cbn [weight] in Hfuel. cbn [JSON_stringify].
    destruct items as [|x items]; [reflexivity|].
    norm_app.
    assert (∃ c r, join "," (map JSON_stringify (x :: items)) +:+ String "]" rest = String c r
                   ∧ is_ws c = false ∧ c ≠ "]"%char) as (c & r & Heq & Hws & Hc).
    { inversion Hv as [|? ? Hx _]; subst.
      destruct (stringify_head x Hx) as (c & s & Hs & Hc).
      exists c. destruct items as [|y items].
      - cbn [map join]. rewrite Hs, app_String. eexists. split; [reflexivity|].
        destruct Hc as [->|[->|[->|[->|[->| ->]]]]]; by split.
      - change (join "," (map JSON_stringify (x :: y :: items)))
          with (JSON_stringify x +:+ "," +:+ join "," (map JSON_stringify (y :: items))).
        rewrite Hs, !app_String. eexists. split; [reflexivity|].
        destruct Hc as [->|[->|[->|[->|[->| ->]]]]]; by split. }
    rewrite Heq, parse_value_open_bracket, <- Heq by done.
    by rewrite (parse_elements_items (x :: items) IH Hv) by (done || lia).
  - apply plain_json_obj in Hv as [Hnd Hv]. cbn [weight] in Hfuel. cbn [JSON_stringify].
    destruct props as [|[k x] props]; [reflexivity|].
    norm_app.
    set (member := λ kv : string * jsval,
                     match kv with (k, x) => QuoteJSONString k +:+ ":" +:+ JSON_stringify x end).
    assert (∃ r, join "," (map member ((k, x) :: props)) +:+ String "}" rest = String DQUOTE r)
      as [r Heq].
    { destruct props as [|kv props].
      - cbn [map join member]. unfold QuoteJSONString. rewrite !app_String. by eexists.
      - change (join "," (map member ((k, x) :: kv :: props)))
          with (member (k, x) +:+ "," +:+ join "," (map member (kv :: props))).
        cbn [member]. unfold QuoteJSONString. rewrite !app_String. by eexists. }
    rewrite Heq, parse_value_open_brace, <- Heq.
    by rewrite (parse_members_props ((k, x) :: props) IH Hv) by (done || lia).
Qed.

Lemma length_join_comma (l : list string) :
  (list_sum (map (λ s, S (String.length s)) l) ≤ S (String.length (join "," l)))%nat.
Proof.
  induction l as [|x l IH]; [cbn; lia|]. destruct l as [|y l].
  - cbn. lia.
  - change (join "," (x :: y :: l)) with (x +:+ "," +:+ join "," (y :: l)).
    rewrite !length_string_app.
    change (list_sum (map (λ s, S (String.length s)) (x :: y :: l)))
      with (S (String.length x) + list_sum (map (λ s, S (String.length s)) (y :: l)))%nat.
    cbn [String.length]. lia.
Qed.

Lemma list_sum_map_le {A} (f g : A → nat) (l : list A) :
  Forall (λ x, f x ≤ g x)%nat l → (list_sum (map f l) ≤ list_sum (map g l))%nat.
Proof. induction 1 as [|x l Hx _ IH]; [done|]. simpl. lia. Qed.

Lemma weight_le_length (v : jsval) :
  plain_json v → (weight v ≤ String.length (JSON_stringify v))%nat.
Proof.
  induction v as [| b | n | s | items IH | props IH] using jsval_nested_ind; intros Hv.
  - cbn. lia.
  - destruct b; cbn; lia.
  - destruct Hv.
  - cbn. lia.
  - apply plain_json_arr in Hv. cbn [weight JSON_stringify].
    rewrite app_String, app_empty_l. cbn [String.length]. rewrite length_string_app.
    cbn [String.length].
    pose proof (length_join_comma (map JSON_stringify items)) as Hj.
    rewrite map_map in Hj.
    assert (list_sum (map (λ x, S (weight x)) items)
            ≤ list_sum (map (λ x, S (String.length (JSON_stringify x))) items))%nat; [|lia].
    apply list_sum_map_le. apply Forall_forall. intros x Hx.
    rewrite Forall_forall in IH, Hv. pose proof (IH x Hx (Hv x Hx)). lia.
  - apply plain_json_obj in Hv as [_ Hv]. cbn [weight JSON_stringify].
    rewrite app_String, app_empty_l. cbn [String.length]. rewrite length_string_app.
    cbn [String.length].
    set (member := λ kv : string * jsval,
                     match kv with (k, x) => QuoteJSONString k +:+ ":" +:+ JSON_stringify x end).
    pose proof (length_join_comma (map member props)) as Hj.
    rewrite map_map in Hj.
    assert (list_sum (map (λ kv : string * jsval, S (weight kv.2)) props)
            ≤ list_sum (map (λ kv, S (String.length (member kv))) props))%nat; [|lia].
    apply list_sum_map_le. apply Forall_forall. intros [k x] Hx.
    rewrite Forall_forall in IH, Hv. pose proof (IH _ Hx (Hv _ Hx)) as Hle.
    cbn [snd member] in *. rewrite !length_string_app. lia.
Qed.

(** What [JSON.stringify] writes for a plain value, [JSON.parse] reads back
    as that value. *)
Lemma JSON_parse_stringify (v : jsval) :
  plain_json v → JSON_parse (JSON_stringify v) = Some v.
Proof.
  intros Hv. unfold JSON_parse.
  rewrite <- (app_empty_r (JSON_stringify v)) at 2.
  rewrite parse_value_stringify; [done|done|].
  pose proof (weight_le_length v Hv). lia.
Qed.

(** ** Persistence *)

Lemma plain_json_Event_to_js (e : Event) : plain_json (Event_to_js e).
Proof.
  apply plain_json_obj. unfold Event_to_js, opt_prop. split.
  - destruct (description e), (color e); cbn [map fst app];
      apply (bool_decide_unpack _); vm_compute; exact I.
  - destruct (description e), (color e); cbn [app]; repeat constructor.
Qed.

Lemma plain_json_store_to_js (m : Store) : plain_json (store_to_js m).
Proof.
  apply plain_json_obj. unfold store_to_js. split.
  - rewrite map_map. cbn [day_to_js fst]. apply NoDup_fst_map_to_list.
  - apply Forall_map, Forall_forall. intros [k l] _. cbn [day_to_js snd].
    apply plain_json_arr, Forall_map, Forall_forall. intros e _. apply plain_json_Event_to_js.
Qed.

Lemma Event_of_js_to_js (e : Event) : Event_of_js (Event_to_js e) = Some e.
Proof. destruct e as [i t st en [d|] [| |] [c|]]; reflexivity. Qed.

Lemma mapM_Event_of_js (l : list Event) : mapM Event_of_js (map Event_to_js l) = Some l.
Proof.
  induction l as [|e l IH]; [done|]. cbn [map mapM]. rewrite Event_of_js_to_js. cbn.
  by rewrite IH.
Qed.

Lemma day_of_js_to_js (kv : string * list Event) : day_of_js (day_to_js kv) = Some kv.
Proof.
  destruct kv as [k l]. unfold day_of_js, day_to_js. simpl.
  by rewrite mapM_Event_of_js.
Qed.

Lemma events_of_js_to_js (m : Store) : events_of_js (store_to_js m) = Some m.
Proof.
  unfold events_of_js, store_to_js.
  assert (∀ kvs : list (string * list Event), mapM day_of_js (map day_to_js kvs) = Some kvs) as ->.
  { induction kvs as [|kv kvs IH]; [done|]. cbn [map mapM].
    rewrite day_of_js_to_js. cbn. by rewrite IH. }
  cbn. f_equal. apply list_to_map_to_list.
Qed.

Lemma JSON_stringify_nonempty (props : list (string * jsval)) :
  String.eqb (JSON_stringify (JObj props)) EmptyString = false.
Proof. reflexivity. Qed.

(** C8, as the code has it. When the storage accepts the write, the value
    that [loadEventsFromStorage] returns after [saveEventsToStorage m] is
    the JavaScript value of [m] itself, key for key and event for event,
    and read at the type of the store it is [m]. *)
Theorem save_then_load `{HostEnv} (m : Store) (w : World) :
  setItem_accepts (JSON_stringify (store_to_js m)) = true →
  (loadEventsFromStorage (saveEventsToStorage m w)).1 = store_to_js m ∧
  events_of_js (loadEventsFromStorage (saveEventsToStorage m w)).1 = Some m.
Proof.
  intros Hok.
  assert ((loadEventsFromStorage (saveEventsToStorage m w)).1 = store_to_js m) as Hload.
  { unfold saveEventsToStorage. rewrite Hok. unfold loadEventsFromStorage. cbn [item].
    unfold store_to_js at 1. rewrite JSON_stringify_nonempty. fold (store_to_js m).
    by rewrite JSON_parse_stringify by apply plain_json_store_to_js. }
  split; [done|]. rewrite Hload. apply events_of_js_to_js.
Qed.

Lemma save_then_load_witness :
  (@loadEventsFromStorage (@saveEventsToStorage utc_host two_day_store
                             (sample_world ∅ None))).1 = store_to_js two_day_store ∧
  events_of_js (@loadEventsFromStorage (@saveEventsToStorage utc_host two_day_store
                                          (sample_world ∅ None))).1 = Some two_day_store.
Proof.
  apply (@save_then_load utc_host two_day_store (sample_world ∅ None)). reflexivity.
Defined.

(** C8 as stated fails: on a host whose storage refuses the write,
    [saveEventsToStorage] logs the failure and stores nothing, and
    [loadEventsFromStorage] then returns the empty object, not the events
    that were to be saved. *)
Lemma save_then_load_refused :
  item (@saveEventsToStorage full_host morning_store (sample_world ∅ None)) = None ∧
  (@loadEventsFromStorage (@saveEventsToStorage full_host morning_store
                             (sample_world ∅ None))).1 = JObj [] ∧
  events_of_js (@loadEventsFromStorage (@saveEventsToStorage full_host morning_store
                                          (sample_world ∅ None))).1 = Some ∅ ∧
  (∅ : Store) ≠ morning_store ∧
  store_to_js morning_store ≠ JObj [].
Proof.
  split_and!; try reflexivity.
  - intros Heq. apply (f_equal (λ m : Store, m !! "2024-03-10")) in Heq. discriminate Heq.
  - intros Heq. vm_compute in Heq. discriminate Heq.
Qed.

(** ** More on saving *)

(** What [handleSaveEvent] leaves in the state when it accepts. *)
Lemma handleSaveEvent_accepted `{HostEnv} (w : World) (eventData : EventData) (rnd : string)
    (d : Date) (dayKey : string) :
  selectedDate (app w) = Some d →
  dateKeyOf d = Some dayKey →
  hasOverlap (default [] (events (app w) !! dayKey))
             (with_id eventData (newEventId (selectedEvent (app w)) rnd)) = false →
  app (handleSaveEvent eventData rnd w)
  = setIsEventModalOpen false (setSelectedEvent None (setEvents
      (<[dayKey :=
          match selectedEvent (app w) with
          | Some sel =>
              map (λ event, if String.eqb (id event) (id sel)
                            then with_id eventData (newEventId (selectedEvent (app w)) rnd)
                            else event)
                  (default [] (events (app w) !! dayKey))
          | None => default [] (events (app w) !! dayKey)
                    ++ [with_id eventData (newEventId (selectedEvent (app w)) rnd)]
          end]> (events (app w))) (app w))).
Proof.
  intros Hd Hkey Hfree. unfold handleSaveEvent. rewrite Hd, Hkey, Hfree.
  by rewrite app_useEffect_events.
Qed.

Lemma handleSaveEvent_rejected `{HostEnv} (w : World) (eventData : EventData) (rnd : string)
    (d : Date) (dayKey : string) :
  selectedDate (app w) = Some d →
  dateKeyOf d = Some dayKey →
  hasOverlap (default [] (events (app w) !! dayKey))
             (with_id eventData (newEventId (selectedEvent (app w)) rnd)) = true →
  handleSaveEvent eventData rnd w = observe [ObsAlert overlap_message] w.
Proof. intros Hd Hkey Hov. unfold handleSaveEvent. by rewrite Hd, Hkey, Hov. Qed.

(** X1. A save, accepted or not, touches no day but the selected one and leaves
    the selected date and the visible month alone. *)
Theorem handleSaveEvent_other_days `{HostEnv} (w : World) (eventData : EventData)
    (rnd : string) (d : Date) (dayKey k : string) :
  selectedDate (app w) = Some d →
  dateKeyOf d = Some dayKey →
  k ≠ dayKey →
  events (app (handleSaveEvent eventData rnd w)) !! k = events (app w) !! k ∧
  selectedDate (app (handleSaveEvent eventData rnd w)) = selectedDate (app w) ∧
  currentMonth (app (handleSaveEvent eventData rnd w)) = currentMonth (app w).
Proof.
  intros Hd Hkey Hk.
  destruct (hasOverlap (default [] (events (app w) !! dayKey))
              (with_id eventData (newEventId (selectedEvent (app w)) rnd))) eqn:Hov.
  - by rewrite (handleSaveEvent_rejected w eventData rnd d dayKey).
  - rewrite (handleSaveEvent_accepted w eventData rnd d dayKey) by done.
    cbn [events selectedDate currentMonth setIsEventModalOpen setSelectedEvent setEvents].
    by rewrite lookup_insert_ne.
Qed.

Lemma handleSaveEvent_other_days_witness :
  events (app (@handleSaveEvent utc_host (sample_data "09:00" "10:00") "ev3"
                 (sample_world two_day_store None))) !! "2024-03-11"
  = Some [sample_event "ev2" "08:30" "09:30"].
Proof.
  apply (@handleSaveEvent_other_days utc_host (sample_world two_day_store None)
           (sample_data "09:00" "10:00") "ev3" march_10 "2024-03-10" "2024-03-11").
  - reflexivity.
  - reflexivity.
  - discriminate.
Defined.

(** X2. A save while an event is selected that is not on the selected day (its
    identifier occurs on no event there) changes no event: the day keeps its
    list, gaining an empty one when it had none, the entered data is lost,
    and yet the selection is cleared and the modal closed as after any
    accepted save. *)
Theorem handleSaveEvent_selection_elsewhere `{HostEnv} (w : World) (eventData : EventData)
    (rnd : string) (d : Date) (dayKey : string) (sel : Event) :
  selectedDate (app w) = Some d →
  dateKeyOf d = Some dayKey →
  selectedEvent (app w) = Some sel →
  count_id (id sel) (default [] (events (app w) !! dayKey)) = 0%nat →
  hasOverlap (default [] (events (app w) !! dayKey))
             (with_id eventData (newEventId (Some sel) rnd)) = false →
  events (app (handleSaveEvent eventData rnd w)) !! dayKey
  = Some (default [] (events (app w) !! dayKey)) ∧
  selectedEvent (app (handleSaveEvent eventData rnd w)) = None ∧
  isEventModalOpen (app (handleSaveEvent eventData rnd w)) = false ∧
  trace (handleSaveEvent eventData rnd w)
  = trace w ++ [ObsSetItem (JSON_stringify (store_to_js
                  (events (app (handleSaveEvent eventData rnd w)))))]
    ++ (if setItem_accepts (JSON_stringify (store_to_js
                  (events (app (handleSaveEvent eventData rnd w)))))
        then [] else [ObsConsoleError "Error saving events to localStorage:"]).
Proof.
  intros Hd Hkey Hsel Hcount Hfree.
  pose proof (handleSaveEvent_accepted w eventData rnd d dayKey Hd Hkey) as Happ.
  rewrite Hsel in Happ. specialize (Happ Hfree).
  rewrite count_id_zero_replace in Happ by done. rewrite Happ.
  cbn [events selectedEvent isEventModalOpen setIsEventModalOpen setSelectedEvent setEvents].
  rewrite lookup_insert_eq. split_and!; try done.
  unfold handleSaveEvent. rewrite Hd, Hkey, Hsel, Hfree.
  rewrite count_id_zero_replace by done.
  unfold useEffect_events, saveEventsToStorage.
  cbn [app with_app events setIsEventModalOpen setSelectedEvent setEvents trace item].
  case_match; cbn [trace observe]; by rewrite ?app_nil_r.
Qed.

Lemma handleSaveEvent_selection_elsewhere_witness :
  events (app (@handleSaveEvent utc_host (sample_data "10:00" "11:00") "ev2"
                 (sample_world morning_store (Some gone_event)))) !! "2024-03-10"
  = Some [sample_event "ev1" "08:00" "09:00"].
Proof.
  apply (@handleSaveEvent_selection_elsewhere utc_host
           (sample_world morning_store (Some gone_event))
           (sample_data "10:00" "11:00") "ev2" march_10 "2024-03-10" gone_event);
    reflexivity.
Defined.

(** What the day holds after a save is the new event or was there before. *)
Lemma handleSaveEvent_day_events `{HostEnv} (w : World) (eventData : EventData) (rnd : string)
    (d : Date) (dayKey : string) (x : Event) :
  selectedDate (app w) = Some d →
  dateKeyOf d = Some dayKey →
  x ∈ default [] (events (app (handleSaveEvent eventData rnd w)) !! dayKey) →
  (x = with_id eventData (newEventId (selectedEvent (app w)) rnd)
   ∧ hasOverlap (default [] (events (app w) !! dayKey)) x = false)
  ∨ x ∈ default [] (events (app w) !! dayKey).
Proof.
  intros Hd Hkey.
  destruct (hasOverlap (default [] (events (app w) !! dayKey))
              (with_id eventData (newEventId (selectedEvent (app w)) rnd))) eqn:Hov.
  - rewrite (handleSaveEvent_rejected w eventData rnd d dayKey) by done. auto.
  - rewrite (handleSaveEvent_accepted w eventData rnd d dayKey) by done.
    cbn [events setIsEventModalOpen setSelectedEvent setEvents].
    rewrite lookup_insert_eq. unfold default; cbn [from_option Datatypes.id]; fold (@default (list Event)). destruct (selectedEvent (app w)) as [sel|].
    + intros Hx. apply list_elem_of_fmap in Hx as (y & -> & Hy).
      destruct (String.eqb (id y) (id sel)); auto.
    + intros Hx. apply elem_of_app in Hx as [Hx|Hx]; [auto|].
      apply list_elem_of_singleton in Hx as ->. auto.
Qed.

(** X3. A day on which no two events with different identifiers overlap stays
    so through every save, accepted or refused, edit or new event. *)
Theorem handleSaveEvent_overlap_free `{HostEnv} (w : World) (eventData : EventData)
    (rnd : string) (d : Date) (dayKey : string) :
  selectedDate (app w) = Some d →
  dateKeyOf d = Some dayKey →
  overlap_free (default [] (events (app w) !! dayKey)) →
  overlap_free (default [] (events (app (handleSaveEvent eventData rnd w)) !! dayKey)).
Proof.
  intros Hd Hkey Hfree a b Ha Hb Hid.
  apply (handleSaveEvent_day_events w eventData rnd d dayKey) in Ha as [[-> Hca]|Ha]; [| |done..];
    apply (handleSaveEvent_day_events w eventData rnd d dayKey) in Hb as [[-> Hcb]|Hb];
    try done.
  - apply (proj1 (hasOverlap_false _ _) Hca b Hb). congruence.
  - rewrite hasTimeOverlap_sym. by apply (proj1 (hasOverlap_false _ _) Hcb a Ha).
  - by apply Hfree.
Qed.

Lemma handleSaveEvent_overlap_free_witness :
  @overlap_free utc_host
    (default [] (events (app (@handleSaveEvent utc_host (sample_data "09:00" "10:00") "ev2"
                                (sample_world morning_store None))) !! "2024-03-10")).
Proof.
  apply (@handleSaveEvent_overlap_free utc_host (sample_world morning_store None)
           (sample_data "09:00" "10:00") "ev2" march_10 "2024-03-10").
  - reflexivity.
  - reflexivity.
  - intros a b Ha Hb Hid. apply list_elem_of_singleton in Ha as ->.
    apply list_elem_of_singleton in Hb as ->. by destruct Hid.
Defined.

Lemma map_id_replace (sel e : Event) (l : list Event) :
  id e = id sel →
  map id (map (λ event, if String.eqb (id event) (id sel) then e else event) l) = map id l.
Proof.
  intros He. induction l as [|x l IH]; [done|]. cbn [map]. rewrite IH. f_equal.
  destruct (String.eqb_spec (id x) (id sel)) as [Hx|Hx]; [|done]. by rewrite He, Hx.
Qed.

(** X4. Identifiers that are unique on the selected day stay unique through a
    save: an edit (of an event with a non-empty identifier) keeps every
    identifier in its place, and a new event brings an identifier that, when
    it is fresh, occurs nowhere else on the day. *)
Theorem handleSaveEvent_unique_ids `{HostEnv} (w : World) (eventData : EventData)
    (rnd : string) (d : Date) (dayKey : string) :
  selectedDate (app w) = Some d →
  dateKeyOf d = Some dayKey →
  NoDup (map id (default [] (events (app w) !! dayKey))) →
  (∀ sel, selectedEvent (app w) = Some sel → id sel ≠ EmptyString) →
  (selectedEvent (app w) = None → rnd ∉ map id (default [] (events (app w) !! dayKey))) →
  NoDup (map id (default [] (events (app (handleSaveEvent eventData rnd w)) !! dayKey))).
Proof.
  intros Hd Hkey Hnd Hsel Hfresh.
  destruct (hasOverlap (default [] (events (app w) !! dayKey))
              (with_id eventData (newEventId (selectedEvent (app w)) rnd))) eqn:Hov.
  - by rewrite (handleSaveEvent_rejected w eventData rnd d dayKey).
  - rewrite (handleSaveEvent_accepted w eventData rnd d dayKey) by done.
    cbn [events setIsEventModalOpen setSelectedEvent setEvents].
    rewrite lookup_insert_eq. unfold default; cbn [from_option Datatypes.id]; fold (@default (list Event)). destruct (selectedEvent (app w)) as [sel|].
    + rewrite map_id_replace; [done|]. cbn [newEventId with_id id].
      by rewrite (proj2 (String.eqb_neq _ _) (Hsel sel eq_refl)).
    + rewrite map_app. apply NoDup_app. split_and!; [done| |apply NoDup_singleton].
      intros x Hx Hx'. apply list_elem_of_singleton in Hx' as ->. by apply Hfresh.
Qed.

Lemma handleSaveEvent_unique_ids_witness :
  NoDup (map id (default [] (events (app (@handleSaveEvent utc_host
                   (sample_data "09:00" "10:00") "ev2"
                   (sample_world morning_store None))) !! "2024-03-10"))).
Proof.
  apply (@handleSaveEvent_unique_ids utc_host (sample_world morning_store None)
           (sample_data "09:00" "10:00") "ev2" march_10 "2024-03-10").
  - reflexivity.
  - reflexivity.
  - apply NoDup_singleton.
  - discriminate.
  - intros _ Hin. apply list_elem_of_singleton in Hin. discriminate Hin.
Defined.

(** ** More on deleting *)

Lemma count_id_filter_out (i : string) (l : list Event) :
  count_id i (filter (λ e, id e ≠ i) l) = 0%nat.
Proof.
  induction l as [|x l IH]; [done|]. destruct (decide (id x = i)) as [Hx|Hx].
  - by rewrite filter_cons_False by (intros Hne; by apply Hne).
  - rewrite filter_cons_True by done. rewrite count_id_cons, IH. by rewrite decide_False.
Qed.

Lemma filter_out_nil (i : string) (l : list Event) :
  filter (λ e, id e ≠ i) l = [] ↔ Forall (λ e, id e = i) l.
Proof.
  induction l as [|x l IH]; [done|]. destruct (decide (id x = i)) as [Hx|Hx].
  - rewrite filter_cons_False by (intros Hne; by apply Hne). rewrite IH.
    split; [by constructor|by inversion 1].
  - rewrite filter_cons_True by done. split; [done|by inversion 1].
Qed.

(** X5. Deleting removes from the selected day every event with the identifier
    of the given one and nothing else: the others stay in their order, the
    day's key goes when none is left, the other days are untouched, and the
    modal is closed. The selected event stays selected. *)
Theorem handleDeleteEvent_removes `{HostEnv} (ev : Event) (w : World) (d : Date)
    (dayKey : string) (dayEvents : list Event) :
  selectedDate (app w) = Some d →
  dateKeyOf d = Some dayKey →
  events (app w) !! dayKey = Some dayEvents →
  default [] (events (app (handleDeleteEvent (Some ev) w)) !! dayKey)
  = filter (λ e, id e ≠ id ev) dayEvents ∧
  count_id (id ev) (default [] (events (app (handleDeleteEvent (Some ev) w)) !! dayKey)) = 0%nat ∧
  (events (app (handleDeleteEvent (Some ev) w)) !! dayKey = None
   ↔ Forall (λ e, id e = id ev) dayEvents) ∧
  (∀ k, k ≠ dayKey →
        events (app (handleDeleteEvent (Some ev) w)) !! k = events (app w) !! k) ∧
  isEventModalOpen (app (handleDeleteEvent (Some ev) w)) = false ∧
  selectedEvent (app (handleDeleteEvent (Some ev) w)) = selectedEvent (app w).
Proof.
  intros Hd Hkey Hday. unfold handleDeleteEvent. rewrite Hd, Hkey, Hday.
  rewrite app_useEffect_events, app_saveEventsToStorage.
  cbn [app with_app events setEvents setIsEventModalOpen isEventModalOpen selectedEvent].
  set (kept := filter (λ e, id e ≠ id ev) dayEvents).
  assert (kept = [] ↔ Forall (λ e, id e = id ev) dayEvents) as Hempty
    by apply filter_out_nil.
  assert (default [] ((if (length kept =? 0)%nat
                       then delete dayKey (<[dayKey := kept]> (events (app w)))
                       else <[dayKey := kept]> (events (app w))) !! dayKey) = kept) as Hafter.
  { destruct (Nat.eqb_spec (length kept) 0) as [Hz|Hnz].
    - rewrite lookup_delete_eq. by rewrite (nil_length_inv _ Hz).
    - by rewrite lookup_insert_eq. }
  split_and!.
  - done.
  - rewrite Hafter. apply count_id_filter_out.
  - rewrite <- Hempty. destruct (Nat.eqb_spec (length kept) 0) as [Hz|Hnz].
    + rewrite lookup_delete_eq. split; [intros _; by apply nil_length_inv|done].
    + rewrite lookup_insert_eq. split; [done|]. intros Hnil. by rewrite Hnil in Hnz.
  - intros k Hk. destruct (length kept =? 0)%nat.
    + by rewrite lookup_delete_ne, lookup_insert_ne.
    + by rewrite lookup_insert_ne.
  - done.
  - done.
Qed.

Lemma handleDeleteEvent_removes_witness :
  default [] (events (app (@handleDeleteEvent utc_host
                             (Some (sample_event "ev1" "08:00" "09:00"))
                             (sample_world multiline_store None))) !! "2024-03-10")
  = [multiline_event].
Proof.
  apply (@handleDeleteEvent_removes utc_host (sample_event "ev1" "08:00" "09:00")
           (sample_world multiline_store None) march_10 "2024-03-10"
           [sample_event "ev1" "08:00" "09:00"; multiline_event]); reflexivity.
Defined.

(** X6. Deleting on a day that has no list at all ends in a [TypeError]:
    nothing is set, so that the events, the storage and the open modal stay
    as they were. *)
Theorem handleDeleteEvent_missing_day `{HostEnv} (ev : Event) (w : World) (d : Date)
    (dayKey : string) :
  selectedDate (app w) = Some d →
  dateKeyOf d = Some dayKey →
  events (app w) !! dayKey = None →
  app (handleDeleteEvent (Some ev) w) = app w ∧
  item (handleDeleteEvent (Some ev) w) = item w ∧
  trace (handleDeleteEvent (Some ev) w) = trace w ++ [ObsUncaught TypeError].
Proof. intros Hd Hkey Hday. unfold handleDeleteEvent. by rewrite Hd, Hkey, Hday. Qed.

Lemma handleDeleteEvent_missing_day_witness :
  app (@handleDeleteEvent utc_host (Some gone_event) (sample_world ∅ (Some gone_event)))
  = sample_app ∅ (Some gone_event).
Proof.
  apply (@handleDeleteEvent_missing_day utc_host gone_event
           (sample_world ∅ (Some gone_event)) march_10 "2024-03-10"); reflexivity.
Defined.

(** ** More on dragging *)

Lemma list_sum_Permutation (l1 l2 : list nat) : l1 ≡ₚ l2 → list_sum l1 = list_sum l2.
Proof. induction 1; simpl; lia. Qed.

Lemma store_count_fresh (i k : string) (l : list Event) (m : Store) :
  m !! k = None → store_count i (<[k := l]> m) = (count_id i l + store_count i m)%nat.
Proof.
  intros Hk. unfold store_count.
  rewrite (list_sum_Permutation _ _
             (fmap_Permutation _ _ _ (map_to_list_insert m k l Hk))).
  done.
Qed.

Lemma store_count_insert (i k : string) (l : list Event) (m : Store) :
  (store_count i (<[k := l]> m) + count_id i (default [] (m !! k))
   = store_count i m + count_id i l)%nat.
Proof.
  destruct (m !! k) as [l0|] eqn:Hk; unfold default; cbn [from_option Datatypes.id].
  - pose proof (store_count_fresh i k l0 (delete k m) (lookup_delete_eq _ _)) as E1.
    pose proof (store_count_fresh i k l (delete k m) (lookup_delete_eq _ _)) as E2.
    rewrite insert_delete_id in E1 by done. rewrite insert_delete_eq in E2. lia.
  - rewrite store_count_fresh by done. change (count_id i []) with 0%nat. lia.
Qed.

(** What [handleEventDragEnd] does when it moves an event. *)
Lemma handleEventDragEnd_moved `{HostEnv} (w : World) (s d : string) (i j : nat)
    (ls : list Event) (ev : Event) :
  events (app w) !! s = Some ls →
  ls !! i = Some ev →
  ¬ (s = d ∧ i = j) →
  handleEventDragEnd (mkDropResult (mkLocation s i) (Some (mkLocation d j))) w
  = let removed := <[s := delete i ls]> (events (app w)) in
    let before := default [] (removed !! d) in
    let newEvents := <[d := take j before ++ ev :: drop j before]> removed in
    Some (useEffect_events
            (saveEventsToStorage newEvents (with_app (setEvents newEvents (app w)) w))).
Proof.
  intros Hs Hi Hne. unfold handleEventDragEnd. cbn [destination source droppableId index].
  replace (bool_decide (s = d) && (i =? j)%nat) with false.
  2: { symmetry. apply andb_false_iff. destruct (decide (s = d)) as [->|Hsd].
       - right. apply Nat.eqb_neq. naive_solver.
       - left. by apply bool_decide_eq_false_2. }
  rewrite Hs, (splice_remove_one _ _ _ Hi). rewrite splice_insert_one. cbv zeta.
  destruct (<[s := delete i ls]> (events (app w)) !! d) as [l|] eqn:Hd.
  - by rewrite Hd.
  - rewrite lookup_insert_eq. cbn. by rewrite insert_insert_eq.
Qed.

Lemma count_id_take_drop (x : string) (l : list Event) (j : nat) (ev : Event) :
  count_id x (take j l ++ ev :: drop j l) = count_id x (ev :: l).
Proof.
  rewrite count_id_app, !count_id_cons.
  rewrite <- (take_drop j l) at 3. rewrite count_id_app. lia.
Qed.

Lemma count_id_delete (x : string) (l : list Event) (i : nat) (ev : Event) :
  l !! i = Some ev → count_id x (ev :: delete i l) = count_id x l.
Proof.
  intros Hi. rewrite delete_take_drop. rewrite <- (take_drop_middle l i ev Hi) at 3.
  rewrite !count_id_app, !count_id_cons, count_id_app. lia.
Qed.

(** X7. A drag neither loses nor doubles an event: for every identifier, as
    many events of the store that the handler sets carry it as did before
    the move. The selection, the modal and the visible month stay as they
    were, and the first thing to happen after the move is the handler's own
    write of that store to the storage. *)
Theorem handleEventDragEnd_conserves `{HostEnv} (w : World) (s d : string) (i j : nat)
    (ls : list Event) (ev : Event) :
  events (app w) !! s = Some ls →
  ls !! i = Some ev →
  ¬ (s = d ∧ i = j) →
  ∃ w', handleEventDragEnd (mkDropResult (mkLocation s i) (Some (mkLocation d j))) w = Some w' ∧
    (∀ x, store_count x (events (app w')) = store_count x (events (app w))) ∧
    app w' = setEvents (events (app w')) (app w) ∧
    ∃ later, trace w'
             = trace w ++ ObsSetItem (JSON_stringify (store_to_js (events (app w')))) :: later.
Proof.
  intros Hs Hi Hne. eexists. split; [by apply handleEventDragEnd_moved|]. cbv zeta.
  rewrite app_useEffect_events, app_saveEventsToStorage.
  cbn [app with_app events setEvents].
  set (removed := <[s := delete i ls]> (events (app w))).
  set (before := default [] (removed !! d)).
  set (newEvents := <[d := take j before ++ ev :: drop j before]> removed).
  split_and!.
  - intros x.
    pose proof (store_count_insert x d (take j before ++ ev :: drop j before) removed) as H1.
    pose proof (store_count_insert x s (delete i ls) (events (app w))) as H2.
    fold removed before newEvents in H1. fold removed in H2. rewrite Hs in H2.
    change (default [] (Some ls)) with ls in H2.
    rewrite count_id_take_drop in H1.
    pose proof (count_id_delete x ls i ev Hi) as H3.
    rewrite count_id_cons in H1, H3. lia.
  - done.
  - unfold useEffect_events. rewrite app_saveEventsToStorage.
    cbn [app with_app events setEvents]. fold removed before newEvents.
    unfold saveEventsToStorage.
    destruct (setItem_accepts (JSON_stringify (store_to_js newEvents)));
      cbn [trace observe with_app]; eexists; by rewrite <- ?app_assoc.
Qed.

Lemma handleEventDragEnd_conserves_witness :
  ∃ w', @handleEventDragEnd utc_host
          (mkDropResult (mkLocation "2024-03-10" 0) (Some (mkLocation "2024-03-11" 1)))
          (sample_world two_day_store None) = Some w'
        ∧ ∀ x, store_count x (events (app w')) = store_count x two_day_store.
Proof.
  destruct (@handleEventDragEnd_conserves utc_host (sample_world two_day_store None)
              "2024-03-10" "2024-03-11" 0 1
              [sample_event "ev1" "08:00" "09:00"] (sample_event "ev1" "08:00" "09:00"))
    as (w' & Hrun & Hcount & _).
  - reflexivity.
  - reflexivity.
  - intros [Heq _]. discriminate Heq.
  - exists w'. split; [exact Hrun|exact Hcount].
Defined.

(** X8. A drag, other than a drop in place, from a day that has no list
    ends in an uncaught [TypeError] before any state is set: events,
    selection and storage stay as they were. *)
Theorem handleEventDragEnd_missing_day `{HostEnv} (w : World) (s d : string) (i j : nat) :
  ¬ (s = d ∧ i = j) →
  events (app w) !! s = None →
  ∃ w', handleEventDragEnd (mkDropResult (mkLocation s i) (Some (mkLocation d j))) w = Some w' ∧
    app w' = app w ∧ item w' = item w ∧ trace w' = trace w ++ [ObsUncaught TypeError].
Proof.
  intros Hne Hs. unfold handleEventDragEnd. cbn [destination source droppableId index].
  replace (bool_decide (s = d) && (i =? j)%nat) with false.
  2: { symmetry. apply andb_false_iff. destruct (decide (s = d)) as [->|Hsd].
       - right. apply Nat.eqb_neq. naive_solver.
       - left. by apply bool_decide_eq_false_2. }
  rewrite Hs. by eexists.
Qed.

Lemma handleEventDragEnd_missing_day_witness :
  ∃ w', @handleEventDragEnd utc_host
          (mkDropResult (mkLocation "2024-03-12" 0) (Some (mkLocation "2024-03-11" 0)))
          (sample_world two_day_store None) = Some w'
        ∧ app w' = sample_app two_day_store None.
Proof.
  destruct (@handleEventDragEnd_missing_day utc_host (sample_world two_day_store None)
              "2024-03-12" "2024-03-11" 0 0) as (w' & Hrun & Happ & _).
  - intros [Heq _]. discriminate Heq.
  - reflexivity.
  - exists w'. split; [exact Hrun|exact Happ].
Defined.

(** ** The grid's draggables and the drag handler *)

Lemma handleEventDragEnd_moved_to `{HostEnv} (w : World) (s d : string) (i j : nat)
    (ls : list Event) (ev : Event) :
  events (app w) !! s = Some ls →
  ls !! i = Some ev →
  ¬ (s = d ∧ i = j) →
  ∃ w', handleEventDragEnd (mkDropResult (mkLocation s i) (Some (mkLocation d j))) w = Some w' ∧
    events (app w') !! d
    = Some (take j (default [] (<[s := delete i ls]> (events (app w)) !! d)) ++
            ev :: drop j (default [] (<[s := delete i ls]> (events (app w)) !! d))) ∧
    (s ≠ d → events (app w') !! s = Some (delete i ls)).
Proof.
  intros Hs Hi Hne. eexists. split; [by apply handleEventDragEnd_moved|]. cbv zeta.
  rewrite app_useEffect_events, app_saveEventsToStorage.
  cbn [app with_app events setEvents]. split.
  - by rewrite lookup_insert_eq.
  - intros Hsd. rewrite lookup_insert_ne by done. by rewrite lookup_insert_eq.
Qed.

(** X9. Each day of the grid shows the first two events that pass the search
    as draggables, numbered 0 and 1, and the drag handler takes the number
    of the dragged one as an index into the day's whole list. When the
    search hides no event of the day (as when there is no search), the event
    that moves is the one that was dragged. *)
Theorem handleEventDragEnd_moves_dragged `{HostEnv} (w : World) (q s d : string) (i j : nat)
    (ls : list Event) (shown : Event) :
  events (app w) !! s = Some ls →
  getFilteredEvents q ls = ls →
  draggables q ls !! i = Some shown →
  ¬ (s = d ∧ i = j) →
  ∃ w', handleEventDragEnd (mkDropResult (mkLocation s i) (Some (mkLocation d j))) w = Some w' ∧
    events (app w') !! d
    = Some (take j (default [] (<[s := delete i ls]> (events (app w)) !! d)) ++
            shown :: drop j (default [] (<[s := delete i ls]> (events (app w)) !! d))) ∧
    (s ≠ d → events (app w') !! s = Some (delete i ls)).
Proof.
  intros Hs Hall Hshown Hne. unfold draggables in Hshown. rewrite Hall in Hshown.
  apply lookup_take_Some in Hshown as [Hi _].
  by apply handleEventDragEnd_moved_to.
Qed.

Lemma handleEventDragEnd_moves_dragged_witness :
  ∃ w', @handleEventDragEnd utc_host
          (mkDropResult (mkLocation "2024-03-10" 1) (Some (mkLocation "2024-03-11" 0)))
          (sample_world multiline_store None) = Some w'
        ∧ events (app w') !! "2024-03-11" = Some [multiline_event].
Proof.
  destruct (@handleEventDragEnd_moves_dragged utc_host (sample_world multiline_store None)
              EmptyString "2024-03-10" "2024-03-11" 1 0
              [sample_event "ev1" "08:00" "09:00"; multiline_event] multiline_event)
    as (w' & Hrun & Hdest & _).
  - reflexivity.
  - reflexivity.
  - reflexivity.
  - intros [Heq _]. discriminate Heq.
  - exists w'. split; [exact Hrun|exact Hdest].
Defined.

Lemma getFilteredEvents_hidden_head (q : string) (hid : Event) (rest : list Event) :
  getFilteredEvents q [hid] = [] →
  getFilteredEvents q (hid :: rest) = getFilteredEvents q rest ∧
  ∀ x, x ∈ getFilteredEvents q rest → x ∈ rest ∧ x ≠ hid.
Proof.
  unfold getFilteredEvents. destruct (String.eqb q EmptyString); [done|].
  cbn [List.filter].
  destruct (includes (toLowerCase (title hid)) (toLowerCase q)
            || includes (toLowerCase (default EmptyString (description hid))) (toLowerCase q))
    eqn:Hhid; [done|].
  intros _. split; [done|]. intros x Hx.
  apply list_elem_of_In, filter_In in Hx as [Hin Hpass]. split; [by apply list_elem_of_In|].
  intros ->. by rewrite Hhid in Hpass.
Qed.

(** X10. When the search hides the first event of a day, the draggable numbered
    0 shows a later event of the day, and dragging it to another day moves
    the hidden first event instead: the dragged event stays where it was. *)
Theorem handleEventDragEnd_moves_hidden `{HostEnv} (w : World) (q s d : string) (j : nat)
    (hid shown : Event) (rest : list Event) :
  events (app w) !! s = Some (hid :: rest) →
  getFilteredEvents q [hid] = [] →
  draggables q (hid :: rest) !! 0%nat = Some shown →
  s ≠ d →
  ∃ w', handleEventDragEnd (mkDropResult (mkLocation s 0) (Some (mkLocation d j))) w = Some w' ∧
    events (app w') !! d
    = Some (take j (default [] (events (app w) !! d)) ++
            hid :: drop j (default [] (events (app w) !! d))) ∧
    events (app w') !! s = Some rest ∧
    shown ∈ rest ∧ shown ≠ hid.
Proof.
  intros Hs Hhid Hshown Hsd.
  destruct (getFilteredEvents_hidden_head q hid rest Hhid) as [Heq Hrest].
  unfold draggables in Hshown. rewrite Heq in Hshown.
  apply lookup_take_Some in Hshown as [Hshown _].
  apply list_elem_of_lookup_2, Hrest in Hshown as [Hin Hne].
  destruct (handleEventDragEnd_moved_to w s d 0 j (hid :: rest) hid Hs eq_refl)
    as (w' & Hrun & Hdest & Hsrc); [by intros [Hsame _]|].
  exists w'. rewrite lookup_insert_ne in Hdest by done. split_and!; auto.
Qed.

Lemma handleEventDragEnd_moves_hidden_witness :
  ∃ w', @handleEventDragEnd utc_host
          (mkDropResult (mkLocation "2024-03-10" 0) (Some (mkLocation "2024-03-11" 0)))
          (sample_world multiline_store None) = Some w'
        ∧ events (app w') !! "2024-03-11" = Some [sample_event "ev1" "08:00" "09:00"]
        ∧ events (app w') !! "2024-03-10" = Some [multiline_event].
Proof.
  destruct (@handleEventDragEnd_moves_hidden utc_host (sample_world multiline_store None)
              "NOTES" "2024-03-10" "2024-03-11" 0
              (sample_event "ev1" "08:00" "09:00") multiline_event [multiline_event])
    as (w' & Hrun & Hdest & Hsrc & _).
  - reflexivity.
  - reflexivity.
  - reflexivity.
  - discriminate.
  - exists w'. split; [exact Hrun|]. split; [exact Hdest|exact Hsrc].
Defined.

(** ** The storage follows the state *)

Lemma loadEventsFromStorage_saved `{HostEnv} (m : Store) (w : World) :
  setItem_accepts (JSON_stringify (store_to_js m)) = true →
  events_of_js (loadEventsFromStorage (saveEventsToStorage m w)).1 = Some m.
Proof.
  intros Hok.
  assert ((loadEventsFromStorage (saveEventsToStorage m w)).1 = store_to_js m) as ->.
  { unfold saveEventsToStorage. rewrite Hok. unfold loadEventsFromStorage. cbn [item].
    unfold store_to_js at 1. rewrite JSON_stringify_nonempty. fold (store_to_js m).
    by rewrite JSON_parse_stringify by apply plain_json_store_to_js. }
  apply events_of_js_to_js.
Qed.

Lemma in_sync_useEffect_events `{HostEnv} (w : World) :
  (∀ text, setItem_accepts text = true) → in_sync (useEffect_events w).
Proof.
  intros Hok. unfold in_sync. rewrite app_useEffect_events.
  by apply loadEventsFromStorage_saved.
Qed.

Lemma in_sync_observe `{HostEnv} (o : list Obs) (w : World) :
  in_sync w → in_sync (observe o w).
Proof.
  unfold in_sync, loadEventsFromStorage, observe. cbn [item app].
  destruct (item w) as [t|]; [|done]. destruct (String.eqb t EmptyString); [done|].
  by destruct (JSON_parse t).
Qed.

(** X11. On a host whose storage takes every write, what is in the storage is
    the store of the state after every handler that changes events, whenever
    it was so before: loading after a save, a delete or a drag gives the
    events the calendar shows. *)
Theorem handlers_keep_in_sync `{HostEnv} (w : World) :
  (∀ text, setItem_accepts text = true) →
  in_sync w →
  (∀ eventData rnd, in_sync (handleSaveEvent eventData rnd w)) ∧
  (∀ event, in_sync (handleDeleteEvent event w)) ∧
  (∀ result w', handleEventDragEnd result w = Some w' → in_sync w').
Proof.
  intros Hok Hw. split_and!.
  - intros eventData rnd. unfold handleSaveEvent.
    repeat case_match; try done; try (by apply in_sync_observe);
      by apply in_sync_useEffect_events.
  - intros event. unfold handleDeleteEvent.
    repeat case_match; try done; try (by apply in_sync_observe);
      by apply in_sync_useEffect_events.
  - intros result w'. unfold handleEventDragEnd.
    repeat case_match; intros [= <-]; try done; try (by apply in_sync_observe);
      by apply in_sync_useEffect_events.
Qed.

Lemma handlers_keep_in_sync_witness :
  @in_sync utc_host (@handleSaveEvent utc_host (sample_data "09:00" "10:00") "ev2"
                       (sample_world ∅ None)).
Proof.
  destruct (@handlers_keep_in_sync utc_host (sample_world ∅ None)) as [Hsave _].
  - reflexivity.
  - reflexivity.
  - exact (Hsave (sample_data "09:00" "10:00") "ev2").
Defined.

(** ** The search *)

Lemma strip_prefix_spec (p s r : string) : strip_prefix p s = Some r ↔ s = p +:+ r.
Proof.
  revert s. induction p as [|a p IH]; intros s.
  - rewrite app_empty_l. destruct s; cbn [strip_prefix]; split; congruence.
  - rewrite app_String. destruct s as [|b s]; cbn [strip_prefix]; [split; discriminate|].
    destruct (Ascii.eqb_spec a b) as [->|Hne].
    + rewrite IH. split; congruence.
    + split; congruence.
Qed.

Lemma includes_unfold (s q : string) :
  includes s q = match strip_prefix q s with
                 | Some _ => true
                 | None => match s with
                           | EmptyString => false
                           | String _ r => includes r q
                           end
                 end.
Proof. by destruct s. Qed.

Lemma includes_spec (s q : string) : includes s q = true ↔ occurs q s.
Proof.
  unfold occurs. split.
  - induction s as [|c s IH]; cbn [includes].
    + destruct (strip_prefix q EmptyString) as [r|] eqn:Hr; [|discriminate].
      intros _. apply strip_prefix_spec in Hr. by exists EmptyString, r.
    + destruct (strip_prefix q (String c s)) as [r|] eqn:Hr.
      * intros _. apply strip_prefix_spec in Hr. by exists EmptyString, r.
      * intros (a & b & ->)%IH. by exists (String c a), b.
  - intros (a & b & ->). induction a as [|c a IH].
    + rewrite app_empty_l.
      assert (strip_prefix q (q +:+ b) = Some b) as Hr by by apply strip_prefix_spec.
      by rewrite includes_unfold, Hr.
    + rewrite app_String. cbn [includes]. rewrite IH. by case_match.
Qed.

Lemma toLowerCase_app (a b : string) :
  toLowerCase (a +:+ b) = toLowerCase a +:+ toLowerCase b.
Proof.
  induction a as [|c a IH]; [done|].
  rewrite app_String. cbn [toLowerCase]. by rewrite app_String, IH.
Qed.

Lemma toLowerCase_empty (s : string) : toLowerCase s = EmptyString ↔ s = EmptyString.
Proof. by destruct s. Qed.

Lemma occurs_empty (s : string) : occurs EmptyString s.
Proof. by exists EmptyString, s. Qed.

(** X12. The search keeps, in their order, exactly the events in whose title or
    description the query occurs, both read in lower case; a missing
    description counts as empty, and the empty query keeps every event. *)
Theorem getFilteredEvents_spec (q : string) (l : list Event) :
  (∀ x, x ∈ getFilteredEvents q l ↔
        x ∈ l ∧ (occurs (toLowerCase q) (toLowerCase (title x))
                 ∨ occurs (toLowerCase q)
                          (toLowerCase (default EmptyString (description x))))) ∧
  sublist (getFilteredEvents q l) l.
Proof.
  unfold getFilteredEvents. destruct (String.eqb_spec q EmptyString) as [->|Hq].
  - split; [|done]. intros x. split; [|tauto]. intros Hx. split; [done|].
    left. apply occurs_empty.
  - split.
    + intros x. rewrite list_elem_of_In, filter_In, <- list_elem_of_In.
      by rewrite orb_true_iff, !includes_spec.
    + induction l as [|x l IH]; [done|]. cbn [List.filter].
      case_match; by constructor.
Qed.

Lemma getFilteredEvents_spec_witness :
  sublist (getFilteredEvents "notes" [sample_event "ev1" "08:00" "09:00"; multiline_event])
          [sample_event "ev1" "08:00" "09:00"; multiline_event].
Proof.
  apply (getFilteredEvents_spec "notes" [sample_event "ev1" "08:00" "09:00"; multiline_event]).
Defined.

(** X13. The search does not look at the case of the query: two queries with
    the same lower-case form keep the same events. *)
Theorem getFilteredEvents_any_case (q1 q2 : string) (l : list Event) :
  toLowerCase q1 = toLowerCase q2 →
  getFilteredEvents q1 l = getFilteredEvents q2 l.
Proof.
  intros Hq. unfold getFilteredEvents. rewrite <- Hq.
  destruct (String.eqb_spec q1 EmptyString) as [->|H1].
  - symmetry in Hq. change (toLowerCase q2 = EmptyString) in Hq.
    by apply (proj1 (toLowerCase_empty q2)) in Hq as ->.
  - destruct (String.eqb_spec q2 EmptyString) as [->|H2]; [|done].
    change (toLowerCase q1 = EmptyString) in Hq.
    by apply (proj1 (toLowerCase_empty q1)) in Hq.
Qed.

Lemma getFilteredEvents_any_case_witness :
  getFilteredEvents "NOTES" [sample_event "ev1" "08:00" "09:00"; multiline_event]
  = getFilteredEvents "notes" [sample_event "ev1" "08:00" "09:00"; multiline_event].
Proof. apply (getFilteredEvents_any_case "NOTES" "notes"). reflexivity. Defined.

(** ** Times that are no times *)

(** X14. An event one of whose times the [Date] constructor does not read (an
    hour past 24, say) overlaps with nothing, so that the check before
    saving never refuses it, whatever the day already holds. *)
Theorem hasOverlap_invalid_time `{HostEnv} (existingEvents : list Event) (e : Event) :
  Date_on_2000_01_01 (startTime e) = None ∨ Date_on_2000_01_01 (endTime e) = None →
  hasOverlap existingEvents e = false ∧
  ∀ other, hasTimeOverlap e other = false ∧ hasTimeOverlap other e = false.
Proof.
  intros Hbad.
  assert (∀ other, hasTimeOverlap e other = false ∧ hasTimeOverlap other e = false) as Hno.
  { intros other. unfold hasTimeOverlap, num_gt, num_lt. cbv zeta.
    destruct Hbad as [-> | ->];
      destruct (Date_on_2000_01_01 (startTime other)), (Date_on_2000_01_01 (endTime other)),
               (Date_on_2000_01_01 (startTime e)), (Date_on_2000_01_01 (endTime e));
      cbn; rewrite ?andb_false_r; done. }
  split; [|done]. apply hasOverlap_false. intros other _ _. apply Hno.
Qed.

Lemma hasOverlap_invalid_time_witness :
  @hasOverlap utc_host [sample_event "ev1" "08:00" "09:00"]
    (sample_event "ev2" "08:30" "25:00") = false.
Proof.
  apply (@hasOverlap_invalid_time utc_host [sample_event "ev1" "08:00" "09:00"]
           (sample_event "ev2" "08:30" "25:00")).
  right. reflexivity.
Defined.

(** ** Days of the calendar and the marks of a cell *)

Lemma same_Day_fields (a b : Z) :
  ES.Day a = ES.Day b →
  ES.YearFromTime a = ES.YearFromTime b ∧ ES.MonthFromTime a = ES.MonthFromTime b
  ∧ ES.DateFromTime a = ES.DateFromTime b.
Proof.
  unfold ES.DateFromTime, ES.MonthFromTime, ES.DayWithinYear, ES.InLeapYear, ES.YearFromTime.
  by intros ->.
Qed.

Lemma Day_of_fields (t : Z) :
  ES.Day t = ES.MakeDay (ES.YearFromTime t) (ES.MonthFromTime t) (ES.DateFromTime t).
Proof. rewrite MakeDay_fields. lia. Qed.

Lemma num_eq_Some (x y : Z) : num_eq (Some x) (Some y) = true ↔ x = y.
Proof. apply Z.eqb_eq. Qed.

Lemma same_fields_same_Day (a b : Z) :
  (ES.DateFromTime a =? ES.DateFromTime b)
  && (ES.MonthFromTime a =? ES.MonthFromTime b)
  && (ES.YearFromTime a =? ES.YearFromTime b) = true
  ↔ ES.Day a = ES.Day b.
Proof.
  rewrite !andb_true_iff, !Z.eqb_eq. split.
  - intros [[Hd Hm] Hy]. rewrite (Day_of_fields a), (Day_of_fields b). congruence.
  - intros Hday. destruct (same_Day_fields a b Hday) as (? & ? & ?). done.
Qed.

(** X15. A cell is marked as selected, or as today, exactly when its date and
    the selected date, or today, fall on the same day of the local calendar,
    whatever their times of day; nothing is selected without a selection. *)
Theorem isSelected_same_day `{HostEnv} (a b : Z) :
  (isSelected (Some (Some a)) (Some b) = true
   ↔ ES.Day (ES.LocalTime b) = ES.Day (ES.LocalTime a)) ∧
  (isToday (Some a) (Some b) = true
   ↔ ES.Day (ES.LocalTime b) = ES.Day (ES.LocalTime a)) ∧
  isSelected None (Some b) = false ∧
  isSelected (Some None) (Some b) = false.
Proof.
  split_and!; try reflexivity.
  - apply same_fields_same_Day.
  - apply same_fields_same_Day.
Qed.

Lemma isSelected_same_day_witness :
  @isSelected utc_host (Some (Some 1710028800000)) (Some 1710070000000) = true
  ↔ ES.Day (@ES.LocalTime utc_host 1710070000000) = ES.Day (@ES.LocalTime utc_host 1710028800000).
Proof. apply (@isSelected_same_day utc_host 1710028800000 1710070000000). Defined.

(** ** Changing the month *)

Section NavigationProofs.
Context `{HostEnv}.

Lemma currentMonth_handleMonthChange (date : Date) (w : World) :
  currentMonth (app (handleMonthChange date w)) = date.
Proof. unfold handleMonthChange. by repeat case_match. Qed.

Lemma MakeDay_norm (y m dt : Z) : ES.MakeDay y m dt = ES.MakeDay (y + m / 12) (m mod 12) dt.
Proof.
  unfold ES.MakeDay. cbv zeta.
  rewrite Z.mod_mod by lia. rewrite (Z.div_small (m mod 12)) by (apply Z.mod_pos_bound; lia).
  by rewrite Z.add_0_r.
Qed.

(** The first of month [m] (any integer, counted from January of [y]) for
    a year that the constructor takes as it is. *)
Lemma first_of_month (y m : Z) :
  ¬ (0 ≤ y ≤ 99) → -271820 ≤ y + m / 12 ≤ 275759 →
  let d := Date_ymd (Some y) (Some m) (Some 1) in
  d = Some (local_midnight (ES.MakeDay y m 1)) ∧
  getFullYear d = Some (y + m / 12) ∧ getMonth d = Some (m mod 12) ∧ getDate d = Some 1.
Proof.
  intros Hq Hy d. pose proof (Z.mod_pos_bound m 12 ltac:(lia)) as Hm.
  pose proof (DaysInMonth_range (y + m / 12) (m mod 12)) as Hn.
  assert (d = Some (local_midnight (ES.MakeDay y m 1))) as Hd.
  { unfold d. rewrite Date_ymd_local_midnight.
    replace ((0 <=? y) && (y <=? 99)) with false
      by (symmetry; apply andb_false_iff; rewrite Z.leb_gt, Z.leb_gt; lia).
    rewrite MakeDay_norm.
    destruct (MakeDay_first_range (y + m / 12) (m mod 12)) as [Hlo Hhi]; [lia|lia|].
    by rewrite TimeClip_local_midnight by lia. }
  split; [exact Hd|]. rewrite Hd, MakeDay_norm. apply fields_local_midnight; lia.
Qed.

Lemma first_of_next_month (t : Z) :
  let y := ES.YearFromTime (ES.LocalTime t) in
  let m := ES.MonthFromTime (ES.LocalTime t) in
  100 < y < 275759 →
  let d := Date_ymd (getFullYear (Some t)) (num_add (getMonth (Some t)) (Some 1)) (Some 1) in
  d = Some (local_midnight (ES.MakeDay y (m + 1) 1)) ∧
  getFullYear d = Some (if m =? 11 then y + 1 else y) ∧
  getMonth d = Some (if m =? 11 then 0 else m + 1) ∧ getDate d = Some 1.
Proof.
  intros y m Hy d. pose proof (MonthFromTime_range (ES.LocalTime t)) as Hm. fold m in Hm.
  assert ((m + 1) / 12 = (if m =? 11 then 1 else 0)
          ∧ (m + 1) mod 12 = (if m =? 11 then 0 else m + 1)) as [Hdiv Hmod]
    by (destruct (Z.eqb_spec m 11); div_lia).
  destruct (first_of_month y (m + 1)) as (H1 & H2 & H3 & H4);
    [lia|destruct (m =? 11); lia|].
  rewrite Hmod in H3. rewrite Hdiv in H2. unfold d.
  change (getFullYear (Some t)) with (Some y). change (getMonth (Some t)) with (Some m).
  change (num_add (Some m) (Some 1)) with (Some (m + 1)).
  split_and!; try done. rewrite H2. destruct (m =? 11); f_equal; lia.
Qed.

Lemma first_of_prev_month (t : Z) :
  let y := ES.YearFromTime (ES.LocalTime t) in
  let m := ES.MonthFromTime (ES.LocalTime t) in
  100 < y < 275759 →
  let d := Date_ymd (getFullYear (Some t)) (num_sub (getMonth (Some t)) (Some 1)) (Some 1) in
  d = Some (local_midnight (ES.MakeDay y (m - 1) 1)) ∧
  getFullYear d = Some (if m =? 0 then y - 1 else y) ∧
  getMonth d = Some (if m =? 0 then 11 else m - 1) ∧ getDate d = Some 1.
Proof.
  intros y m Hy d. pose proof (MonthFromTime_range (ES.LocalTime t)) as Hm. fold m in Hm.
  assert ((m - 1) / 12 = (if m =? 0 then -1 else 0)
          ∧ (m - 1) mod 12 = (if m =? 0 then 11 else m - 1)) as [Hdiv Hmod]
    by (destruct (Z.eqb_spec m 0); div_lia).
  destruct (first_of_month y (m - 1)) as (H1 & H2 & H3 & H4);
    [lia|destruct (m =? 0); lia|].
  rewrite Hmod in H3. rewrite Hdiv in H2. unfold d.
  change (getFullYear (Some t)) with (Some y). change (getMonth (Some t)) with (Some m).
  change (num_sub (Some m) (Some 1)) with (Some (m - 1)).
  split_and!; try done. rewrite H2. destruct (m =? 0); f_equal; lia.
Qed.

(** X16. The arrows of the header. From a month of a year after 100, Next shows
    the first day of the following month (January of the next year after
    December) and Previous the first day of the month before; one after the
    other, in either order, they show the first day of the month they
    started from. A date selected in the month that was shown is deselected
    by either arrow, and the add-event panel closes with it. *)
Theorem handleNextMonth_handlePrevMonth (t : Z) (w : World) :
  let y := ES.YearFromTime (ES.LocalTime t) in
  let m := ES.MonthFromTime (ES.LocalTime t) in
  currentMonth (app w) = Some t →
  100 < y < 275759 →
  let next := currentMonth (app (handleNextMonth w)) in
  let prev := currentMonth (app (handlePrevMonth w)) in
  (getFullYear next = Some (if m =? 11 then y + 1 else y) ∧
   getMonth next = Some (if m =? 11 then 0 else m + 1) ∧ getDate next = Some 1) ∧
  (getFullYear prev = Some (if m =? 0 then y - 1 else y) ∧
   getMonth prev = Some (if m =? 0 then 11 else m - 1) ∧ getDate prev = Some 1) ∧
  currentMonth (app (handlePrevMonth (handleNextMonth w)))
  = Some (local_midnight (ES.MakeDay y m 1)) ∧
  currentMonth (app (handleNextMonth (handlePrevMonth w)))
  = Some (local_midnight (ES.MakeDay y m 1)) ∧
  (∀ sel, selectedDate (app w) = Some sel →
          getMonth sel = Some m → getFullYear sel = Some y →
          selectedDate (app (handleNextMonth w)) = None ∧
          showAddEvent (app (handleNextMonth w)) = false ∧
          selectedDate (app (handlePrevMonth w)) = None ∧
          showAddEvent (app (handlePrevMonth w)) = false).
Proof.
  intros y m Hcur Hy next prev.
  pose proof (MonthFromTime_range (ES.LocalTime t)) as Hm. fold m in Hm.
  destruct (first_of_next_month t Hy) as (Hn & HnY & HnM & HnD).
  destruct (first_of_prev_month t Hy) as (Hp & HpY & HpM & HpD).
  fold y m in Hn, HnY, HnM, Hp, HpY, HpM.
  assert (next = Date_ymd (getFullYear (Some t)) (num_add (getMonth (Some t)) (Some 1)) (Some 1))
    as Hnext by (unfold next, handleNextMonth; by rewrite currentMonth_handleMonthChange, Hcur).
  assert (prev = Date_ymd (getFullYear (Some t)) (num_sub (getMonth (Some t)) (Some 1)) (Some 1))
    as Hprev by (unfold prev, handlePrevMonth; by rewrite currentMonth_handleMonthChange, Hcur).
  split_and!.
  - by rewrite Hnext.
  - by rewrite Hnext.
  - by rewrite Hnext.
  - by rewrite Hprev.
  - by rewrite Hprev.
  - by rewrite Hprev.
  - unfold handlePrevMonth at 1. rewrite currentMonth_handleMonthChange.
    fold next. rewrite Hnext, HnY, HnM.
    change (num_sub (Some ?a) (Some 1)) with (Some (a - 1)).
    destruct (first_of_month (if m =? 11 then y + 1 else y)
                             ((if m =? 11 then 0 else m + 1) - 1)) as [-> _].
    + destruct (m =? 11); lia.
    + destruct (Z.eqb_spec m 11); div_lia.
    + do 2 f_equal. rewrite MakeDay_norm, (MakeDay_norm y m).
      destruct (Z.eqb_spec m 11) as [Heq|Hne]; f_equal; div_lia.
  - unfold handleNextMonth at 1. rewrite currentMonth_handleMonthChange.
    fold prev. rewrite Hprev, HpY, HpM.
    change (num_add (Some ?a) (Some 1)) with (Some (a + 1)).
    destruct (first_of_month (if m =? 0 then y - 1 else y)
                             ((if m =? 0 then 11 else m - 1) + 1)) as [-> _].
    + destruct (m =? 0); lia.
    + destruct (Z.eqb_spec m 0); div_lia.
    + do 2 f_equal. rewrite MakeDay_norm, (MakeDay_norm y m).
      destruct (Z.eqb_spec m 0) as [Heq|Hne]; f_equal; div_lia.
  - intros sel Hsel HsM HsY.
    unfold handleNextMonth, handlePrevMonth, handleMonthChange.
    rewrite Hcur, Hsel, HsM, HsY, HnM, HpM.
    assert (num_neq (Some m) (Some (if m =? 11 then 0 else m + 1)) = true) as ->
      by (unfold num_neq, num_eq; apply negb_true_iff, Z.eqb_neq; destruct (Z.eqb_spec m 11); lia).
    assert (num_neq (Some m) (Some (if m =? 0 then 11 else m - 1)) = true) as ->
      by (unfold num_neq, num_eq; apply negb_true_iff, Z.eqb_neq; destruct (Z.eqb_spec m 0); lia).
    done.
Qed.

(** X17. After any change of month, a date that is still selected lies in the
    month and year that are shown; the events, the storage and what was
    observed are untouched. *)
Theorem handleMonthChange_selection (date : Date) (w : World) :
  currentMonth (app (handleMonthChange date w)) = date ∧
  events (app (handleMonthChange date w)) = events (app w) ∧
  item (handleMonthChange date w) = item w ∧
  trace (handleMonthChange date w) = trace w ∧
  (∀ sel, selectedDate (app (handleMonthChange date w)) = Some sel →
          selectedDate (app w) = Some sel ∧
          showAddEvent (app (handleMonthChange date w)) = showAddEvent (app w) ∧
          isCurrentMonth date sel = true ∧
          num_eq (getFullYear sel) (getFullYear date) = true) ∧
  (selectedDate (app (handleMonthChange date w)) = None →
   selectedDate (app w) = None ∨ showAddEvent (app (handleMonthChange date w)) = false).
Proof.
  unfold handleMonthChange, isCurrentMonth, num_neq.
  destruct (selectedDate (app w)) as [sel|] eqn:Hsel.
  - destruct (num_eq (getMonth sel) (getMonth date)) eqn:HM;
      destruct (num_eq (getFullYear sel) (getFullYear date)) eqn:HY;
      cbn [negb orb app with_app setCurrentMonth setShowAddEvent setSelectedDate
           currentMonth events selectedDate showAddEvent item trace];
      split_and!; rewrite ?Hsel; try done; try (intros ? [= <-]; by rewrite ?HM, ?HY); auto.
  - cbn [app with_app setCurrentMonth currentMonth events selectedDate showAddEvent item trace].
    rewrite Hsel. split_and!; try done. auto.
Qed.
End NavigationProofs.

Lemma handleMonthChange_selection_witness :
  currentMonth (app (@handleMonthChange utc_host (Some 1712707200000)
                       (sample_world morning_store None)))
  = Some 1712707200000.
Proof.
  apply (@handleMonthChange_selection utc_host (Some 1712707200000)
           (sample_world morning_store None)).
Defined.

Lemma handleNextMonth_handlePrevMonth_witness :
  currentMonth (app (@handlePrevMonth utc_host (@handleNextMonth utc_host
                                                  (sample_world morning_store None))))
  = Some 1709251200000.
Proof.
  destruct (@handleNextMonth_handlePrevMonth utc_host 1710028800000
              (sample_world morning_store None)) as (_ & _ & Hround & _).
  - reflexivity.
  - vm_compute. split; reflexivity.
  - exact Hround.
Defined.

(** ** The cells of the grid *)

Section CellProofs.
Context `{HostEnv}.

(** The grid as a run of consecutive local midnights, for every year the
    time value can hold; a year in 0..99 is shown as the year 1900 later. *)
Lemma getDaysInMonth_days (t : Z) :
  let y := ES.YearFromTime (ES.LocalTime t) in
  let m := ES.MonthFromTime (ES.LocalTime t) in
  -271820 ≤ y ≤ 275759 →
  let shown := if (0 <=? y) && (y <=? 99) then 1900 + y else y in
  let first := ES.MakeDay shown m 1 in
  let w := ES.WeekDay (first * ES.msPerDay) in
  let n := DaysInMonth shown m in
  getDaysInMonth (Some t)
  = map (λ i : nat, Some (local_midnight (first - w + Z.of_nat i)))
        (seq 0 (Z.to_nat ((w + n + 6) / 7 * 7))).
Proof.
  intros y m Hy shown first w n.
  pose proof (MonthFromTime_range (ES.LocalTime t)) as Hm. fold m in Hm.
  assert (-271820 ≤ shown ≤ 275759) as Hshown.
  { unfold shown. destruct ((0 <=? y) && (y <=? 99)) eqn:Hq; [|done].
    apply andb_true_iff in Hq as [Hq1 Hq2]. apply Z.leb_le in Hq1, Hq2. lia. }
  pose proof (DaysInMonth_range shown m) as Hn. fold n in Hn.
  destruct (MakeDay_first_range shown m Hm Hshown) as [Hlo Hhi]. fold first n in Hlo, Hhi.
  assert (0 ≤ w ≤ 6) as Hw by (unfold w, ES.WeekDay; div_lia).
  assert (7 * ((w + n + 6) / 7 - 1) < w + n ≤ 7 * ((w + n + 6) / 7)) as Hweeks by div_lia.
  unfold getDaysInMonth.
  change (getFullYear (Some t)) with (Some y). change (getMonth (Some t)) with (Some m).
  change (num_add (Some m) (Some 1)) with (Some (m + 1)).
  rewrite !Date_ymd_local_midnight. fold shown first.
  rewrite MakeDay_next_month by done. fold n.
  replace (ES.MakeDay shown m n) with (first + (n - 1))
    by (unfold first, ES.MakeDay; lia).
  rewrite !TimeClip_local_midnight by lia.
  assert (getDay (Some (local_midnight first)) = Some w) as ->.
  { unfold getDay. cbn [mbind option_bind]. by rewrite LocalTime_local_midnight. }
  assert (getDate (Some (local_midnight (first + (n - 1)))) = Some n) as ->.
  { replace (first + (n - 1)) with (ES.MakeDay shown m n)
      by (unfold first, ES.MakeDay; lia).
    apply fields_local_midnight; [done|lia]. }
  change (num_sub (Some 1) (Some w)) with (Some (1 - w)).
  change (num_add (Some w) (Some n)) with (Some (w + n)).
  rewrite setDate_local_midnight.
  assert (ES.DateFromTime (first * ES.msPerDay) = 1) as ->.
  { destruct (fields_of_MakeDay shown m 1 0 Hm) as (_ & _ & _ & _ & HD);
      [lia|unfold ES.msPerDay; lia|].
    unfold ES.MakeDate in HD. by rewrite Z.add_0_r in HD. }
  rewrite TimeClip_local_midnight by lia.
  assert (num_mul (Math_ceil_div7 (Some (w + n))) (Some 7) = Some ((w + n + 6) / 7 * 7)) as ->.
  { unfold Math_ceil_div7, num_mul. cbn [mbind option_bind]. f_equal. div_lia. }
  cbn [rounds]. rewrite push_days_local_midnight by lia.
  apply map_ext. intros i. do 2 f_equal. lia.
Qed.



End CellProofs.


(** ** Day keys *)

Lemma digit_char_code (n : Z) : code (digit_char n) = 48 + n mod 10.
Proof.
  unfold code, digit_char. rewrite N_ascii_embedding.
  - rewrite Z2N.id; [done|div_lia].
  - apply N2Z.inj_lt. rewrite Z2N.id by div_lia. simpl. div_lia.
Qed.

Lemma digit_char_inj (a b : Z) : digit_char a = digit_char b → a mod 10 = b mod 10.
Proof.
  intros Heq. apply (f_equal code) in Heq. rewrite !digit_char_code in Heq. lia.
Qed.

Lemma digit_char_not_T (n : Z) : Ascii.eqb (digit_char n) "T" = false.
Proof.
  apply Ascii.eqb_neq. intros Heq. apply (f_equal code) in Heq.
  rewrite digit_char_code in Heq. change (code "T") with 84 in Heq. div_lia.
Qed.

Lemma length_pad_digits (w : nat) (n : Z) : String.length (pad_digits w n) = w.
Proof.
  revert n. induction w as [|w IH]; intros n; [done|].
  cbn [pad_digits]. rewrite length_string_app, IH. simpl. lia.
Qed.

Lemma has_char_T_pad_digits (w : nat) (n : Z) : has_char "T" (pad_digits w n) = false.
Proof.
  revert n. induction w as [|w IH]; intros n; [done|].
  cbn [pad_digits]. rewrite has_char_app, IH. cbn [has_char orb].
  by rewrite digit_char_not_T.
Qed.

Lemma string_app_inj (a1 a2 b1 b2 : string) :
  String.length a1 = String.length a2 → a1 +:+ b1 = a2 +:+ b2 → a1 = a2 ∧ b1 = b2.
Proof.
  revert a2. induction a1 as [|c a1 IH]; intros [|c2 a2] Hlen; try discriminate Hlen.
  - by rewrite !app_empty_l.
  - rewrite !app_String. intros [= -> Hrest]. injection Hlen as Hlen.
    destruct (IH a2 Hlen Hrest) as [-> ->]. done.
Qed.

Lemma String_inj (c1 c2 : ascii) (a b : string) :
  String c1 a = String c2 b → c1 = c2 ∧ a = b.
Proof. by intros [= -> ->]. Qed.

Lemma pad_digits_inj (w : nat) (a b : Z) :
  0 ≤ a < 10 ^ Z.of_nat w → 0 ≤ b < 10 ^ Z.of_nat w →
  pad_digits w a = pad_digits w b → a = b.
Proof.
  revert a b. induction w as [|w IH]; intros a b Ha Hb.
  - simpl in Ha, Hb. lia.
  - rewrite Nat2Z.inj_succ, Z.pow_succ_r in Ha, Hb by lia.
    cbn [pad_digits]. intros Heq.
    apply string_app_inj in Heq as [Hhigh Hlow]; [|by rewrite !length_pad_digits].
    apply String_inj in Hlow as [Hlow _]. apply digit_char_inj in Hlow.
    apply IH in Hhigh; [div_lia|div_lia|div_lia].
Qed.

Lemma split_head_app (sep : ascii) (a r : string) :
  has_char sep a = false → split_head sep (a +:+ String sep r) = a.
Proof.
  induction a as [|c a IH].
  - intros _. rewrite app_empty_l. cbn [split_head]. by rewrite Ascii.eqb_refl.
  - rewrite app_String. cbn [has_char split_head]. intros [Hc Ha]%orb_false_iff.
    by rewrite Hc, IH.
Qed.

Lemma length_iso_year (y : Z) :
  String.length (iso_year y) = if (0 <=? y) && (y <=? 9999) then 4%nat else 7%nat.
Proof.
  unfold iso_year. destruct ((0 <=? y) && (y <=? 9999)); [apply length_pad_digits|].
  rewrite length_string_app, length_pad_digits. by destruct (y <? 0).
Qed.

Lemma has_char_T_key_text (y m dt : Z) : has_char "T" (key_text y m dt) = false.
Proof.
  unfold key_text, iso_year. rewrite !has_char_app.
  destruct ((0 <=? y) && (y <=? 9999)); [|destruct (y <? 0)];
    rewrite ?has_char_app, !has_char_T_pad_digits; reflexivity.
Qed.

Lemma iso_year_inj (y1 y2 : Z) :
  -1000000 < y1 < 1000000 → -1000000 < y2 < 1000000 →
  iso_year y1 = iso_year y2 → y1 = y2.
Proof.
  intros H1 H2 Heq. pose proof (f_equal String.length Heq) as Hlen.
  rewrite !length_iso_year in Hlen. unfold iso_year in Heq.
  destruct ((0 <=? y1) && (y1 <=? 9999)) eqn:E1, ((0 <=? y2) && (y2 <=? 9999)) eqn:E2;
    try discriminate Hlen.
  - apply andb_true_iff in E1 as [?%Z.leb_le ?%Z.leb_le].
    apply andb_true_iff in E2 as [?%Z.leb_le ?%Z.leb_le].
    apply pad_digits_inj in Heq; simpl; lia.
  - destruct (Z.ltb_spec y1 0), (Z.ltb_spec y2 0); try discriminate Heq;
      apply String_inj in Heq as [_ Heq]; apply pad_digits_inj in Heq; simpl; lia.
Qed.

Lemma key_text_inj (y1 m1 d1 y2 m2 d2 : Z) :
  -1000000 < y1 < 1000000 → -1000000 < y2 < 1000000 →
  0 ≤ m1 ≤ 11 → 0 ≤ m2 ≤ 11 → 1 ≤ d1 ≤ 31 → 1 ≤ d2 ≤ 31 →
  key_text y1 m1 d1 = key_text y2 m2 d2 → y1 = y2 ∧ m1 = m2 ∧ d1 = d2.
Proof.
  intros Hy1 Hy2 Hm1 Hm2 Hd1 Hd2 Heq. unfold key_text in Heq.
  pose proof (f_equal String.length Heq) as Hlen.
  rewrite !length_string_app, !length_pad_digits in Hlen.
  apply string_app_inj in Heq as [Hy Heq]; [|simpl in Hlen; lia].
  apply String_inj in Heq as [_ Heq].
  apply string_app_inj in Heq as [Hm Heq]; [|by rewrite !length_pad_digits].
  apply String_inj in Heq as [_ Heq].
  apply iso_year_inj in Hy; [|done..].
  apply pad_digits_inj in Hm; [|simpl; lia..].
  apply pad_digits_inj in Heq; [|simpl; lia..]. lia.
Qed.

Lemma split_head_key (y m dt : Z) (rest : string) :
  split_head "T" (iso_year y +:+ "-" +:+ pad_digits 2 (m + 1) +:+ "-" +:+ pad_digits 2 dt
                  +:+ "T" +:+ rest)
  = key_text y m dt.
Proof.
  rewrite <- (split_head_app "T" (key_text y m dt) rest (has_char_T_key_text y m dt)).
  f_equal. unfold key_text. rewrite !string_app_assoc. reflexivity.
Qed.

Lemma dateKeyOf_fields (t : Z) :
  dateKeyOf (Some t)
  = Some (key_text (ES.YearFromTime t) (ES.MonthFromTime t) (ES.DateFromTime t)).
Proof.
  unfold dateKeyOf, toISOString. cbn [mbind option_bind fmap option_fmap option_map].
  f_equal. fold (iso_year (ES.YearFromTime t)). apply split_head_key.
Qed.

Lemma YearFromDay_range (D : Z) :
  -100000000 ≤ D ≤ 100000000 → -1000000 < ES.YearFromDay D < 1000000.
Proof.
  intros HD. pose proof (YearFromDay_spec D) as [Hlo Hhi]. split.
  - destruct (Z.lt_ge_cases (-1000000) (ES.YearFromDay D)) as [|Hle]; [done|].
    assert (ES.DayFromYear (ES.YearFromDay D + 1) ≤ ES.DayFromYear (-999999))
      by (apply DayFromYear_mono; lia).
    vm_compute (ES.DayFromYear (-999999)) in *. lia.
  - destruct (Z.lt_ge_cases (ES.YearFromDay D) 1000000) as [|Hge]; [done|].
    assert (ES.DayFromYear 1000000 ≤ ES.DayFromYear (ES.YearFromDay D))
      by (apply DayFromYear_mono; lia).
    vm_compute (ES.DayFromYear 1000000) in *. lia.
Qed.

Lemma DateFromTime_range (t : Z) : 1 ≤ ES.DateFromTime t ≤ 31.
Proof.
  pose proof (YearFromDay_spec (ES.Day t)) as Hs. rewrite DayFromYear_succ in Hs.
  destruct (DaysInYear_cases (ES.YearFromDay (ES.Day t))) as [Hdiy HL]. rewrite Hdiy in Hs.
  unfold ES.DateFromTime, ES.MonthFromTime, ES.InLeapYear, ES.DayWithinYear, ES.YearFromTime.
  cbv zeta. case_bool_tests; lia.
Qed.

Lemma Day_TimeClip (t : Z) : ES.TimeClip t = Some t → -100000000 ≤ ES.Day t ≤ 100000000.
Proof.
  unfold ES.TimeClip, ES.Day, ES.msPerDay.
  destruct (Z.ltb_spec 8640000000000000 (Z.abs t)); [discriminate|]. intros _. div_lia.
Qed.

Lemma dateKeyOf_inj_Day (t1 t2 : Z) :
  ES.TimeClip t1 = Some t1 → ES.TimeClip t2 = Some t2 →
  dateKeyOf (Some t1) = dateKeyOf (Some t2) → ES.Day t1 = ES.Day t2.
Proof.
  intros H1%Day_TimeClip H2%Day_TimeClip. rewrite !dateKeyOf_fields.
  intros [= Heq]. apply key_text_inj in Heq as (Hy & Hm & Hd).
  - rewrite (Day_of_fields t1), (Day_of_fields t2). congruence.
  - by apply YearFromDay_range.
  - by apply YearFromDay_range.
  - apply MonthFromTime_range.
  - apply MonthFromTime_range.
  - apply DateFromTime_range.
  - apply DateFromTime_range.
Qed.

(** X19. Two valid dates have the same day key exactly when they fall on the
    same day in UTC: the key says nothing about the time of day and tells
    any two days apart. *)
Theorem dateKeyOf_same_day (t1 t2 : Z) :
  ES.TimeClip t1 = Some t1 → ES.TimeClip t2 = Some t2 →
  (dateKeyOf (Some t1) = dateKeyOf (Some t2) ↔ ES.Day t1 = ES.Day t2).
Proof.
  intros H1 H2. split; [by apply dateKeyOf_inj_Day|].
  intros Hday. rewrite !dateKeyOf_fields.
  destruct (same_Day_fields t1 t2 Hday) as (-> & -> & ->). done.
Qed.

Lemma dateKeyOf_same_day_witness :
  dateKeyOf (Some 1710028800000) = dateKeyOf (Some 1710070000000)
  ↔ ES.Day 1710028800000 = ES.Day 1710070000000.
Proof. apply (dateKeyOf_same_day 1710028800000 1710070000000); reflexivity. Defined.

Section KeyProofs.
Context `{HostEnv}.

Lemma Day_local_midnight (D : Z) :
  ES.Day (local_midnight D) = if 0 <? localTZA then D - 1 else D.
Proof.
  pose proof localTZA_bound as Hb. unfold ES.Day, local_midnight, ES.msPerDay.
  destruct (Z.ltb_spec 0 localTZA); div_lia.
Qed.

(** X20. The key of a day of the grid. Where local time is UTC or behind it, the
    day [dt] of month [m] of year [y] has the key with that year, month and
    day; where local time is ahead of UTC, it has the key of the day before. *)
Theorem dateKeyOf_local_midnight (y m dt : Z) :
  0 ≤ y ≤ 9999 → 0 ≤ m ≤ 11 → 1 ≤ dt ≤ DaysInMonth y m →
  (localTZA ≤ 0 →
   dateKeyOf (Some (local_midnight (ES.MakeDay y m dt)))
   = Some (pad_digits 4 y +:+ "-" +:+ pad_digits 2 (m + 1) +:+ "-" +:+ pad_digits 2 dt)) ∧
  (0 < localTZA → 2 ≤ dt →
   dateKeyOf (Some (local_midnight (ES.MakeDay y m dt)))
   = Some (pad_digits 4 y +:+ "-" +:+ pad_digits 2 (m + 1) +:+ "-" +:+ pad_digits 2 (dt - 1))) ∧
  (0 < localTZA →
   dateKeyOf (Some (local_midnight (ES.MakeDay y m dt)))
   = dateKeyOf (Some ((ES.MakeDay y m dt - 1) * ES.msPerDay))).
Proof.
  intros Hy Hm Hdt.
  assert (∀ d, 1 ≤ d ≤ DaysInMonth y m → ∀ t, ES.Day t = ES.MakeDay y m d →
          dateKeyOf (Some t)
          = Some (pad_digits 4 y +:+ "-" +:+ pad_digits 2 (m + 1) +:+ "-" +:+ pad_digits 2 d))
    as Hkey.
  { intros d Hd t Ht.
    destruct (fields_of_MakeDay y m d 0 Hm Hd) as (HD & _ & HY & HM & HDt);
      [unfold ES.msPerDay; lia|].
    assert (ES.Day t = ES.Day (ES.MakeDate (ES.MakeDay y m d) 0)) as Hsame by by rewrite HD.
    destruct (same_Day_fields _ _ Hsame) as (EY & EM & ED).
    rewrite dateKeyOf_fields, EY, EM, ED, HY, HM, HDt. unfold key_text, iso_year.
    replace ((0 <=? y) && (y <=? 9999)) with true; [done|].
    symmetry. apply andb_true_iff. split; apply Z.leb_le; lia. }
  split_and!.
  - intros Htz. apply Hkey; [done|]. rewrite Day_local_midnight.
    destruct (Z.ltb_spec 0 localTZA); [lia|done].
  - intros Htz Hdt2. apply Hkey; [lia|]. rewrite Day_local_midnight.
    destruct (Z.ltb_spec 0 localTZA); [|lia]. unfold ES.MakeDay. lia.
  - intros Htz. rewrite !dateKeyOf_fields.
    assert (ES.Day (local_midnight (ES.MakeDay y m dt))
            = ES.Day ((ES.MakeDay y m dt - 1) * ES.msPerDay)) as Hsame.
    { rewrite Day_local_midnight. destruct (Day_whole (ES.MakeDay y m dt - 1)) as [-> _].
      destruct (Z.ltb_spec 0 localTZA); [done|lia]. }
    by destruct (same_Day_fields _ _ Hsame) as (-> & -> & ->).
Qed.

(** On a host with one offset the cells of the grid have keys, and no two
    cells have the same key. *)
Lemma getDaysInMonth_keys_fixed (t : Z) :
  -271820 ≤ ES.YearFromTime (ES.LocalTime t) ≤ 275759 →
  NoDup (map dateKeyOf (getDaysInMonth (Some t))) ∧
  Forall (λ d, is_Some (dateKeyOf d)) (getDaysInMonth (Some t)).
Proof.
  intros Hy. rewrite (getDaysInMonth_days t Hy).
  set (y := ES.YearFromTime (ES.LocalTime t)) in *.
  set (m := ES.MonthFromTime (ES.LocalTime t)).
  set (shown := if (0 <=? y) && (y <=? 99) then 1900 + y else y).
  set (first := ES.MakeDay shown m 1). set (w := ES.WeekDay (first * ES.msPerDay)).
  set (n := DaysInMonth shown m).
  pose proof (MonthFromTime_range (ES.LocalTime t)) as Hm. fold m in Hm.
  assert (-271820 ≤ shown ≤ 275759) as Hshown.
  { unfold shown. destruct ((0 <=? y) && (y <=? 99)) eqn:Hq; [|done].
    apply andb_true_iff in Hq as [Hq1 Hq2]. apply Z.leb_le in Hq1, Hq2. lia. }
  pose proof (DaysInMonth_range shown m) as Hn. fold n in Hn.
  destruct (MakeDay_first_range shown m Hm Hshown) as [Hlo Hhi]. fold first n in Hlo, Hhi.
  assert (0 ≤ w ≤ 6) as Hw by (unfold w, ES.WeekDay; div_lia).
  assert (0 ≤ (w + n + 6) / 7 * 7 ≤ w + n + 6) as Hweeks by div_lia.
  split.
  - rewrite map_map. apply NoDup_fmap_2_strong; [|apply NoDup_seq].
    intros i j Hi Hj Heq. apply elem_of_seq in Hi, Hj.
    apply dateKeyOf_inj_Day in Heq; [|apply TimeClip_local_midnight; lia..].
    rewrite !Day_local_midnight in Heq. destruct (0 <? localTZA); lia.
  - apply Forall_forall. intros d Hd. apply list_elem_of_fmap in Hd as (i & -> & Hi).
    rewrite dateKeyOf_fields. by eexists.
Qed.
End KeyProofs.

Lemma dateKeyOf_local_midnight_witness :
  dateKeyOf (Some (@local_midnight full_host (ES.MakeDay 2024 2 10)))
  = dateKeyOf (Some ((ES.MakeDay 2024 2 10 - 1) * ES.msPerDay)).
Proof.
  destruct (@dateKeyOf_local_midnight full_host 2024 2 10) as (_ & _ & Hahead).
  - lia.
  - lia.
  - vm_compute. split; discriminate.
  - apply Hahead. reflexivity.
Defined.

(** ** JSON with indentation *)

Lemma skip_ws_idemp (s : string) : skip_ws (skip_ws s) = skip_ws s.
Proof.
  induction s as [|c s IH]; [done|]. cbn [skip_ws].
  destruct (is_ws c) eqn:Hc; [done|]. cbn [skip_ws]. by rewrite Hc.
Qed.

Lemma parse_value_skip_ws (fuel : nat) (s : string) :
  parse_value fuel (skip_ws s) = parse_value fuel s.
Proof. destruct fuel as [|f]; [done|]. cbn [parse_value]. by rewrite skip_ws_idemp. Qed.

Lemma parse_elements_skip_ws (fuel : nat) (s : string) (acc : list jsval) :
  parse_elements fuel (skip_ws s) acc = parse_elements fuel s acc.
Proof. destruct fuel as [|f]; [done|]. by rewrite !parse_elements_S, parse_value_skip_ws. Qed.

Lemma parse_members_skip_ws (fuel : nat) (s : string) (acc : list (string * jsval)) :
  parse_members fuel (skip_ws s) acc = parse_members fuel s acc.
Proof. destruct fuel as [|f]; [done|]. cbn [parse_members]. by rewrite skip_ws_idemp. Qed.

Lemma skip_ws_gap (indent s : string) :
  (∀ r, skip_ws (indent +:+ r) = skip_ws r) →
  skip_ws ((indent +:+ gap) +:+ s) = skip_ws s.
Proof. intros Hb. by rewrite string_app_assoc, Hb. Qed.

Lemma skip_ws_line (indent s : string) :
  (∀ r, skip_ws (indent +:+ r) = skip_ws r) →
  skip_ws (String LF indent +:+ s) = skip_ws s.
Proof. intros Hb. rewrite app_String. cbn [skip_ws]. change (is_ws LF) with true. apply Hb. Qed.

Lemma skip_ws_line_in (indent s : string) :
  (∀ r, skip_ws (indent +:+ r) = skip_ws r) →
  skip_ws (String LF (indent +:+ s)) = skip_ws s.
Proof. intros Hb. cbn [skip_ws]. change (is_ws LF) with true. apply Hb. Qed.

Lemma stringify_indent_head (indent : string) (v : jsval) :
  plain_json v →
  ∃ c s, stringify_indent indent v = String c s ∧
         (c = "n" ∨ c = "t" ∨ c = "f" ∨ c = DQUOTE ∨ c = "[" ∨ c = "{")%char.
Proof.
  destruct v as [| [] | n | s | [|x items] | [|kv props]]; intros Hv; try done;
    cbn [stringify_indent JSON_stringify]; rewrite ?app_String;
    eexists _, _; (split; [reflexivity|]); tauto.
Qed.

Lemma skip_ws_stringify_indent (indent : string) (v : jsval) (rest : string) :
  plain_json v →
  ∃ c s, skip_ws (stringify_indent indent v +:+ rest) = String c s
         ∧ stringify_indent indent v +:+ rest = String c s
         ∧ c ≠ "]"%char ∧ c ≠ "}"%char.
Proof.
  intros Hv. destruct (stringify_indent_head indent v Hv) as (c & s & -> & Hc).
  rewrite app_String. exists c, (s +:+ rest).
  destruct Hc as [->|[->|[->|[->|[->| ->]]]]]; by split_and!.
Qed.

Lemma parse_value_bracket (f : nat) (r : string) :
  (∀ r', skip_ws r ≠ String "]" r') →
  parse_value (S f) (String "[" r) = parse_elements f r [].
Proof.
  intros Hc. cbn [parse_value skip_ws is_ws]. change (is_ws "[") with false. cbv iota.
  change (Ascii.eqb "[" "{") with false. rewrite Ascii.eqb_refl. cbv iota.
  destruct (skip_ws r) as [|c r'] eqn:Hr; [done|].
  destruct c as [[] [] [] [] [] [] [] []]; try reflexivity. by destruct (Hc r').
Qed.

Lemma parse_value_brace (f : nat) (r : string) :
  (∀ r', skip_ws r ≠ String "}" r') →
  parse_value (S f) (String "{" r) = parse_members f r [].
Proof.
  intros Hc. cbn [parse_value skip_ws is_ws]. change (is_ws "{") with false. cbv iota.
  rewrite Ascii.eqb_refl. cbv iota.
  destruct (skip_ws r) as [|c r'] eqn:Hr; [done|].
  destruct c as [[] [] [] [] [] [] [] []]; try reflexivity. by destruct (Hc r').
Qed.

Lemma join_cons2 (sep x y : string) (l : list string) :
  join sep (x :: y :: l) = x +:+ sep +:+ join sep (y :: l).
Proof. reflexivity. Qed.

Lemma parse_elements_indent (stepin indent : string) (items : list jsval) :
  (∀ r, skip_ws (stepin +:+ r) = skip_ws r) →
  (∀ r, skip_ws (indent +:+ r) = skip_ws r) →
  Forall (λ x, plain_json x → ∀ (fuel : nat) (rest : string), (weight x ≤ fuel)%nat →
               parse_value fuel (stringify_indent stepin x +:+ rest) = Some (x, rest)) items →
  Forall plain_json items → items ≠ [] →
  ∀ (acc : list jsval) (fuel : nat) (rest : string),
    (list_sum (map (λ x, S (weight x)) items) ≤ fuel)%nat →
    parse_elements fuel
      (join ("," +:+ String LF stepin) (map (stringify_indent stepin) items)
       +:+ String LF indent +:+ String "]" rest) acc
    = Some (JArr (acc ++ items), rest).
Proof.
  intros Hstep Hind. induction 1 as [|x items Hx Hitems IH]; [done|].
  intros Hplain _ acc fuel rest Hfuel.
  inversion Hplain as [|? ? Hpx Hpitems]; subst.
  change (S (weight x) + list_sum (map (λ x, S (weight x)) items) ≤ fuel)%nat in Hfuel.
  destruct fuel as [|f]; [lia|]. rewrite parse_elements_S.
  destruct items as [|y items].
  - cbn [map join]. rewrite (Hx Hpx) by lia.
    rewrite (skip_ws_line indent) by done. reflexivity.
  - cbn [map]. rewrite join_cons2. rewrite !string_app_assoc. rewrite (Hx Hpx) by lia.
    rewrite app_String, app_empty_l. cbn [skip_ws is_ws]. change (is_ws ",") with false.
    cbv iota.
    rewrite <- parse_elements_skip_ws, (skip_ws_line stepin), parse_elements_skip_ws by done.
    change (stringify_indent stepin y :: map (stringify_indent stepin) items)
      with (map (stringify_indent stepin) (y :: items)).
    rewrite IH; [|done|done|lia]. by rewrite <- app_assoc.
Qed.

Lemma parse_members_indent (stepin indent : string) (props : list (string * jsval)) :
  (∀ r, skip_ws (stepin +:+ r) = skip_ws r) →
  (∀ r, skip_ws (indent +:+ r) = skip_ws r) →
  Forall (λ kv, plain_json kv.2 → ∀ (fuel : nat) (rest : string), (weight kv.2 ≤ fuel)%nat →
                parse_value fuel (stringify_indent stepin kv.2 +:+ rest) = Some (kv.2, rest))
         props →
  Forall (λ kv, plain_json kv.2) props → props ≠ [] →
  ∀ (acc : list (string * jsval)) (fuel : nat) (rest : string),
    NoDup (map fst (acc ++ props)) →
    (list_sum (map (λ kv : string * jsval, S (weight kv.2)) props) ≤ fuel)%nat →
    parse_members fuel
      (join ("," +:+ String LF stepin)
            (map (λ kv, match kv with
                        | (k, x) => QuoteJSONString k +:+ ": " +:+ stringify_indent stepin x
                        end) props)
       +:+ String LF indent +:+ String "}" rest) acc
    = Some (JObj (acc ++ props), rest).
Proof.
  intros Hstep Hind. induction 1 as [|[k x] props Hx Hprops IH]; [done|].
  intros Hplain _ acc fuel rest Hnd Hfuel.
  inversion Hplain as [|? ? Hpx Hpprops]; subst.
  cbn [snd] in Hx, Hpx.
  change (S (weight x) + list_sum (map (λ kv : string * jsval, S (weight kv.2)) props) ≤ fuel)%nat
    in Hfuel.
  destruct fuel as [|f]; [lia|].
  assert (obj_set k x acc = acc ++ [(k, x)]) as Hset.
  { apply obj_set_fresh. rewrite map_app in Hnd. apply NoDup_app in Hnd as (_ & Hdisj & _).
    intros Hin. apply (Hdisj k Hin). cbn. apply list_elem_of_here. }
  set (member := λ kv : string * jsval,
                   match kv with
                   | (k, x) => QuoteJSONString k +:+ ": " +:+ stringify_indent stepin x
                   end).
  assert (∀ (rest1 : string),
            parse_members (S f)
              ((QuoteJSONString k +:+ ": " +:+ stringify_indent stepin x) +:+ rest1) acc
            = match skip_ws rest1 with
              | String "," r4 => parse_members f r4 (acc ++ [(k, x)])
              | String "}" r4 => Some (JObj (acc ++ [(k, x)]), r4)
              | _ => None
              end) as Hmember.
  { intros rest1. rewrite !string_app_assoc, parse_members_quote.
    change (": " +:+ stringify_indent stepin x +:+ rest1)
      with (String ":" (String " " (stringify_indent stepin x +:+ rest1))).
    cbn [skip_ws is_ws]. change (is_ws ":") with false. cbv iota.
    rewrite <- parse_value_skip_ws. cbn [skip_ws]. change (is_ws " ") with true. cbv iota.
    rewrite parse_value_skip_ws, (Hx Hpx) by lia. by rewrite Hset. }
  destruct props as [|kv props].
  - cbn [map join member]. rewrite Hmember, (skip_ws_line indent) by done. reflexivity.
  - cbn [map]. rewrite join_cons2.
    change (member (k, x)) with (QuoteJSONString k +:+ ": " +:+ stringify_indent stepin x).
    rewrite (string_app_assoc (QuoteJSONString k +:+ ": " +:+ stringify_indent stepin x)).
    rewrite Hmember. rewrite !string_app_assoc.
    change ("," +:+ ?u) with (String "," u).
    cbn [skip_ws is_ws]. change (is_ws ",") with false. cbv iota.
    rewrite <- parse_members_skip_ws, (skip_ws_line stepin), parse_members_skip_ws by done.
    change (member kv :: map member props) with (map member (kv :: props)).
    rewrite IH; [|done|done| |lia].
    + by rewrite <- app_assoc.
    + by rewrite <- app_assoc.
Qed.

Lemma parse_value_stringify_indent (v : jsval) :
  plain_json v → ∀ (indent : string) (fuel : nat) (rest : string),
  (∀ r, skip_ws (indent +:+ r) = skip_ws r) →
  (weight v ≤ fuel)%nat →
  parse_value fuel (stringify_indent indent v +:+ rest) = Some (v, rest).
Proof.
  induction v as [| b | n | s | items IH | props IH] using jsval_nested_ind;
    intros Hv indent fuel rest Hind Hfuel.
  - by apply (parse_value_stringify JNull).
  - by apply (parse_value_stringify (JBool b)).
  - destruct Hv.
  - by apply (parse_value_stringify (JStr s)).
  - destruct fuel as [|f]; [cbn [weight] in Hfuel; lia|].
    apply plain_json_arr in Hv. cbn [weight] in Hfuel.
    destruct items as [|x items]; [reflexivity|].
    assert (∀ r, skip_ws ((indent +:+ gap) +:+ r) = skip_ws r) as Hstep
      by (intros r; by apply skip_ws_gap).
    cbn [stringify_indent]. rewrite !string_app_assoc, app_String, app_empty_l.
    rewrite parse_value_bracket.
    + rewrite <- parse_elements_skip_ws, (skip_ws_line (indent +:+ gap)),
        parse_elements_skip_ws by done.
      apply (parse_elements_indent (indent +:+ gap) indent (x :: items) Hstep Hind);
        [|done|done|lia].
      apply Forall_forall. intros z Hz Hpz fuel' rest' Hle.
      rewrite Forall_forall in IH. by apply IH.
    + intros r'. rewrite (skip_ws_line (indent +:+ gap)) by done.
      inversion Hv as [|? ? Hpx _]; subst.
      destruct items as [|y items].
      * cbn [map join].
        destruct (skip_ws_stringify_indent (indent +:+ gap) x
                    (String LF indent +:+ "]" +:+ rest) Hpx) as (c & s & -> & _ & Hc & _).
        congruence.
      * cbn [map]. rewrite join_cons2, !string_app_assoc.
        destruct (skip_ws_stringify_indent (indent +:+ gap) x
                    (("," +:+ String LF (indent +:+ gap)) +:+
                     join ("," +:+ String LF (indent +:+ gap))
                       (stringify_indent (indent +:+ gap) y
                        :: map (stringify_indent (indent +:+ gap)) items) +:+
                     String LF indent +:+ "]" +:+ rest) Hpx) as (c & s & Hs & _ & Hc & _).
        rewrite !string_app_assoc in Hs. rewrite Hs. congruence.
  - destruct fuel as [|f]; [cbn [weight] in Hfuel; lia|].
    apply plain_json_obj in Hv as [Hnd Hv]. cbn [weight] in Hfuel.
    destruct props as [|[k x] props]; [reflexivity|].
    assert (∀ r, skip_ws ((indent +:+ gap) +:+ r) = skip_ws r) as Hstep
      by (intros r; by apply skip_ws_gap).
    cbn [stringify_indent]. rewrite !string_app_assoc, app_String, app_empty_l.
    rewrite parse_value_brace.
    + rewrite <- parse_members_skip_ws, (skip_ws_line (indent +:+ gap)),
        parse_members_skip_ws by done.
      apply (parse_members_indent (indent +:+ gap) indent ((k, x) :: props) Hstep Hind);
        [|done|done|done|lia].
      apply Forall_forall. intros z Hz Hpz fuel' rest' Hle.
      rewrite Forall_forall in IH. by apply IH.
    + intros r'. rewrite (skip_ws_line (indent +:+ gap)) by done.
      destruct props as [|kv props]; cbn [map]; rewrite ?join_cons2; cbn [join];
        unfold QuoteJSONString; rewrite !string_app_assoc, !app_String; done.
Qed.

Lemma length_join_sep (sep : string) (l : list string) :
  (1 ≤ String.length sep)%nat →
  (list_sum (map (λ s, S (String.length s)) l) ≤ S (String.length (join sep l)))%nat.
Proof.
  intros Hsep. induction l as [|x l IH]; [cbn; lia|]. destruct l as [|y l].
  - cbn. lia.
  - rewrite join_cons2, !length_string_app.
    change (list_sum (map (λ s, S (String.length s)) (x :: y :: l)))
      with (S (String.length x) + list_sum (map (λ s, S (String.length s)) (y :: l)))%nat.
    lia.
Qed.

Lemma weight_le_length_indent (v : jsval) :
  plain_json v → ∀ indent, (weight v ≤ String.length (stringify_indent indent v))%nat.
Proof.
  induction v as [| b | n | s | items IH | props IH] using jsval_nested_ind; intros Hv indent.
  - cbn. lia.
  - destruct b; cbn; lia.
  - destruct Hv.
  - cbn. lia.
  - apply plain_json_arr in Hv. destruct items as [|x items]; [cbn; lia|].
    cbn [weight stringify_indent]. rewrite !length_string_app.
    pose proof (length_join_sep ("," +:+ String LF (indent +:+ gap))
                  (map (stringify_indent (indent +:+ gap)) (x :: items))) as Hj.
    rewrite map_map in Hj. specialize (Hj ltac:(rewrite length_string_app; simpl; lia)).
    assert (list_sum (map (λ x, S (weight x)) (x :: items))
            ≤ list_sum (map (λ x, S (String.length (stringify_indent (indent +:+ gap) x)))
                            (x :: items)))%nat as Hle.
    { apply list_sum_map_le. apply Forall_forall. intros z Hz.
      rewrite Forall_forall in IH, Hv. pose proof (IH z Hz (Hv z Hz) (indent +:+ gap)). lia. }
    cbn [String.length] in *. lia.
  - apply plain_json_obj in Hv as [_ Hv]. destruct props as [|kv props]; [cbn; lia|].
    cbn [weight stringify_indent]. rewrite !length_string_app.
    set (member := λ kv : string * jsval,
                     match kv with
                     | (k, x) => QuoteJSONString k +:+ ": " +:+ stringify_indent (indent +:+ gap) x
                     end).
    pose proof (length_join_sep ("," +:+ String LF (indent +:+ gap))
                  (map member (kv :: props))) as Hj.
    rewrite map_map in Hj. specialize (Hj ltac:(rewrite length_string_app; simpl; lia)).
    assert (list_sum (map (λ kv : string * jsval, S (weight kv.2)) (kv :: props))
            ≤ list_sum (map (λ kv, S (String.length (member kv))) (kv :: props)))%nat as Hle.
    { apply list_sum_map_le. apply Forall_forall. intros [k x] Hx.
      rewrite Forall_forall in IH, Hv. pose proof (IH _ Hx (Hv _ Hx) (indent +:+ gap)) as Hw.
      cbn [snd member] in *. rewrite !length_string_app. lia. }
    cbn [String.length] in *. lia.
Qed.

(** What [JSON.stringify] writes with an indentation of two spaces for a
    plain value, [JSON.parse] reads back as that value. *)
Lemma JSON_parse_stringify_indent (v : jsval) :
  plain_json v → JSON_parse (stringify_indent EmptyString v) = Some v.
Proof.
  intros Hv. unfold JSON_parse.
  rewrite <- (app_empty_r (stringify_indent EmptyString v)) at 2.
  rewrite parse_value_stringify_indent; [done|done|done|].
  pose proof (weight_le_length_indent v Hv EmptyString). lia.
Qed.

(** ** The export and the grid *)

Section ExportGridProofs.
Context `{HostEnv}.

Lemma map_seq_shift {A} (f : Z → A) (a : Z) (w n : nat) :
  map (λ i : nat, f (a - Z.of_nat w + Z.of_nat i)) (seq w n)
  = map (λ i : nat, f (a + Z.of_nat i)) (seq 0 n).
Proof.
  assert (∀ s : nat, map (λ i : nat, f (a - Z.of_nat w + Z.of_nat i)) (seq (w + s) n)
                     = map (λ i : nat, f (a + Z.of_nat i)) (seq s n)) as Hgen.
  { induction n as [|n IH]; intros s; [done|]. cbn [seq map]. f_equal.
    - f_equal. lia.
    - rewrite <- Nat.add_succ_r. apply IH. }
  specialize (Hgen 0%nat). by rewrite Nat.add_0_r in Hgen.
Qed.

(** The days that the exports walk through are the cells of the grid that
    belong to the shown month. *)
Lemma month_days_cells (t y m shown first n wd : Z) :
  y = ES.YearFromTime (ES.LocalTime t) →
  m = ES.MonthFromTime (ES.LocalTime t) →
  shown = (if (0 <=? y) && (y <=? 99) then 1900 + y else y) →
  first = ES.MakeDay shown m 1 →
  n = DaysInMonth shown m →
  wd = ES.WeekDay (first * ES.msPerDay) →
  -271820 ≤ y ≤ 275759 →
  take (Z.to_nat n) (drop (Z.to_nat wd) (getDaysInMonth (Some t)))
  = map (λ i : nat, Some (local_midnight (first + Z.of_nat i))) (seq 0 (Z.to_nat n)) ∧
  month_days (Some t)
  = map (λ i : nat, Some (local_midnight (first + Z.of_nat i))) (seq 0 (Z.to_nat n)) ∧
  0 ≤ m ≤ 11 ∧ 28 ≤ n ≤ 31.
Proof.
  intros Ey Em Es Ef En Ew Hy.
  assert (0 ≤ m ≤ 11) as Hm by (rewrite Em; apply MonthFromTime_range).
  assert (-271820 ≤ shown ≤ 275759) as Hshown.
  { rewrite Es. destruct ((0 <=? y) && (y <=? 99)) eqn:Hq; [|done].
    apply andb_true_iff in Hq as [Hq1 Hq2]. apply Z.leb_le in Hq1, Hq2. lia. }
  assert (28 ≤ n ≤ 31) as Hn by (rewrite En; apply DaysInMonth_range).
  destruct (MakeDay_first_range shown m Hm Hshown) as [Hlo Hhi].
  rewrite <- Ef in Hlo, Hhi. rewrite <- En in Hhi.
  assert (0 ≤ wd ≤ 6) as Hw by (rewrite Ew; unfold ES.WeekDay; div_lia).
  assert (wd + n ≤ (wd + n + 6) / 7 * 7) as Hweeks by div_lia.
  assert (getDaysInMonth (Some t)
          = map (λ i : nat, Some (local_midnight (first - wd + Z.of_nat i)))
                (seq 0 (Z.to_nat ((wd + n + 6) / 7 * 7)))) as Hgrid.
  { rewrite Ew, En, Ef, Es, Em, Ey. apply getDaysInMonth_days. by rewrite <- Ey. }
  split; [|split; [|done]].
  - rewrite Hgrid. rewrite <- !fmap_drop, <- !fmap_take. rewrite drop_seq, take_seq.
    rewrite Nat.min_l by lia. rewrite Nat.add_0_l.
    rewrite <- (map_seq_shift (λ z, Some (local_midnight z)) first (Z.to_nat wd) (Z.to_nat n)).
    apply map_ext. intros i. do 2 f_equal. lia.
  - apply (month_days_local_midnight y m first n); try lia.
    + by rewrite Ey.
    + by rewrite Em.
    + rewrite Date_ymd_local_midnight. rewrite <- Es, <- Ef.
      apply TimeClip_local_midnight. lia.
    + rewrite Date_ymd_local_midnight. rewrite <- Es. rewrite MakeDay_next_month by done.
      rewrite <- En. replace (ES.MakeDay shown m n) with (first + n - 1)
        by (rewrite Ef; unfold ES.MakeDay; lia).
      apply TimeClip_local_midnight. lia.
Qed.

Lemma handleExportEvents_of_month_days (w : World) (t : Z) :
  currentMonth (app w) = Some t →
  ∃ iso,
    handleExportEvents_csv w
    = Downloaded ("events-" +:+ String.substring 0 7 iso +:+ ".csv")
        (csvContent (flat_map (events_on (events (app w))) (month_days (Some t)))) ∧
    handleExportEvents_json w
    = Downloaded ("events-" +:+ String.substring 0 7 iso +:+ ".json")
        (stringify_indent EmptyString
           (JArr (map Event_to_js
                    (flat_map (events_on (events (app w))) (month_days (Some t)))))).
Proof.
  intros Hmonth. destruct (toISOString_Some t) as [iso Hiso]. exists iso.
  unfold handleExportEvents_csv, handleExportEvents_json. cbv zeta. rewrite Hmonth.
  by rewrite collect_month_of_month, Hiso.
Qed.

(** On a host with one offset both exports gather the events of the cells
    of the grid that belong to the shown month, cell after cell. *)
Lemma handleExportEvents_month_cells_fixed (w : World) (t : Z) :
  let y := ES.YearFromTime (ES.LocalTime t) in
  let m := ES.MonthFromTime (ES.LocalTime t) in
  currentMonth (app w) = Some t →
  -271820 ≤ y ≤ 275759 →
  let shown := if (0 <=? y) && (y <=? 99) then 1900 + y else y in
  let first := ES.MakeDay shown m 1 in
  let cells := take (Z.to_nat (DaysInMonth shown m))
                    (drop (Z.to_nat (ES.WeekDay (first * ES.msPerDay)))
                          (getDaysInMonth (Some t))) in
  let exported := flat_map (λ d, getFilteredEvents EmptyString (events_on (events (app w)) d))
                           cells in
  Forall (λ d, isCurrentMonth (Some t) d = true) cells ∧
  length cells = Z.to_nat (DaysInMonth shown m) ∧
  (∃ filename, handleExportEvents_csv w = Downloaded filename (csvContent exported)) ∧
  (∃ filename, handleExportEvents_json w
               = Downloaded filename
                   (stringify_indent EmptyString (JArr (map Event_to_js exported)))).
Proof.
  intros y m Hmonth Hy shown first cells exported.
  destruct (month_days_cells t y m shown first (DaysInMonth shown m)
              (ES.WeekDay (first * ES.msPerDay)) eq_refl eq_refl eq_refl eq_refl eq_refl
              eq_refl Hy) as (Hcells & Hdays & Hm & Hn).
  fold cells in Hcells.
  assert (exported = flat_map (events_on (events (app w))) (month_days (Some t))) as Hexp.
  { unfold exported. rewrite Hdays, Hcells. apply flat_map_ext. intros d. reflexivity. }
  destruct (handleExportEvents_of_month_days w t Hmonth) as (iso & Hcsv & Hjson).
  rewrite <- Hexp in Hcsv, Hjson. clearbody exported cells.
  split_and!.
  - rewrite Hcells. apply Forall_map, Forall_forall. intros i Hi. apply list_elem_of_In, in_seq in Hi.
    unfold isCurrentMonth. change (getMonth (Some t)) with (Some m).
    replace (first + Z.of_nat i) with (ES.MakeDay shown m (Z.of_nat i + 1))
      by (unfold first, ES.MakeDay; lia).
    destruct (fields_local_midnight shown m (Z.of_nat i + 1)) as (_ & -> & _); [done|lia|].
    apply Z.eqb_refl.
  - rewrite Hcells, length_map, length_seq. done.
  - by eexists.
  - by eexists.
Qed.
End ExportGridProofs.

(** ** The name of the exported file *)

Lemma substring_year_month (p4 p2 rest : string) :
  String.length p4 = 4%nat → String.length p2 = 2%nat →
  String.substring 0 7 (p4 +:+ "-" +:+ p2 +:+ rest) = p4 +:+ "-" +:+ p2.
Proof.
  destruct p4 as [|a [|b [|c [|d [|]]]]]; try discriminate.
  destruct p2 as [|e [|f [|]]]; try discriminate. intros _ _. by destruct rest.
Qed.

Lemma toISOString_year_month (t y m dt : Z) :
  0 ≤ y ≤ 9999 → 0 ≤ m ≤ 11 → 1 ≤ dt ≤ DaysInMonth y m →
  ES.Day t = ES.MakeDay y m dt →
  ∃ iso, toISOString (Some t) = Some iso ∧
         String.substring 0 7 iso = pad_digits 4 y +:+ "-" +:+ pad_digits 2 (m + 1).
Proof.
  intros Hy Hm Hdt Hday.
  destruct (fields_of_MakeDay y m dt 0 Hm Hdt) as (HD & _ & HY & HM & _);
    [unfold ES.msPerDay; lia|].
  assert (ES.Day t = ES.Day (ES.MakeDate (ES.MakeDay y m dt) 0)) as Hsame by by rewrite HD.
  destruct (same_Day_fields _ _ Hsame) as (EY & EM & _).
  eexists. split; [reflexivity|]. rewrite EY, EM, HY, HM.
  replace ((0 <=? y) && (y <=? 9999)) with true
    by (symmetry; apply andb_true_iff; split; apply Z.leb_le; lia).
  apply substring_year_month; apply length_pad_digits.
Qed.

(** X24. The file is named after the month in which the shown date falls in
    UTC. Once the arrows have set the shown date to the first of a month at
    local midnight, that is the month shown where local time is UTC or
    behind it, and the month before where local time is ahead of UTC. *)
Theorem handleExportEvents_filename `{HostEnv} (w : World) (y m : Z) :
  currentMonth (app w) = Some (local_midnight (ES.MakeDay y m 1)) →
  0 ≤ y ≤ 9999 → 1 ≤ m ≤ 11 →
  let name := "events-" +:+ pad_digits 4 y +:+ "-"
              +:+ pad_digits 2 (if 0 <? localTZA then m else m + 1) in
  (∃ text, handleExportEvents_csv w = Downloaded (name +:+ ".csv") text) ∧
  (∃ text, handleExportEvents_json w = Downloaded (name +:+ ".json") text).
Proof.
  intros Hmonth Hy Hm name.
  assert (∃ iso, toISOString (Some (local_midnight (ES.MakeDay y m 1))) = Some iso ∧
                 String.substring 0 7 iso
                 = pad_digits 4 y +:+ "-" +:+ pad_digits 2 (if 0 <? localTZA then m else m + 1))
    as (iso & Hiso & Hsub).
  { pose proof (Day_local_midnight (ES.MakeDay y m 1)) as Hday.
    destruct (Z.ltb_spec 0 localTZA) as [Hpos|Hneg].
    - pose proof (DaysInMonth_range y (m - 1)) as Hn.
      destruct (toISOString_year_month (local_midnight (ES.MakeDay y m 1)) y (m - 1)
                  (DaysInMonth y (m - 1))) as (iso & Hiso & Hsub); try lia.
      + rewrite Hday. rewrite <- MakeDay_next_month by lia.
        replace (m - 1 + 1) with m by lia. unfold ES.MakeDay. lia.
      + exists iso. split; [done|]. by replace (m - 1 + 1) with m in Hsub by lia.
    - pose proof (DaysInMonth_range y m) as Hn.
      destruct (toISOString_year_month (local_midnight (ES.MakeDay y m 1)) y m 1)
        as (iso & Hiso & Hsub); try lia; try done.
      by exists iso. }
  split.
  - eexists. unfold handleExportEvents_csv. cbv zeta. rewrite Hmonth.
    rewrite collect_month_of_month, Hiso, Hsub. unfold name.
    by rewrite !string_app_assoc.
  - eexists. unfold handleExportEvents_json. cbv zeta. rewrite Hmonth.
    rewrite collect_month_of_month, Hiso, Hsub. unfold name.
    by rewrite !string_app_assoc.
Qed.

Lemma handleExportEvents_filename_witness :
  ∃ text, @handleExportEvents_csv full_host
            (@handleNextMonth full_host (sample_world two_day_store None))
          = Downloaded "events-2024-03.csv" text.
Proof.
  destruct (@handleExportEvents_filename full_host
              (@handleNextMonth full_host (sample_world two_day_store None)) 2024 3)
    as [Hcsv _].
  - reflexivity.
  - lia.
  - lia.
  - exact Hcsv.
Defined.

(** ** Days without events *)

(** X25. A store in which no day has an empty list stays so through every
    delete, and through every save that adds a new event or edits on a day
    that has a list. *)
Theorem handlers_keep_no_empty_day `{HostEnv} (w : World) :
  no_empty_day (events (app w)) →
  (∀ event, no_empty_day (events (app (handleDeleteEvent event w)))) ∧
  (∀ eventData rnd,
     (∀ sel d k, selectedEvent (app w) = Some sel → selectedDate (app w) = Some d →
                 dateKeyOf d = Some k → is_Some (events (app w) !! k)) →
     no_empty_day (events (app (handleSaveEvent eventData rnd w)))).
Proof.
  intros Hinv. split.
  - intros event. by apply handleDeleteEvent_no_empty_day.
  - intros eventData rnd Hday.
    destruct (selectedDate (app w)) as [d|] eqn:Hd; [|unfold handleSaveEvent; by rewrite Hd].
    destruct (dateKeyOf d) as [dayKey|] eqn:Hkey;
      [|unfold handleSaveEvent; by rewrite Hd, Hkey].
    destruct (hasOverlap (default [] (events (app w) !! dayKey))
                (with_id eventData (newEventId (selectedEvent (app w)) rnd))) eqn:Hov.
    + by rewrite (handleSaveEvent_rejected w eventData rnd d dayKey).
    + rewrite (handleSaveEvent_accepted w eventData rnd d dayKey) by done.
      cbn [events setIsEventModalOpen setSelectedEvent setEvents].
      intros k l. destruct (decide (k = dayKey)) as [->|Hne].
      * rewrite lookup_insert_eq. intros [= <-].
        destruct (selectedEvent (app w)) as [sel|] eqn:Hsel.
        -- destruct (Hday sel d dayKey eq_refl eq_refl Hkey) as [l Hl]. rewrite Hl.
           pose proof (Hinv dayKey l Hl). destruct l; [done|]. discriminate.
        -- intros Hnil. by apply app_eq_nil in Hnil as [_ ?].
      * rewrite lookup_insert_ne by done. apply Hinv.
Qed.

Lemma handlers_keep_no_empty_day_witness :
  no_empty_day (events (app (@handleSaveEvent utc_host (sample_data "09:00" "10:00") "ev2"
                               (sample_world morning_store None)))).
Proof.
  destruct (@handlers_keep_no_empty_day utc_host (sample_world morning_store None)) as [_ Hsave].
  - exact no_empty_day_morning_store.
  - apply Hsave. intros sel d k Hsel. discriminate Hsel.
Defined.

(** ** What the export holds, key by key *)

Lemma dateKeyOf_of_Day (t y m dt : Z) :
  0 ≤ m ≤ 11 → 1 ≤ dt ≤ DaysInMonth y m →
  ES.Day t = ES.MakeDay y m dt →
  dateKeyOf (Some t) = Some (key_text y m dt).
Proof.
  intros Hm Hdt Hday.
  destruct (fields_of_MakeDay y m dt 0 Hm Hdt) as (HD & _ & HY & HM & HDt);
    [unfold ES.msPerDay; lia|].
  assert (ES.Day t = ES.Day (ES.MakeDate (ES.MakeDay y m dt) 0)) as Hsame by by rewrite HD.
  destruct (same_Day_fields _ _ Hsame) as (EY & EM & ED).
  by rewrite dateKeyOf_fields, EY, EM, ED, HY, HM, HDt.
Qed.

Lemma MakeDay_before (y m : Z) :
  0 ≤ m ≤ 11 →
  0 ≤ (m - 1) mod 12 ≤ 11 ∧
  ES.MakeDay y m 1 - 1
  = ES.MakeDay (y + (m - 1) / 12) ((m - 1) mod 12)
      (DaysInMonth (y + (m - 1) / 12) ((m - 1) mod 12)).
Proof.
  intros Hm. set (yp := y + (m - 1) / 12). set (mp := (m - 1) mod 12).
  assert (0 ≤ mp ≤ 11) as Hmp by (unfold mp; div_lia). split; [done|].
  pose proof (MakeDay_next_month yp mp Hmp) as Hnext.
  rewrite (MakeDay_norm yp (mp + 1)) in Hnext.
  replace (yp + (mp + 1) / 12) with y in Hnext by (unfold yp, mp; div_lia).
  replace ((mp + 1) mod 12) with m in Hnext by (unfold mp; div_lia).
  rewrite <- Hnext. unfold ES.MakeDay. lia.
Qed.

Lemma flat_map_ext_in {A B} (f g : A → list B) (l : list A) :
  (∀ x, x ∈ l → f x = g x) → flat_map f l = flat_map g l.
Proof.
  induction l as [|x l IH]; [done|]. intros Hfg. cbn [flat_map].
  rewrite (Hfg x) by apply list_elem_of_here. rewrite IH; [done|].
  intros z Hz. apply Hfg. by apply list_elem_of_further.
Qed.

Section ExportKeys.
Context `{HostEnv}.

(** The events read for a day of the calendar: at or behind UTC those under
    the key of that day, ahead of UTC those under the key of the day
    before. *)
Lemma events_on_day (evs : Store) (y m dt : Z) :
  0 ≤ m ≤ 11 → 1 ≤ dt ≤ DaysInMonth y m →
  events_on evs (Some (local_midnight (ES.MakeDay y m dt)))
  = if 0 <? localTZA
    then if dt =? 1
         then default [] (evs !! key_text (y + (m - 1) / 12) ((m - 1) mod 12)
                                   (DaysInMonth (y + (m - 1) / 12) ((m - 1) mod 12)))
         else default [] (evs !! key_text y m (dt - 1))
    else default [] (evs !! key_text y m dt).
Proof.
  intros Hm Hdt. unfold events_on.
  pose proof (Day_local_midnight (ES.MakeDay y m dt)) as Hday.
  destruct (0 <? localTZA).
  - destruct (Z.eqb_spec dt 1) as [->|Hne].
    + destruct (MakeDay_before y m Hm) as [Hmp Hbefore].
      pose proof (DaysInMonth_range (y + (m - 1) / 12) ((m - 1) mod 12)) as Hn.
      rewrite (dateKeyOf_of_Day _ (y + (m - 1) / 12) ((m - 1) mod 12)
                 (DaysInMonth (y + (m - 1) / 12) ((m - 1) mod 12))); [done|done|lia|].
      by rewrite Hday, Hbefore.
    + rewrite (dateKeyOf_of_Day _ y m (dt - 1)); [done|done|lia|].
      rewrite Hday. unfold ES.MakeDay. lia.
  - by rewrite (dateKeyOf_of_Day _ y m dt).
Qed.

Lemma flat_map_events_on (evs : Store) (y m : Z) (n : nat) :
  0 ≤ m ≤ 11 → Z.of_nat n = DaysInMonth y m →
  flat_map (events_on evs)
    (map (λ i : nat, Some (local_midnight (ES.MakeDay y m 1 + Z.of_nat i))) (seq 0 n))
  = exported_events localTZA evs y m.
Proof.
  intros Hm Hn. pose proof (DaysInMonth_range y m) as Hrange.
  rewrite flat_map_map. unfold exported_events, events_of_days.
  rewrite <- Hn. replace (Z.to_nat (Z.of_nat n)) with n by lia.
  assert (∀ i : nat, (i < n)%nat →
            events_on evs (Some (local_midnight (ES.MakeDay y m 1 + Z.of_nat i)))
            = events_on evs (Some (local_midnight (ES.MakeDay y m (Z.of_nat i + 1))))) as Hshift.
  { intros i _. do 3 f_equal. unfold ES.MakeDay. lia. }
  destruct (0 <? localTZA) eqn:Htz.
  - destruct n as [|n']; [lia|]. cbn [seq flat_map].
    rewrite Hshift by lia. rewrite events_on_day by (done || lia). rewrite Htz.
    change (Z.of_nat 0 + 1 =? 1) with true. cbv iota.
    pose proof (DaysInMonth_range (y + (m - 1) / 12) ((m - 1) mod 12)) as Hprev.
    replace (S n' - 1)%nat with n' by lia. cbn [seq flat_map]. rewrite app_nil_r.
    rewrite Z2Nat.id by lia. f_equal.
    apply flat_map_ext_in. intros i Hi. apply list_elem_of_In, in_seq in Hi.
    rewrite Hshift by lia. rewrite events_on_day by (done || lia). rewrite Htz.
    destruct (Z.eqb_spec (Z.of_nat i + 1) 1); [lia|]. do 3 f_equal. lia.
  - rewrite flat_map_seq_shift. apply flat_map_ext_in. intros i Hi.
    apply list_elem_of_In, in_seq in Hi.
    rewrite Hshift by lia. rewrite events_on_day by (done || lia). rewrite Htz.
    do 3 f_equal. lia.
Qed.

(** The export loop on a host with one offset: it ends within its 32 rounds
    with the events of [exported_events]. *)
Lemma collect_month_exported (evs : Store) (t y m shown : Z) :
  y = ES.YearFromTime (ES.LocalTime t) →
  m = ES.MonthFromTime (ES.LocalTime t) →
  shown = (if (0 <=? y) && (y <=? 99) then 1900 + y else y) →
  -271820 ≤ y ≤ 275759 →
  collect_month 32 evs
    (Date_ymd (getFullYear (Some t)) (getMonth (Some t)) (Some 1))
    (Date_ymd (getFullYear (Some t)) (num_add (getMonth (Some t)) (Some 1)) (Some 0)) []
  = Some (inr (exported_events localTZA evs shown m)).
Proof.
  intros Ey Em Es Hy. rewrite collect_month_of_month.
  destruct (month_days_cells t y m shown (ES.MakeDay shown m 1) (DaysInMonth shown m)
              (ES.WeekDay (ES.MakeDay shown m 1 * ES.msPerDay)) Ey Em Es eq_refl eq_refl
              eq_refl Hy) as (_ & -> & Hm & Hn).
  do 2 f_equal. apply flat_map_events_on; [done|lia].
Qed.
End ExportKeys.

(** ** Hosts with one offset among the hosts whose clocks change *)

Section ConstantOffset.
Context `{ZoneEnv}.
Variable c : Z.
Hypothesis Hconst : ∀ u isUTC, LocalTZA u isUTC = c.

Lemma constant_offset_bound : Z.abs c < 86400000.
Proof. rewrite <- (Hconst 0 true). apply LocalTZA_bound. Qed.

Lemma Zoned_Date_ymd (y m dt : num) :
  Zoned.Date_ymd y m dt = @Date_ymd (host_of_offset c constant_offset_bound) y m dt.
Proof.
  unfold Zoned.Date_ymd, Date_ymd, Zoned.UTC, ES.UTC.
  destruct y, m, dt; cbn [mbind option_bind]; by rewrite ?Hconst.
Qed.

Lemma Zoned_getFullYear (d : Date) :
  Zoned.getFullYear d = @getFullYear (host_of_offset c constant_offset_bound) d.
Proof.
  unfold Zoned.getFullYear, getFullYear, Zoned.LocalTime, ES.LocalTime.
  destruct d; cbn [mbind option_bind]; by rewrite ?Hconst.
Qed.

Lemma Zoned_getMonth (d : Date) :
  Zoned.getMonth d = @getMonth (host_of_offset c constant_offset_bound) d.
Proof.
  unfold Zoned.getMonth, getMonth, Zoned.LocalTime, ES.LocalTime.
  destruct d; cbn [mbind option_bind]; by rewrite ?Hconst.
Qed.

Lemma Zoned_getDate (d : Date) :
  Zoned.getDate d = @getDate (host_of_offset c constant_offset_bound) d.
Proof.
  unfold Zoned.getDate, getDate, Zoned.LocalTime, ES.LocalTime.
  destruct d; cbn [mbind option_bind]; by rewrite ?Hconst.
Qed.

Lemma Zoned_getDay (d : Date) :
  Zoned.getDay d = @getDay (host_of_offset c constant_offset_bound) d.
Proof.
  unfold Zoned.getDay, getDay, Zoned.LocalTime, ES.LocalTime.
  destruct d; cbn [mbind option_bind]; by rewrite ?Hconst.
Qed.

Lemma Zoned_setDate (d : Date) (x : num) :
  Zoned.setDate d x = @setDate (host_of_offset c constant_offset_bound) d x.
Proof.
  unfold Zoned.setDate, setDate, Zoned.LocalTime, ES.LocalTime, Zoned.UTC, ES.UTC.
  destruct d, x; cbn [mbind option_bind]; by rewrite ?Hconst.
Qed.

Lemma Zoned_push_days (n : nat) (d : Date) :
  Zoned.push_days n d = @push_days (host_of_offset c constant_offset_bound) n d.
Proof.
  revert d. induction n as [|n IH]; intros d; [done|].
  cbn [Zoned.push_days push_days]. by rewrite IH, Zoned_setDate, Zoned_getDate.
Qed.

Lemma Zoned_getDaysInMonth (d : Date) :
  Zoned.getDaysInMonth d = @getDaysInMonth (host_of_offset c constant_offset_bound) d.
Proof.
  unfold Zoned.getDaysInMonth, getDaysInMonth.
  by rewrite Zoned_push_days, !Zoned_Date_ymd, !Zoned_getFullYear, !Zoned_getMonth,
    Zoned_setDate, Zoned_getDay, Zoned_getDate.
Qed.

Lemma Zoned_isCurrentMonth (month d : Date) :
  Zoned.isCurrentMonth month d
  = @isCurrentMonth (host_of_offset c constant_offset_bound) month d.
Proof. unfold Zoned.isCurrentMonth, isCurrentMonth. by rewrite !Zoned_getMonth. Qed.

Lemma Zoned_collect_month (fuel : nat) (evs : Store) (d lastDay : Date) (acc : list Event) :
  Zoned.collect_month fuel evs d lastDay acc
  = @collect_month (host_of_offset c constant_offset_bound) fuel evs d lastDay acc.
Proof.
  revert d acc. induction fuel as [|f IH]; intros d acc; [done|].
  cbn [Zoned.collect_month collect_month]. rewrite Zoned_setDate, Zoned_getDate.
  destruct (num_le d lastDay); [|done]. destruct (dateKeyOf d); [|done]. apply IH.
Qed.

Lemma Zoned_handleExportEvents_csv (w : World) :
  Zoned.handleExportEvents_csv w
  = @handleExportEvents_csv (host_of_offset c constant_offset_bound) w.
Proof.
  unfold Zoned.handleExportEvents_csv, handleExportEvents_csv.
  by rewrite Zoned_collect_month, !Zoned_Date_ymd, !Zoned_getFullYear, !Zoned_getMonth.
Qed.

Lemma Zoned_handleExportEvents_json (w : World) :
  Zoned.handleExportEvents_json w
  = @handleExportEvents_json (host_of_offset c constant_offset_bound) w.
Proof.
  unfold Zoned.handleExportEvents_json, handleExportEvents_json.
  by rewrite Zoned_collect_month, !Zoned_Date_ymd, !Zoned_getFullYear, !Zoned_getMonth.
Qed.

(** Both exports on a host with the offset [c] at all times. *)
Lemma Zoned_export_exported (w : World) (t y m shown : Z) :
  currentMonth (app w) = Some t →
  y = ES.YearFromTime (t + c) →
  m = ES.MonthFromTime (t + c) →
  shown = (if (0 <=? y) && (y <=? 99) then 1900 + y else y) →
  -271820 ≤ y ≤ 275759 →
  ∃ iso,
    Zoned.handleExportEvents_csv w
    = Downloaded ("events-" +:+ String.substring 0 7 iso +:+ ".csv")
        (csvContent (exported_events c (events (app w)) shown m)) ∧
    Zoned.handleExportEvents_json w
    = Downloaded ("events-" +:+ String.substring 0 7 iso +:+ ".json")
        (stringify_indent EmptyString
           (JArr (map Event_to_js (exported_events c (events (app w)) shown m)))).
Proof.
  intros Hmonth Ey Em Es Hy. destruct (toISOString_Some t) as [iso Hiso]. exists iso.
  rewrite Zoned_handleExportEvents_csv, Zoned_handleExportEvents_json.
  unfold handleExportEvents_csv, handleExportEvents_json. cbv zeta. rewrite Hmonth.
  rewrite (@collect_month_exported (host_of_offset c constant_offset_bound)
             (events (app w)) t y m shown Ey Em Es Hy).
  by rewrite Hiso.
Qed.
End ConstantOffset.

(** ** Export to CSV, key by key *)




(** Ahead of UTC the event of 31 March is not in the export of March: the
    loop looks for it under the key of 30 March. *)
Lemma handleExportEvents_csv_ahead_of_UTC :
  @Zoned.handleExportEvents_csv ahead_zone (sample_world end_of_march_store None)
  = Downloaded "events-2024-03.csv" (csvContent [sample_event "ev1" "08:00" "09:00"]).
Proof. vm_compute. reflexivity. Qed.

(** Where the clocks are put forward at a local midnight of the month, the
    dates of the loop are at one o'clock from then on, the last of them is
    after the midnight that ends the loop, and the events of the last day
    of the month are not exported although the grid shows that day. *)
Lemma handleExportEvents_csv_clock_change :
  @Zoned.handleExportEvents_csv havana_zone (sample_world end_of_march_store None)
  = Downloaded "events-2024-03.csv" (csvContent [sample_event "ev1" "08:00" "09:00"]) ∧
  exported_events (-14400000) end_of_march_store 2024 2
  = [sample_event "ev1" "08:00" "09:00"; sample_event "ev2" "08:30" "09:30"] ∧
  ∃ cell, @Zoned.getDaysInMonth havana_zone march_10 !! 35%nat = Some cell ∧
          dateKeyOf cell = Some "2024-03-31" ∧
          @Zoned.isCurrentMonth havana_zone march_10 cell = true.
Proof.
  split; [vm_compute; reflexivity|]. split; [vm_compute; reflexivity|].
  eexists. split; [vm_compute; reflexivity|]. split; vm_compute; reflexivity.
Qed.

(** ** Export to JSON *)

(** X22. On a host whose offset from UTC is the same at all times, for a
    shown date of a year between -271820 and 275759, the JSON export offers
    a file whose text [JSON.parse] reads as an array from whose objects the
    events gathered come back with all their fields, in the order gathered:
    those of [exported_events], as for the CSV export. *)
Theorem handleExportEvents_json_reads_back `{ZoneEnv} (w : World) (c t : Z) :
  (∀ u isUTC, LocalTZA u isUTC = c) →
  currentMonth (app w) = Some t →
  -271820 ≤ ES.YearFromTime (t + c) ≤ 275759 →
  ∃ filename text items,
    Zoned.handleExportEvents_json w = Downloaded filename text ∧
    JSON_parse text = Some (JArr items) ∧
    mapM Event_of_js items
    = Some (exported_events c (events (app w))
              (if (0 <=? ES.YearFromTime (t + c)) && (ES.YearFromTime (t + c) <=? 99)
               then 1900 + ES.YearFromTime (t + c) else ES.YearFromTime (t + c))
              (ES.MonthFromTime (t + c))).
Proof.
  intros Hconst Hmonth Hy.
  destruct (Zoned_export_exported c Hconst w t _ _ _ Hmonth eq_refl eq_refl eq_refl Hy)
    as (iso & _ & Hjson).
  remember (exported_events c (events (app w))
              (if (0 <=? ES.YearFromTime (t + c)) && (ES.YearFromTime (t + c) <=? 99)
               then 1900 + ES.YearFromTime (t + c) else ES.YearFromTime (t + c))
              (ES.MonthFromTime (t + c))) as evs eqn:Hevs.
  exists ("events-" +:+ String.substring 0 7 iso +:+ ".json"),
         (stringify_indent EmptyString (JArr (map Event_to_js evs))),
         (map Event_to_js evs).
  split; [exact Hjson|]. clear Hevs Hjson. split.
  - apply JSON_parse_stringify_indent, plain_json_arr, Forall_map, Forall_forall.
    intros e _. apply plain_json_Event_to_js.
  - apply mapM_Event_of_js.
Qed.

Lemma handleExportEvents_json_reads_back_witness :
  ∃ filename text items,
    @Zoned.handleExportEvents_json utc_zone (sample_world two_day_store None)
    = Downloaded filename text ∧
    JSON_parse text = Some (JArr items) ∧
    mapM Event_of_js items = Some (exported_events 0 two_day_store 2024 2).
Proof.
  apply (@handleExportEvents_json_reads_back utc_zone (sample_world two_day_store None)
           0 1710028800000).
  - intros u isUTC. reflexivity.
  - reflexivity.
  - vm_compute. split; discriminate.
Defined.

(** ** The keys of the cells *)

(** X21. On a host whose offset from UTC is the same at all times, every
    cell of the grid has a key and no two cells of a grid have the same key:
    every cell is a drop target of its own and shows the events of one
    stored day. *)
Theorem getDaysInMonth_keys_distinct `{ZoneEnv} (c t : Z) :
  (∀ u isUTC, LocalTZA u isUTC = c) →
  -271820 ≤ ES.YearFromTime (t + c) ≤ 275759 →
  NoDup (map dateKeyOf (Zoned.getDaysInMonth (Some t))) ∧
  Forall (λ d, is_Some (dateKeyOf d)) (Zoned.getDaysInMonth (Some t)).
Proof.
  intros Hconst Hy. rewrite (Zoned_getDaysInMonth c Hconst).
  by apply (@getDaysInMonth_keys_fixed (host_of_offset c (constant_offset_bound c Hconst))).
Qed.

Lemma getDaysInMonth_keys_distinct_witness :
  NoDup (map dateKeyOf (@Zoned.getDaysInMonth ahead_zone march_10)).
Proof.
  destruct (@getDaysInMonth_keys_distinct ahead_zone 19800000 1710028800000) as [Hnd _].
  - intros u isUTC. reflexivity.
  - vm_compute. split; discriminate.
  - exact Hnd.
Defined.

(** Where the clocks are put forward during a day, the midnight after it
    comes an hour early: with clocks as in London the cells of 31 March and
    of 1 April 2024 both have the key of 31 March. *)
Lemma getDaysInMonth_keys_clock_change :
  map dateKeyOf (@Zoned.getDaysInMonth london_zone march_10) !! 35%nat
  = Some (Some "2024-03-31") ∧
  map dateKeyOf (@Zoned.getDaysInMonth london_zone march_10) !! 36%nat
  = Some (Some "2024-03-31") ∧
  map (@Zoned.getDate london_zone) (@Zoned.getDaysInMonth london_zone march_10) !! 35%nat
  = Some (Some 31) ∧
  map (@Zoned.getDate london_zone) (@Zoned.getDaysInMonth london_zone march_10) !! 36%nat
  = Some (Some 1).
Proof. split_and!; vm_compute; reflexivity. Qed.

(** ** The export and the grid *)

(** X23. On a host whose offset from UTC is the same at all times, for a
    shown date of a year between -271820 and 275759, both exports gather
    the events of the cells of the grid that belong to the shown month, cell
    after cell: what is exported is what these cells show when nothing is
    searched. *)
Theorem handleExportEvents_month_cells `{ZoneEnv} (w : World) (c t : Z) :
  (∀ u isUTC, LocalTZA u isUTC = c) →
  currentMonth (app w) = Some t →
  -271820 ≤ ES.YearFromTime (t + c) ≤ 275759 →
  let y := ES.YearFromTime (t + c) in
  let m := ES.MonthFromTime (t + c) in
  let shown := if (0 <=? y) && (y <=? 99) then 1900 + y else y in
  let first := ES.MakeDay shown m 1 in
  let cells := take (Z.to_nat (DaysInMonth shown m))
                    (drop (Z.to_nat (ES.WeekDay (first * ES.msPerDay)))
                          (Zoned.getDaysInMonth (Some t))) in
  let exported := flat_map (λ d, getFilteredEvents EmptyString (events_on (events (app w)) d))
                           cells in
  Forall (λ d, Zoned.isCurrentMonth (Some t) d = true) cells ∧
  length cells = Z.to_nat (DaysInMonth shown m) ∧
  (∃ filename, Zoned.handleExportEvents_csv w = Downloaded filename (csvContent exported)) ∧
  (∃ filename, Zoned.handleExportEvents_json w
               = Downloaded filename
                   (stringify_indent EmptyString (JArr (map Event_to_js exported)))).
Proof.
  intros Hconst Hmonth Hy. cbv zeta.
  rewrite (Zoned_getDaysInMonth c Hconst), (Zoned_handleExportEvents_csv c Hconst),
    (Zoned_handleExportEvents_json c Hconst).
  pose proof (@handleExportEvents_month_cells_fixed
                (host_of_offset c (constant_offset_bound c Hconst)) w t Hmonth Hy) as Hfixed.
  cbv zeta in Hfixed. destruct Hfixed as (Hcur & Hlen & Hcsv & Hjson).
  split; [|split; [exact Hlen|split; [exact Hcsv|exact Hjson]]].
  eapply Forall_impl; [exact Hcur|]. intros d Hd.
  by rewrite (Zoned_isCurrentMonth c Hconst).
Qed.

Lemma handleExportEvents_month_cells_witness :
  ∃ filename, @Zoned.handleExportEvents_csv ahead_zone (sample_world two_day_store None)
              = Downloaded filename
                  (csvContent
                     (flat_map (λ d, getFilteredEvents EmptyString (events_on two_day_store d))
                        (take 31 (drop 5 (@Zoned.getDaysInMonth ahead_zone march_10))))).
Proof.
  destruct (@handleExportEvents_month_cells ahead_zone (sample_world two_day_store None)
              19800000 1710028800000) as (_ & _ & Hcsv & _).
  - intros u isUTC. reflexivity.
  - reflexivity.
  - vm_compute. split; discriminate.
  - exact Hcsv.
Defined.
